(** * Omni-Parser asset pipeline

    A shallow embedding of the content-addressed asset pipeline of
    Omni-Parser: the image extraction of [scripts/transformer.py]
    ([ContentTransformer._process_images]) and the consolidation pass of
    [scripts/asset_deduplicator.py] ([AssetDeduplicator]).

    Python values are modelled as follows.
    - [str] is [string]; a character is an [ascii] (code points below 256).
    - [bytes] is [list byte].
    - a [dict] is an association list in insertion order (Python dicts keep
      it, and the rewriter iterates over [replacement_map.items()]).
    - an exception is the [Raise] case of [py_result], with its message.
    - the file system is an explicit state; each entry carries the outcome
      the operating system would give to a read, write or unlink of it. *)

From Stdlib Require Import String List Ascii Bool Arith PeanoNat NArith ZArith Lia.
From Stdlib Require Import Permutation.
From Stdlib Require Import Strings.Byte.
Import ListNotations.

(* ================================================================= *)
(** ** Results of fallible Python code *)

Inductive py_result (A : Type) : Type :=
| Ok (a : A)
| Raise (msg : string).

Arguments Ok {A} a.
Arguments Raise {A} msg.

(* ================================================================= *)
(** ** Python [str] operations used by the sources *)

Module PyStr.

(** [s.startswith(p)] *)
Fixpoint startswith (p s : string) : bool :=
  match p, s with
  | EmptyString, _ => true
  | String _ _, EmptyString => false
  | String a p', String b s' => Ascii.eqb a b && startswith p' s'
  end.

(** [s[n:]] *)
Fixpoint drop (n : nat) (s : string) : string :=
  match n, s with
  | O, _ => s
  | S _, EmptyString => EmptyString
  | S k, String _ s' => drop k s'
  end.

(** [s[:n]] *)
Fixpoint take (n : nat) (s : string) : string :=
  match n, s with
  | O, _ => EmptyString
  | S _, EmptyString => EmptyString
  | S k, String c s' => String c (take k s')
  end.

(** [sub in s] *)
Fixpoint contains (sub s : string) : bool :=
  startswith sub s
  || match s with
     | EmptyString => false
     | String _ s' => contains sub s'
     end.

(** [s.endswith(suf)] *)
Definition endswith (suf s : string) : bool :=
  (String.length suf <=? String.length s)
  && String.eqb (drop (String.length s - String.length suf) s) suf.

(** [s.replace(old, new)] for a non-empty [old]: a left-to-right scan
    for non-overlapping occurrences.  [skip] counts the characters of an
    occurrence already replaced that are still to be passed over. *)
Fixpoint replace_from (old new : string) (skip : nat) (s : string) : string :=
  match s with
  | EmptyString => EmptyString
  | String c s' =>
      match skip with
      | S k => replace_from old new k s'
      | O =>
          if startswith old s
          then (new ++ replace_from old new (String.length old - 1) s')%string
          else String c (replace_from old new 0 s')
      end
  end.

(** [s.replace(EmptyString, new)] puts [new] around every character. *)
Fixpoint interleave (new s : string) : string :=
  (new ++ match s with
          | EmptyString => EmptyString
          | String c s' => String c (interleave new s')
          end)%string.

Definition replace (old new s : string) : string :=
  match old with
  | EmptyString => interleave new s
  | String _ _ => replace_from old new 0 s
  end.

(** [c.lower()] on one character below 256: the letters A-Z, and the
    capital letters of Latin-1 (192-222 but the sign 215). *)
Definition lower_char (c : ascii) : ascii :=
  let n := nat_of_ascii c in
  if ((65 <=? n) && (n <=? 90))
     || ((192 <=? n) && (n <=? 222) && negb (n =? 215))
  then ascii_of_nat (n + 32)
  else c.

(** [s.lower()] *)
Fixpoint lower (s : string) : string :=
  match s with
  | EmptyString => EmptyString
  | String c s' => String (lower_char c) (lower s')
  end.

(** [s.rfind(".")], as an option. *)
Fixpoint rfind_dot (s : string) : option nat :=
  match s with
  | EmptyString => None
  | String c s' =>
      match rfind_dot s' with
      | Some i => Some (S i)
      | None => if Ascii.eqb c "."%char then Some 0 else None
      end
  end.

(** [x in xs] for a collection of strings. *)
Definition mem (x : string) (xs : list string) : bool :=
  existsb (String.eqb x) xs.

End PyStr.

(* ================================================================= *)
(** ** [hashlib.md5] (RFC 1321) *)

Module MD5.

Local Open Scope Z_scope.

Definition mask32 : Z := 0xffffffff.
Definition add32 (x y : Z) : Z := Z.land (x + y) mask32.
Definition not32 (x : Z) : Z := Z.lxor x mask32.
Definition rotl32 (x c : Z) : Z :=
  Z.lor (Z.land (Z.shiftl x c) mask32) (Z.shiftr x (32 - c)).

Definition shifts : list Z :=
  [7; 12; 17; 22; 7; 12; 17; 22; 7; 12; 17; 22; 7; 12; 17; 22;
   5; 9; 14; 20; 5; 9; 14; 20; 5; 9; 14; 20; 5; 9; 14; 20;
   4; 11; 16; 23; 4; 11; 16; 23; 4; 11; 16; 23; 4; 11; 16; 23;
   6; 10; 15; 21; 6; 10; 15; 21; 6; 10; 15; 21; 6; 10; 15; 21].

Definition sines : list Z :=
  [0xd76aa478; 0xe8c7b756; 0x242070db; 0xc1bdceee;
   0xf57c0faf; 0x4787c62a; 0xa8304613; 0xfd469501;
   0x698098d8; 0x8b44f7af; 0xffff5bb1; 0x895cd7be;
   0x6b901122; 0xfd987193; 0xa679438e; 0x49b40821;
   0xf61e2562; 0xc040b340; 0x265e5a51; 0xe9b6c7aa;
   0xd62f105d; 0x02441453; 0xd8a1e681; 0xe7d3fbc8;
   0x21e1cde6; 0xc33707d6; 0xf4d50d87; 0x455a14ed;
   0xa9e3e905; 0xfcefa3f8; 0x676f02d9; 0x8d2a4c8a;
   0xfffa3942; 0x8771f681; 0x6d9d6122; 0xfde5380c;
   0xa4beea44; 0x4bdecfa9; 0xf6bb4b60; 0xbebfbc70;
   0x289b7ec6; 0xeaa127fa; 0xd4ef3085; 0x04881d05;
   0xd9d4d039; 0xe6db99e5; 0x1fa27cf8; 0xc4ac5665;
   0xf4292244; 0x432aff97; 0xab9423a7; 0xfc93a039;
   0x655b59c3; 0x8f0ccc92; 0xffeff47d; 0x85845dd1;
   0x6fa87e4f; 0xfe2ce6e0; 0xa3014314; 0x4e0811a1;
   0xf7537e82; 0xbd3af235; 0x2ad7d2bb; 0xeb86d391].

Record regs : Type := { rA : Z; rB : Z; rC : Z; rD : Z }.

Definition init : regs :=
  {| rA := 0x67452301; rB := 0xefcdab89; rC := 0x98badcfe; rD := 0x10325476 |}.

(** Operation [i] (of 64) on the 16-word block [m]. *)
Definition step (m : list Z) (r : regs) (i : Z) : regs :=
  let '(f, g) :=
    if i <? 16 then
      (Z.lor (Z.land (rB r) (rC r)) (Z.land (not32 (rB r)) (rD r)), i)
    else if i <? 32 then
      (Z.lor (Z.land (rD r) (rB r)) (Z.land (not32 (rD r)) (rC r)), (5 * i + 1) mod 16)
    else if i <? 48 then
      (Z.lxor (rB r) (Z.lxor (rC r) (rD r)), (3 * i + 5) mod 16)
    else
      (Z.lxor (rC r) (Z.lor (rB r) (not32 (rD r))), (7 * i) mod 16) in
  let f' :=
    add32 (add32 (add32 f (rA r)) (nth (Z.to_nat i) sines 0)) (nth (Z.to_nat g) m 0) in
  {| rA := rD r; rD := rC r; rC := rB r;
     rB := add32 (rB r) (rotl32 f' (nth (Z.to_nat i) shifts 0)) |}.

Definition block (h : regs) (m : list Z) : regs :=
  let r := fold_left (step m) (map Z.of_nat (seq 0 64)) h in
  {| rA := add32 (rA h) (rA r); rB := add32 (rB h) (rB r);
     rC := add32 (rC h) (rC r); rD := add32 (rD h) (rD r) |}.

(** Little-endian words of a byte sequence, and back. *)
Fixpoint words (bs : list Z) (n : nat) : list Z :=
  match n with
  | O => []
  | S n' =>
      match bs with
      | b0 :: b1 :: b2 :: b3 :: rest =>
          (b0 + Z.shiftl b1 8 + Z.shiftl b2 16 + Z.shiftl b3 24) :: words rest n'
      | _ => []
      end
  end.

Definition le_bytes (n : nat) (x : Z) : list Z :=
  map (fun k => Z.land (Z.shiftr x (8 * Z.of_nat k)) 0xff) (seq 0 n).

Definition pad (msg : list Z) : list Z :=
  let len := Z.of_nat (List.length msg) in
  (msg ++ [0x80] ++ repeat 0 (Z.to_nat ((55 - len) mod 64))
       ++ le_bytes 8 (Z.land (8 * len) 0xffffffffffffffff))%list.

Fixpoint blocks (h : regs) (bs : list Z) (n : nat) : regs :=
  match n with
  | O => h
  | S n' => blocks (block h (words bs 16)) (skipn 64 bs) n'
  end.

Definition digest (msg : list byte) : list Z :=
  let p := pad (map (fun b => Z.of_N (Byte.to_N b)) msg) in
  let h := blocks init p (List.length p / 64) in
  (le_bytes 4 (rA h) ++ le_bytes 4 (rB h) ++ le_bytes 4 (rC h) ++ le_bytes 4 (rD h))%list.

Definition hex_digit (d : Z) : ascii :=
  nth (Z.to_nat d) (list_ascii_of_string "0123456789abcdef") "0"%char.

Fixpoint hex (bs : list Z) : string :=
  match bs with
  | [] => EmptyString
  | b :: rest =>
      String (hex_digit (Z.shiftr b 4)) (String (hex_digit (Z.land b 0xf)) (hex rest))
  end.

(** [hashlib.md5(msg).hexdigest()] *)
Definition hexdigest (msg : list byte) : string := hex (digest msg).

End MD5.

Arguments MD5.hexdigest : simpl never.

(* ================================================================= *)
(** ** [re.sub] on a fragment of Python's regular expressions

    The rewriter builds its pattern by pasting a file name into a regular
    expression, so the name is read as a pattern.  This module interprets
    the fragment that such patterns stay in when the name is made of
    ordinary characters, dots and parentheses: literal characters, escaped
    punctuation, [.], negated character sets [[^...]], a greedy star on a
    single-character atom, and capturing groups.  Every other construct
    is reported as [Unsupported], never guessed. *)

Module Re.

Inductive atom : Type :=
| Chr (c : ascii)            (* a literal character *)
| Dot                        (* [.]: any character but a newline *)
| NotIn (cs : list ascii).   (* [[^...]] *)

Inductive item : Type :=
| One (a : atom)
| Star (a : atom)            (* greedy [a*] *)
| Open                       (* [(] *)
| Close.                     (* [)] *)

Inductive outcome (A : Type) : Type :=
| Done (a : A)
| ReError (msg : string)     (* Python raises [re.error] *)
| Unsupported.               (* outside the fragment *)

Arguments Done {A} a.
Arguments ReError {A} msg.
Arguments Unsupported {A}.

Definition is_digit (c : ascii) : bool :=
  let n := nat_of_ascii c in (48 <=? n) && (n <=? 57).

Definition is_alnum (c : ascii) : bool :=
  let n := nat_of_ascii c in
  is_digit c || ((65 <=? n) && (n <=? 90)) || ((97 <=? n) && (n <=? 122)).

Definition is_ascii (c : ascii) : bool := nat_of_ascii c <? 128.

(** Characters with a meaning of their own that the fragment leaves out. *)
Definition left_out (c : ascii) : bool :=
  existsb (Ascii.eqb c) (list_ascii_of_string "+?{}|^$]").

Inductive mode : Type :=
| Normal
| Escaped
| SetOpen                         (* after [[] *)
| SetBody (cs : list ascii)       (* after [[^] and the members [cs] *)
| SetEscaped (cs : list ascii).

(** The parser reads the pattern once, left to right; [acc] holds the
    items read so far in reverse, [depth] the groups still open. *)
Fixpoint parse_from (m : mode) (acc : list item) (depth : nat) (p : string)
  : outcome (list item) :=
  match p with
  | EmptyString =>
      match m with
      | Normal =>
          if depth =? 0 then Done (rev acc)
          else ReError "missing ), unterminated subpattern"
      | Escaped => ReError "bad escape (end of pattern)"
      | _ => ReError "unterminated character set"
      end
  | String c p' =>
      match m with
      | Normal =>
          if Ascii.eqb c "\"%char then parse_from Escaped acc depth p'
          else if Ascii.eqb c "."%char then parse_from Normal (One Dot :: acc) depth p'
          else if Ascii.eqb c "["%char then parse_from SetOpen acc depth p'
          else if Ascii.eqb c "("%char then parse_from Normal (Open :: acc) (S depth) p'
          else if Ascii.eqb c ")"%char then
            match depth with
            | O => ReError "unbalanced parenthesis"
            | S d => parse_from Normal (Close :: acc) d p'
            end
          else if Ascii.eqb c "*"%char then
            match acc with
            | One a :: acc' => parse_from Normal (Star a :: acc') depth p'
            | _ => Unsupported
            end
          else if left_out c then Unsupported
          else parse_from Normal (One (Chr c) :: acc) depth p'
      | Escaped =>
          if is_ascii c && negb (is_alnum c)
          then parse_from Normal (One (Chr c) :: acc) depth p'
          else Unsupported
      | SetOpen =>
          if Ascii.eqb c "^"%char then parse_from (SetBody []) acc depth p'
          else Unsupported
      | SetBody cs =>
          if Ascii.eqb c "]"%char then
            match cs with
            | [] => Unsupported
            | _ => parse_from Normal (One (NotIn cs) :: acc) depth p'
            end
          else if Ascii.eqb c "\"%char then parse_from (SetEscaped cs) acc depth p'
          else if existsb (Ascii.eqb c) (list_ascii_of_string "-[^") then Unsupported
          else parse_from (SetBody (cs ++ [c])) acc depth p'
      | SetEscaped cs =>
          if is_ascii c && negb (is_alnum c)
          then parse_from (SetBody (cs ++ [c])) acc depth p'
          else Unsupported
      end
  end.

Definition parse (p : string) : outcome (list item) := parse_from Normal [] 0 p.

Definition groups (its : list item) : nat :=
  List.length (filter (fun i => match i with Open => true | _ => false end) its).

(** Replacement templates: literal text and [\1] .. [\9]. *)
Inductive piece : Type :=
| Text (c : ascii)
| Group (n : nat).

Fixpoint parse_template (ngroups : nat) (t : string) : outcome (list piece) :=
  match t with
  | EmptyString => Done []
  | String c t' =>
      if Ascii.eqb c "\"%char then
        match t' with
        | EmptyString => ReError "bad escape (end of pattern)"
        | String d t'' =>
            let n := nat_of_ascii d - 48 in
            let more := match t'' with
                        | EmptyString => false
                        | String e _ => is_digit e
                        end in
            if is_digit d && negb (n =? 0) && negb more then
              if n <=? ngroups then
                match parse_template ngroups t'' with
                | Done ps => Done (Group n :: ps)
                | other => other
                end
              else ReError "invalid group reference"
            else Unsupported
        end
      else
        match parse_template ngroups t' with
        | Done ps => Done (Text c :: ps)
        | other => other
        end
  end.

Definition atom_matches (a : atom) (c : ascii) : bool :=
  match a with
  | Chr d => Ascii.eqb c d
  | Dot => negb (Ascii.eqb c (ascii_of_nat 10))
  | NotIn cs => negb (existsb (Ascii.eqb c) cs)
  end.

(** Captures while matching: the groups still open, with the text each
    has seen so far, the groups closed, and the next group number. *)
Record caps : Type := {
  opened : list (nat * string);
  closed : list (nat * string);
  next : nat
}.

Definition no_caps : caps := {| opened := []; closed := []; next := 1 |}.

Definition feed (c : ascii) (k : caps) : caps :=
  {| opened := map (fun g => (fst g, (snd g ++ String c EmptyString)%string)) (opened k);
     closed := closed k;
     next := next k |}.

Definition open_group (k : caps) : caps :=
  {| opened := (next k, EmptyString) :: opened k;
     closed := closed k;
     next := S (next k) |}.

Definition close_group (k : caps) : caps :=
  match opened k with
  | [] => k
  | g :: rest => {| opened := rest; closed := g :: closed k; next := next k |}
  end.

(** A backtracking match of [its] at the start of the text: the
    captures and the text left, for the first way to match in the
    engine's order (a star takes as much as it can, then gives back). *)
Fixpoint match_items (its : list item) : string -> caps -> option (caps * string) :=
  match its with
  | [] => fun s k => Some (k, s)
  | One a :: rest =>
      fun s k =>
        match s with
        | String c s' =>
            if atom_matches a c then match_items rest s' (feed c k) else None
        | EmptyString => None
        end
  | Star a :: rest =>
      fix star (s : string) (k : caps) {struct s} : option (caps * string) :=
        match s with
        | String c s' =>
            if atom_matches a c then
              match star s' (feed c k) with
              | Some r => Some r
              | None => match_items rest s k
              end
            else match_items rest s k
        | EmptyString => match_items rest s k
        end
  | Open :: rest => fun s k => match_items rest s (open_group k)
  | Close :: rest => fun s k => match_items rest s (close_group k)
  end.

Fixpoint group_text (n : nat) (gs : list (nat * string)) : string :=
  match gs with
  | [] => EmptyString
  | (i, s) :: rest => if i =? n then s else group_text n rest
  end.

Fixpoint expand (ps : list piece) (k : caps) : string :=
  match ps with
  | [] => EmptyString
  | Text c :: rest => String c (expand rest k)
  | Group n :: rest => (group_text n (closed k) ++ expand rest k)%string
  end.

(** The scan of [re.sub]: non-overlapping matches, leftmost first.  A
    pattern that can match the empty string is outside the fragment. *)
Fixpoint sub_from (its : list item) (ps : list piece) (skip : nat) (s : string)
  : option string :=
  match s with
  | EmptyString =>
      match match_items its EmptyString no_caps with
      | Some _ => None
      | None => Some EmptyString
      end
  | String c s' =>
      match skip with
      | S k => sub_from its ps k s'
      | O =>
          match match_items its s no_caps with
          | Some (k, rest) =>
              let n := String.length s - String.length rest in
              match n with
              | O => None
              | S n' =>
                  match sub_from its ps n' s' with
                  | Some out => Some (expand ps k ++ out)%string
                  | None => None
                  end
              end
          | None =>
              match sub_from its ps 0 s' with
              | Some out => Some (String c out)
              | None => None
              end
          end
      end
  end.

(** [re.sub(pattern, repl, text)] *)
Definition sub (pattern repl text : string) : outcome string :=
  match parse pattern with
  | Done its =>
      match parse_template (groups its) repl with
      | Done ps =>
          match sub_from its ps 0 text with
          | Some out => Done out
          | None => Unsupported
          end
      | ReError m => ReError m
      | Unsupported => Unsupported
      end
  | ReError m => ReError m
  | Unsupported => Unsupported
  end.

End Re.

(* ================================================================= *)
(** ** The file system seen by the consolidation pass *)

(** A [pathlib.Path] below a root: the directories on the way and the
    final component, [Path.name]. *)
Record Path : Type := mkPath { dirs : list string; name : string }.

Definition Path_eq_dec (p q : Path) : {p = q} + {p <> q}.
Proof.
  decide equality; [apply string_dec | apply (list_eq_dec string_dec)].
Defined.

Definition Path_eqb (p q : Path) : bool :=
  if Path_eq_dec p q then true else false.

(** [Path.suffix] *)
Definition suffix (p : Path) : string :=
  match PyStr.rfind_dot (name p) with
  | Some i =>
      if (0 <? i) && (i <? String.length (name p) - 1)
      then PyStr.drop i (name p)
      else EmptyString
  | None => EmptyString
  end.

(** An entry of the attachment store.  [a_read_error] and
    [a_unlink_error] are the exceptions that opening the file for reading,
    and [stat] or [unlink] on it, raise ([None]: they succeed). *)
Record asset : Type := {
  a_path : Path;
  a_is_file : bool;
  a_bytes : list byte;
  a_read_error : option string;
  a_unlink_error : option string
}.

(** An entry of the document tree.  [n_read_error] covers every failure
    of [read_text] (a directory named [x.md], permissions, bytes that are
    not UTF-8); a failing [write_text] is taken to leave the file as it
    was. *)
Record note : Type := {
  n_path : Path;
  n_text : string;
  n_read_error : option string;
  n_write_error : option string
}.

(** What a directory walk ([rglob]) does besides yielding entries: it
    runs to the end, or raises after having yielded [after] entries.  The
    walk is a generator, and [is_file] is called outside the [try] of the
    loop body, so an exception of either escapes the loop. *)
Inductive walk : Type :=
| WalkOk
| WalkFails (after : nat) (msg : string).

Definition walk_tick (w : walk) : walk :=
  match w with
  | WalkOk => WalkOk
  | WalkFails n msg => WalkFails (pred n) msg
  end.

(** Calls that change the file system.  [OpReplace] (a rename over the
    target) is part of the vocabulary although no source function
    issues it. *)
Inductive fs_op : Type :=
| OpWriteText (p : Path) (text : string)
| OpWriteBytes (p : Path) (data : list byte)
| OpUnlink (p : Path)
| OpReplace (src dst : Path).

(** Records of the module's logger. *)
Inductive log_event : Type :=
| LogScanning
| LogNoDuplicates
| LogHashFailed (p : Path) (e : string)      (* warning *)
| LogUpdateFailed (p : Path) (e : string)    (* error *)
| LogRemoveFailed (p : Path) (e : string)    (* error *)
| LogComplete (removed bytes : nat)
| LogDedupFailed (e : string).               (* exception *)

(** The state that a run reads and changes: the entries below
    [attachments_dir] and below [notes_dir] in the order of their walks,
    what the logger has recorded, and the changes made to the file
    system so far.  The two trees are kept apart: an entry is an image
    of the store or a document, never both. *)
Record World : Type := {
  store : list asset;
  store_walk : walk;
  corpus : list note;
  corpus_walk : walk;
  log : list log_event;
  ops : list fs_op
}.

(** The [DeduplicationResult] dataclass. *)
Record DeduplicationResult : Type := {
  total_files : nat;
  duplicates_found : nat;
  duplicates_removed : nat;
  bytes_saved : nat;
  files_updated : nat;
  errors : list string
}.

(* ================================================================= *)
(** ** [AssetDeduplicator] *)

Definition IMAGE_EXTENSIONS : list string :=
  [".png"; ".jpg"; ".jpeg"; ".gif"; ".webp"; ".svg"; ".bmp"]%string.

(** A [dict] from [str] keys, in insertion order. *)
Definition dict (V : Type) : Type := list (string * V).

Fixpoint dict_get {V : Type} (d : dict V) (k : string) : option V :=
  match d with
  | [] => None
  | (k', v) :: rest => if String.eqb k' k then Some v else dict_get rest k
  end.

(** [k in d] *)
Definition dict_mem {V : Type} (d : dict V) (k : string) : bool :=
  match dict_get d k with
  | Some _ => true
  | None => false
  end.

(** [d[k] = v]: an existing key keeps its place. *)
Fixpoint dict_set {V : Type} (d : dict V) (k : string) (v : V) : dict V :=
  match d with
  | [] => [(k, v)]
  | (k', v') :: rest =>
      if String.eqb k' k then (k', v) :: rest else (k', v') :: dict_set rest k v
  end.

(** [hash_map[h].append(p)] on a [defaultdict(list)]. *)
Fixpoint hm_append (hm : dict (list Path)) (h : string) (p : Path) : dict (list Path) :=
  match hm with
  | [] => [(h, [p])]
  | (k, ps) :: rest =>
      if String.eqb k h then (k, ps ++ [p]) :: rest else (k, ps) :: hm_append rest h p
  end.

Definition is_image (a : asset) : bool :=
  a_is_file a && PyStr.mem (PyStr.lower (suffix (a_path a))) IMAGE_EXTENSIONS.

Arguments is_image : simpl never.

Definition _hash_file (a : asset) : py_result string :=
  match a_read_error a with
  | None => Ok (MD5.hexdigest (a_bytes a))
  | Some e => Raise e
  end.

(** The loop of [_hash_all_files] over the entries the walk yields. *)
Fixpoint hash_loop (files : list asset) (hm : dict (list Path)) (lg : list log_event)
  : dict (list Path) * list log_event :=
  match files with
  | [] => (hm, lg)
  | a :: rest =>
      if negb (is_image a) then hash_loop rest hm lg
      else
        match _hash_file a with
        | Ok h => hash_loop rest (hm_append hm h (a_path a)) lg
        | Raise e => hash_loop rest hm (lg ++ [LogHashFailed (a_path a) e])
        end
  end.

Definition yielded {A : Type} (w : walk) (l : list A) : list A :=
  match w with
  | WalkOk => l
  | WalkFails n _ => firstn n l
  end.

Definition _hash_all_files (w : World) : py_result (dict (list Path)) * list log_event :=
  let '(hm, lg) := hash_loop (yielded (store_walk w) (store w)) [] [] in
  match store_walk w with
  | WalkOk => (Ok hm, lg)
  | WalkFails _ msg => (Raise msg, lg)
  end.

Definition _find_duplicates (hm : dict (list Path)) : list (list Path) :=
  filter (fun files => 1 <? List.length files) (map snd hm).

(** The sort key [(len(p.name), p.name)] and its order on tuples. *)
Definition key_ltb (p q : Path) : bool :=
  (String.length (name p) <? String.length (name q))
  || ((String.length (name p) =? String.length (name q))
      && String.ltb (name p) (name q)).

(** [sorted(group, key=...)]: Python's sort is stable, and a stable sort
    has one possible result; it is computed here by insertion. *)
Fixpoint insert_by_key (x : Path) (l : list Path) : list Path :=
  match l with
  | [] => [x]
  | y :: l' => if key_ltb y x then y :: insert_by_key x l' else x :: l
  end.

Fixpoint sorted_by_key (l : list Path) : list Path :=
  match l with
  | [] => []
  | x :: l' => insert_by_key x (sorted_by_key l')
  end.

(** The body of the loop of [_build_replacement_map] on one group;
    [sorted_group[0]] raises [IndexError] on an empty group. *)
Definition map_group (m : dict string) (group : list Path) : py_result (dict string) :=
  match sorted_by_key group with
  | [] => Raise "list index out of range"
  | canonical :: duplicates =>
      Ok (fold_left (fun m d => dict_set m (name d) (name canonical)) duplicates m)
  end.

Fixpoint build_from (groups : list (list Path)) (m : dict string) : py_result (dict string) :=
  match groups with
  | [] => Ok m
  | g :: rest =>
      match map_group m g with
      | Ok m' => build_from rest m'
      | Raise e => Raise e
      end
  end.

Definition _build_replacement_map (groups : list (list Path)) : py_result (dict string) :=
  build_from groups [].

(** The embed token [![[name]]] (as the transformer's [_obsidian_img]
    writes it), and the pattern and the template that the rewriter hands
    to [re.sub] for a linked image. *)
Definition embed_token (n : string) : string := ("![[" ++ n ++ "]]")%string.
Definition link_pattern (old_name : string) : string :=
  ("!\[([^\]]*)\]\(" ++ old_name ++ "\)")%string.
Definition link_template (new_name : string) : string :=
  ("![\1](" ++ new_name ++ ")")%string.

Definition is_md (n : note) : bool := PyStr.endswith ".md" (name (n_path n)).

Arguments is_md : simpl never.

(** [s.add(p)] on a [set] of paths. *)
Definition path_add (p : Path) (s : list Path) : list Path :=
  if existsb (Path_eqb p) s then s else p :: s.

Fixpoint find_asset (p : Path) (st : list asset) : option asset :=
  match st with
  | [] => None
  | a :: rest => if Path_eqb (a_path a) p then Some a else find_asset p rest
  end.

(** [p.unlink()] *)
Definition unlink (p : Path) (st : list asset) : list asset :=
  filter (fun a => negb (Path_eqb (a_path a) p)) st.

Definition files_to_remove (groups : list (list Path)) (rmap : dict string) : list Path :=
  filter (fun file => dict_mem rmap (name file)) (concat groups).

(** What the loop of [_remove_duplicates] leaves behind. *)
Record removal : Type := {
  r_store : list asset;
  r_bytes : nat;
  r_removed : nat;
  r_log : list log_event;
  r_ops : list fs_op
}.

Fixpoint remove_loop (paths : list Path) (st : list asset) : removal :=
  match paths with
  | [] => {| r_store := st; r_bytes := 0; r_removed := 0; r_log := []; r_ops := [] |}
  | p :: rest =>
      match find_asset p st with
      | None =>
          let r := remove_loop rest st in
          {| r_store := r_store r; r_bytes := r_bytes r; r_removed := r_removed r;
             r_log := LogRemoveFailed p "No such file or directory" :: r_log r;
             r_ops := r_ops r |}
      | Some a =>
          match a_unlink_error a with
          | Some e =>
              let r := remove_loop rest st in
              {| r_store := r_store r; r_bytes := r_bytes r; r_removed := r_removed r;
                 r_log := LogRemoveFailed p e :: r_log r;
                 r_ops := r_ops r |}
          | None =>
              let r := remove_loop rest (unlink p st) in
              {| r_store := r_store r;
                 r_bytes := List.length (a_bytes a) + r_bytes r;
                 r_removed := S (r_removed r);
                 r_log := r_log r;
                 r_ops := OpUnlink p :: r_ops r |}
          end
      end
  end.

Definition _remove_duplicates (groups : list (list Path)) (rmap : dict string)
  (st : list asset) : removal :=
  remove_loop (files_to_remove groups rmap) st.

Section Consolidation.

(** Python's [re.sub(pattern, repl, string)]; [Raise] is [re.error]. *)
Variable re_sub : string -> string -> string -> py_result string.

(** The body of the loop over [replacement_map.items()]. *)
Definition rewrite_entry (content : string) (e : string * string) : py_result string :=
  re_sub (link_pattern (fst e)) (link_template (snd e))
    (PyStr.replace (embed_token (fst e)) (embed_token (snd e)) content).

Fixpoint rewrite_content (items : dict string) (content : string) : py_result string :=
  match items with
  | [] => Ok content
  | e :: rest =>
      match rewrite_entry content e with
      | Ok content' => rewrite_content rest content'
      | Raise msg => Raise msg
      end
  end.

Inductive note_outcome : Type :=
| Unchanged
| Updated (text : string)
| Failed (e : string).

(** The [try] block of [_update_markdown_links] on one document. *)
Definition update_note (rmap : dict string) (n : note) : note_outcome :=
  match n_read_error n with
  | Some e => Failed e
  | None =>
      match rewrite_content rmap (n_text n) with
      | Raise e => Failed e
      | Ok content =>
          if String.eqb content (n_text n) then Unchanged
          else
            match n_write_error n with
            | Some e => Failed e
            | None => Updated content
            end
      end
  end.

Definition set_text (n : note) (text : string) : note :=
  {| n_path := n_path n; n_text := text;
     n_read_error := n_read_error n; n_write_error := n_write_error n |}.

(** What the loop of [_update_markdown_links] leaves behind;
    [u_raised] is the exception of the walk, if it raised. *)
Record rewriting : Type := {
  u_corpus : list note;
  u_updated : list Path;
  u_log : list log_event;
  u_ops : list fs_op;
  u_raised : option string
}.

(** The walk raised before the documents [notes] were reached. *)
Definition stopped (notes : list note) (msg : string) : rewriting :=
  {| u_corpus := notes; u_updated := []; u_log := []; u_ops := [];
     u_raised := Some msg |}.

(** An entry that [rglob('*.md')] does not yield. *)
Definition passed (n : note) (r : rewriting) : rewriting :=
  {| u_corpus := n :: u_corpus r; u_updated := u_updated r; u_log := u_log r;
     u_ops := u_ops r; u_raised := u_raised r |}.

(** The end of the loop body on [n], before the rest [r] of the loop:
    a changed text is written with [md_file.write_text] and the path
    joins [updated_files]; an exception is logged. *)
Definition after_note (n : note) (o : note_outcome) (r : rewriting) : rewriting :=
  match o with
  | Unchanged => passed n r
  | Updated text =>
      {| u_corpus := set_text n text :: u_corpus r;
         u_updated := path_add (n_path n) (u_updated r);
         u_log := u_log r;
         u_ops := OpWriteText (n_path n) text :: u_ops r;
         u_raised := u_raised r |}
  | Failed e =>
      {| u_corpus := n :: u_corpus r; u_updated := u_updated r;
         u_log := LogUpdateFailed (n_path n) e :: u_log r;
         u_ops := u_ops r; u_raised := u_raised r |}
  end.

Fixpoint update_loop (rmap : dict string) (w : walk) (notes : list note) : rewriting :=
  match notes with
  | [] =>
      match w with
      | WalkOk => {| u_corpus := []; u_updated := []; u_log := []; u_ops := [];
                     u_raised := None |}
      | WalkFails _ msg => stopped [] msg
      end
  | n :: rest =>
      if negb (is_md n) then passed n (update_loop rmap w rest)
      else
        match w with
        | WalkFails O msg => stopped (n :: rest) msg
        | _ => after_note n (update_note rmap n) (update_loop rmap (walk_tick w) rest)
        end
  end.

Definition _update_markdown_links (w : World) (rmap : dict string) : rewriting :=
  update_loop rmap (corpus_walk w) (corpus w).

Definition report (total found removed bytes updated : nat) (errs : list string)
  : DeduplicationResult :=
  {| total_files := total; duplicates_found := found; duplicates_removed := removed;
     bytes_saved := bytes; files_updated := updated; errors := errs |}.

Definition count_files (hm : dict (list Path)) : nat :=
  list_sum (map (fun files => List.length files) (map snd hm)).

Definition count_duplicates (groups : list (list Path)) : nat :=
  list_sum (map (fun group => List.length group - 1) groups).

(** [deduplicate_directory(attachments_dir, notes_dir)]: the report and
    the world it leaves.  The [except Exception] of the function is the
    [Raise] and [Some e] branches. *)
Definition deduplicate_directory (w : World) : DeduplicationResult * World :=
  match _hash_all_files w with
  | (Raise e, lg) =>
      (report 0 0 0 0 0 [e],
       {| store := store w; store_walk := store_walk w;
          corpus := corpus w; corpus_walk := corpus_walk w;
          log := log w ++ [LogScanning] ++ lg ++ [LogDedupFailed e];
          ops := ops w |})
  | (Ok hash_map, lg) =>
      let total := count_files hash_map in
      let duplicate_groups := _find_duplicates hash_map in
      let found := count_duplicates duplicate_groups in
      match duplicate_groups with
      | [] =>
          (report total found 0 0 0 [],
           {| store := store w; store_walk := store_walk w;
              corpus := corpus w; corpus_walk := corpus_walk w;
              log := log w ++ [LogScanning] ++ lg ++ [LogNoDuplicates];
              ops := ops w |})
      | _ :: _ =>
          match _build_replacement_map duplicate_groups with
          | Raise e =>
              (report total found 0 0 0 [e],
               {| store := store w; store_walk := store_walk w;
                  corpus := corpus w; corpus_walk := corpus_walk w;
                  log := log w ++ [LogScanning] ++ lg ++ [LogDedupFailed e];
                  ops := ops w |})
          | Ok replacement_map =>
              let u := _update_markdown_links w replacement_map in
              match u_raised u with
              | Some e =>
                  (report total found 0 0 0 [e],
                   {| store := store w; store_walk := store_walk w;
                      corpus := u_corpus u; corpus_walk := corpus_walk w;
                      log := log w ++ [LogScanning] ++ lg ++ u_log u ++ [LogDedupFailed e];
                      ops := ops w ++ u_ops u |})
              | None =>
                  let r := _remove_duplicates duplicate_groups replacement_map (store w) in
                  (report total found (r_removed r) (r_bytes r)
                     (List.length (u_updated u)) [],
                   {| store := r_store r; store_walk := store_walk w;
                      corpus := u_corpus u; corpus_walk := corpus_walk w;
                      log := log w ++ [LogScanning] ++ lg ++ u_log u ++ r_log r
                             ++ [LogComplete (r_removed r) (r_bytes r)];
                      ops := ops w ++ u_ops u ++ r_ops r |})
              end
          end
      end
  end.

End Consolidation.

(** [re.sub] as far as module [Re] interprets it.  The theorems on the
    consolidation pass hold for every [re_sub]; this instance is applied
    below only to patterns that [Re.sub] does interpret. *)
Definition re_sub_fragment (pattern repl text : string) : py_result string :=
  match Re.sub pattern repl text with
  | Re.Done out => Ok out
  | Re.ReError msg => Raise msg
  | Re.Unsupported => Raise "pattern outside the interpreted fragment"
  end.

(* ================================================================= *)
(** ** [ContentTransformer._process_images]

    The HTML is parsed by BeautifulSoup; the model starts from the [img]
    tags it finds.  Each tag carries its [src] attribute (stripped) and
    what the outside world answers for it: the result of
    [base64.b64decode] on the text after the first comma, of
    [requests.get] followed by [raise_for_status], and of [write_bytes]
    on the file the image goes to.  The rewritten HTML is not modelled;
    [image_map] records the replacements made. *)

Module Transformer.

Record response : Type := {
  content_type : option string;
  content : list byte
}.

Record img : Type := {
  src : string;
  b64decoded : py_result (list byte);
  fetched : py_result response;
  write_error : option string
}.

(** [_decode_base64]: [None] when the URI has no comma or the payload
    does not decode. *)
Definition _decode_base64 (i : img) : option (list byte) :=
  if PyStr.contains "," (src i) then
    match b64decoded i with
    | Ok data => Some data
    | Raise _ => None
    end
  else None.

(** Characters matched by [[\w+]]: Python's word characters below 256,
    and the plus sign. *)
Definition is_word_or_plus (c : ascii) : bool :=
  let n := nat_of_ascii c in
  Re.is_alnum c || (n =? 95) || (n =? 43)
  || existsb (Nat.eqb n) [170; 178; 179; 181; 185; 186; 188; 189; 190]
  || ((192 <=? n) && (n <=? 214)) || ((216 <=? n) && (n <=? 246)) || (248 <=? n).

Fixpoint take_while (f : ascii -> bool) (s : string) : string :=
  match s with
  | EmptyString => EmptyString
  | String c s' => if f c then String c (take_while f s') else EmptyString
  end.

(** [re.search(r"image/([\w+]+)", s)]: the group of the leftmost match. *)
Fixpoint search_image_type (s : string) : option string :=
  let here :=
    if PyStr.startswith "image/" s
    then match take_while is_word_or_plus (PyStr.drop 6 s) with
         | EmptyString => None
         | run => Some run
         end
    else None in
  match here with
  | Some run => Some run
  | None =>
      match s with
      | EmptyString => None
      | String _ s' => search_image_type s'
      end
  end.

Definition _image_extension (data_uri : string) : string :=
  match search_image_type data_uri with
  | Some t => ("." ++ t)%string
  | None => ".png"%string
  end.

Definition _guess_extension (ct : option string) : string :=
  match ct with
  | None => ".png"
  | Some EmptyString => ".png"
  | Some t =>
      if PyStr.contains "jpeg" t then ".jpg"
      else if PyStr.contains "png" t then ".png"
      else if PyStr.contains "gif" t then ".gif"
      else ".img"
  end%string.

Definition _hashed_filename (base : string) (data : list byte) (ext : string) : string :=
  (base ++ "_" ++ PyStr.take 12 (MD5.hexdigest data) ++ ext)%string.

(** The state of the loop: the attachment directory (file name to
    bytes), the locals of the function, and the exception that left the
    loop, if one did. *)
Record ingest : Type := {
  i_files : dict (list byte);
  i_image_map : dict string;
  i_extracted : nat;
  i_external : nat;
  i_warnings : list string;
  i_ops : list fs_op;
  i_raised : option string
}.

Definition start (files : dict (list byte)) : ingest :=
  {| i_files := files; i_image_map := []; i_extracted := 0; i_external := 0;
     i_warnings := []; i_ops := []; i_raised := None |}.

Definition warn (st : ingest) (msg : string) (external : nat) : ingest :=
  {| i_files := i_files st; i_image_map := i_image_map st;
     i_extracted := i_extracted st; i_external := external;
     i_warnings := i_warnings st ++ [msg]; i_ops := i_ops st;
     i_raised := i_raised st |}.

Definition raise (st : ingest) (e : string) : ingest :=
  {| i_files := i_files st; i_image_map := i_image_map st;
     i_extracted := i_extracted st; i_external := i_external st;
     i_warnings := i_warnings st; i_ops := i_ops st; i_raised := Some e |}.

(** [(attachments_dir / name).write_bytes(data)], then the
    bookkeeping that follows it in both branches. *)
Definition stored (st : ingest) (i : img) (fname : string) (data : list byte)
  (extracted external : nat) : ingest :=
  {| i_files := dict_set (i_files st) fname data;
     i_image_map := dict_set (i_image_map st) (src i) fname;
     i_extracted := extracted; i_external := external;
     i_warnings := i_warnings st;
     i_ops := i_ops st ++ [OpWriteBytes (mkPath [] fname) data];
     i_raised := i_raised st |}.

(** The body of the loop over [soup.find_all("img")]. *)
Definition process_image (base_name : string) (download_external : bool)
  (st : ingest) (i : img) : ingest :=
  match src i with
  | EmptyString => st
  | _ =>
      if PyStr.startswith "data:image" (src i) then
        match _decode_base64 i with
        | None | Some [] => warn st "Failed to decode base64 image" (i_external st)
        | Some data =>
            let fname := _hashed_filename base_name data (_image_extension (src i)) in
            match write_error i with
            | Some e => raise st e
            | None => stored st i fname data (S (i_extracted st)) (i_external st)
            end
        end
      else if PyStr.startswith "http" (src i) && download_external then
        match fetched i with
        | Raise _ =>
            warn st ("Failed to download image: " ++ src i) (S (i_external st))
        | Ok resp =>
            let fname :=
              _hashed_filename base_name (content resp)
                (_guess_extension (content_type resp)) in
            match write_error i with
            | Some _ =>
                warn st ("Failed to download image: " ++ src i) (S (i_external st))
            | None => stored st i fname (content resp) (i_extracted st) (S (i_external st))
            end
        end
      else st
  end.

Fixpoint process_loop (base_name : string) (download_external : bool)
  (st : ingest) (imgs : list img) : ingest :=
  match imgs with
  | [] => st
  | i :: rest =>
      let st' := process_image base_name download_external st i in
      match i_raised st' with
      | Some _ => st'
      | None => process_loop base_name download_external st' rest
      end
  end.

Definition _process_images (imgs : list img) (base_name : string)
  (files : dict (list byte)) (download_external : bool) : ingest :=
  process_loop base_name download_external (start files) imgs.

(** *** [_finalize_markdown] *)

Definition newline : ascii := "010"%char.

(** The number of characters up to and including the first [>]. *)
Fixpoint tag_len (s : string) : option nat :=
  match s with
  | EmptyString => None
  | String c s' =>
      if Ascii.eqb c ">"%char then Some 1 else option_map S (tag_len s')
  end.

(** [re.match(r"<[^>]+>", s)]: the number of characters of the match
    after its [<].  The run [[^>]+] is greedy and stops at the first
    [>]; it must not be empty. *)
Definition opens (s : string) : option nat :=
  match s with
  | EmptyString => None
  | String c s' =>
      if Ascii.eqb c "<"%char then
        match tag_len s' with
        | Some (S (S k)) => Some (S (S k))
        | _ => None
        end
      else None
  end.

(** [re.sub(r"<[^>]+>", EmptyString, s)]: a left-to-right scan; [skip]
    counts the characters of a match still to be passed over. *)
Fixpoint strip_from (skip : nat) (s : string) : string :=
  match s with
  | EmptyString => EmptyString
  | String c s' =>
      match skip with
      | S k => strip_from k s'
      | O =>
          match opens s with
          | Some n => strip_from n s'
          | None => String c (strip_from 0 s')
          end
      end
  end.

Definition strip_tags (s : string) : string := strip_from 0 s.

(** [re.search(r"<[^>]+>", s) is not None] *)
Fixpoint tagged (s : string) : bool :=
  match opens s with
  | Some _ => true
  | None =>
      match s with
      | EmptyString => false
      | String _ s' => tagged s'
      end
  end.

(** The length of the run of newlines at the head. *)
Fixpoint newlines (s : string) : nat :=
  match s with
  | EmptyString => 0
  | String c s' => if Ascii.eqb c newline then S (newlines s') else 0
  end.

(** [re.sub(r"\n{4,}", "\n\n", s)]: a run of four newlines or more is
    matched whole. *)
Fixpoint collapse_from (skip : nat) (s : string) : string :=
  match s with
  | EmptyString => EmptyString
  | String c s' =>
      match skip with
      | S k => collapse_from k s'
      | O =>
          if 4 <=? newlines s
          then String newline (String newline (collapse_from (newlines s') s'))
          else String c (collapse_from 0 s')
      end
  end.

Definition collapse_blank_lines (s : string) : string := collapse_from 0 s.

(** [c.isspace()] on one character below 256. *)
Definition is_space (c : ascii) : bool :=
  let n := nat_of_ascii c in
  ((9 <=? n) && (n <=? 13)) || ((28 <=? n) && (n <=? 32)) || (n =? 133) || (n =? 160).

(** [s.lstrip()], [s.rstrip()] and [s.strip()] *)
Fixpoint lstrip (s : string) : string :=
  match s with
  | EmptyString => EmptyString
  | String c s' => if is_space c then lstrip s' else s
  end.

Fixpoint rstrip (s : string) : string :=
  match s with
  | EmptyString => EmptyString
  | String c s' =>
      match rstrip s' with
      | EmptyString => if is_space c then EmptyString else String c EmptyString
      | r => String c r
      end
  end.

Definition strip (s : string) : string := rstrip (lstrip s).

(** [image_map] is not used by the function. *)
Definition _finalize_markdown (md : string) (image_map : dict string) : string :=
  strip (collapse_blank_lines (strip_tags md)).

End Transformer.

(* ================================================================= *)
(** ** Notions used in the statements *)

(** [sorted_group[0]] *)
Definition canonical_of (group : list Path) : option Path :=
  hd_error (sorted_by_key group).

(** The index keeps an entry when it is a recognised image file whose
    hashing does not raise. *)
Definition hashable (a : asset) : bool :=
  is_image a && match a_read_error a with
                | None => true
                | Some _ => false
                end.

Definition hashes_to (h : string) (a : asset) : bool :=
  hashable a && String.eqb (MD5.hexdigest (a_bytes a)) h.

(** No key of the mapping is mapped to a key. *)
Definition no_chains (m : dict string) : Prop :=
  forall k v, dict_get m k = Some v -> dict_mem m v = false.


(** The order on names that the key induces, as a proposition. *)
Definition name_lt (a b : string) : Prop :=
  String.length a < String.length b
  \/ (String.length a = String.length b /\ String.compare a b = Lt).

(** The head of a list is least when no later element is below it. *)
Definition head_least (l : list Path) : Prop :=
  match l with
  | [] => True
  | c :: rest => forall p, In p rest -> key_ltb p c = false
  end.

(** The inner loop of [_build_replacement_map]: the names of
    [duplicates] are set to [cn], the other keys keep their value. *)
Definition add_names (cn : string) (duplicates : list Path) (m : dict string) : dict string :=
  fold_left (fun m d => dict_set m (name d) cn) duplicates m.

(** The entries under a hash, none for a hash that is not a key. *)
Definition hm_paths (hm : dict (list Path)) (k : string) : list Path :=
  match dict_get hm k with
  | Some ps => ps
  | None => []
  end.

(** The paths of the files of [files] that are indexed under [k]. *)
Definition paths_of (k : string) (files : list asset) : list Path :=
  map a_path (filter (hashes_to k) files).

(** The index of a store: [_hash_all_files] on a walk that completes. *)
Definition store_index (st : list asset) : dict (list Path) :=
  fst (hash_loop st [] []).

(** The entries that the Garbage Collector leaves when no [unlink]
    fails: those whose path is not to be removed. *)
Definition kept (paths : list Path) (a : asset) : bool :=
  negb (existsb (Path_eqb (a_path a)) paths).

(* ================================================================= *)
(** ** The dry run and the report of [AssetDeduplicator] *)

(** [analyze_duplicates(attachments_dir)]: the entries of the index with
    more than one file.  The walk is not guarded here: its exception
    leaves the function. *)
Definition analyze_duplicates (w : World) : py_result (dict (list Path)) * list log_event :=
  match _hash_all_files w with
  | (Ok hm, lg) => (Ok (filter (fun e => 1 <? List.length (snd e)) hm), lg)
  | (Raise e, lg) => (Raise e, lg)
  end.

(** [min(group, key=lambda p: (len(p.name), p.name))] in
    [generate_report]: the first member whose key is least; [min] raises
    [ValueError] on an empty group. *)
Fixpoint min_from (best : Path) (l : list Path) : Path :=
  match l with
  | [] => best
  | x :: rest => min_from (if key_ltb x best then x else best) rest
  end.

Definition min_by_key (group : list Path) : py_result Path :=
  match group with
  | [] => Raise "min() arg is an empty sequence"
  | x :: rest => Ok (min_from x rest)
  end.

(** [[f for f in group if f != canonical]] in [generate_report]. *)
Definition report_duplicates (group : list Path) (canonical : Path) : list Path :=
  filter (fun f => negb (Path_eqb f canonical)) group.

(** The bytes that the files of a store take. *)
Definition total_size (st : list asset) : nat :=
  list_sum (map (fun a => List.length (a_bytes a)) st).

(* ================================================================= *)
(** ** Shapes of strings *)

(** The digits of [hexdigest]. *)
Definition is_hex (c : ascii) : bool :=
  existsb (Ascii.eqb c) (list_ascii_of_string "0123456789abcdef").

(** [all(f(c) for c in s)] *)
Fixpoint all_chars (f : ascii -> bool) (s : string) : bool :=
  match s with
  | EmptyString => true
  | String c s' => f c && all_chars f s'
  end.

Definition chr_gt : ascii := ">"%char.
Definition chr_lt : ascii := "<"%char.

(** A text without [>]. *)
Definition no_gt (s : string) : bool :=
  all_chars (fun c => negb (Ascii.eqb c chr_gt)) s.

(** [s.startswith(">")] *)
Definition starts_gt (s : string) : bool :=
  match s with
  | String c _ => Ascii.eqb c chr_gt
  | EmptyString => false
  end.

(** Four newlines in a row. *)
Definition four_newlines : string :=
  String Transformer.newline
    (String Transformer.newline
       (String Transformer.newline (String Transformer.newline EmptyString))).

(* ================================================================= *)
(** ** Worlds and inputs of the examples *)

Module Examples.

Local Open Scope string_scope.

Definition image (ds : list string) (n : string) (data : list byte) : asset :=
  {| a_path := mkPath ds n; a_is_file := true; a_bytes := data;
     a_read_error := None; a_unlink_error := None |}.

Definition document (n text : string) : note :=
  {| n_path := mkPath [] n; n_text := text;
     n_read_error := None; n_write_error := None |}.

Definition world (st : list asset) (docs : list note) : World :=
  {| store := st; store_walk := WalkOk; corpus := docs; corpus_walk := WalkOk;
     log := []; ops := [] |}.

Definition pixels : list byte := [x89; x50; x4e; x47].
Definition other_pixels : list byte := [xff; xd8; xff; xe0].

Definition photo_a : asset := image [] "photo_a.png" pixels.
Definition photo_b : asset := image [] "photo_b.png" pixels.

(** Scenario A of the specification, with the embed written as the
    transformer writes it. *)
Definition scenario_a : World :=
  world [photo_a; photo_b]
        [document "note.md" "![[photo_b.png]] and ![alt](photo_a.png)"].

(** The same store; the only document that refers to [photo_b.png]
    cannot be written. *)
Definition read_only_note : note :=
  {| n_path := mkPath [] "note.md"; n_text := "![[photo_b.png]]";
     n_read_error := None; n_write_error := Some "[Errno 13] Permission denied" |}.

Definition failed_rewrite : World := world [photo_a; photo_b] [read_only_note].

(** Two copies of one image under the same name in two directories. *)
Definition same_name : World :=
  world [image ["a"] "x.png" pixels; image ["b"] "x.png" pixels] [].

(** A store with one file that cannot be read and a duplicate that
    cannot be removed. *)
Definition unreadable : asset :=
  {| a_path := mkPath [] "broken.png"; a_is_file := true; a_bytes := pixels;
     a_read_error := Some "[Errno 13] Permission denied"; a_unlink_error := None |}.

Definition locked : asset :=
  {| a_path := mkPath [] "photo_b.png"; a_is_file := true; a_bytes := pixels;
     a_read_error := None; a_unlink_error := Some "[Errno 1] Operation not permitted" |}.

Definition item_failures : World :=
  world [photo_a; locked; unreadable] [document "note.md" "plain text"].

(** Scenario A with a store whose walk raises after one entry. *)
Definition broken_walk : World :=
  {| store := [photo_a; photo_b]; store_walk := WalkFails 1 "[Errno 5] Input/output error";
     corpus := [document "note.md" "![[photo_b.png]]"]; corpus_walk := WalkOk;
     log := []; ops := [] |}.

(** An inline image of a document [note], and the store in which its
    file is already present. *)
Definition inline_png : Transformer.img :=
  {| Transformer.src := "data:image/png;base64,iVBORw==";
     Transformer.b64decoded := Ok pixels;
     Transformer.fetched := Raise "not a URL";
     Transformer.write_error := None |}.

Definition remote_jpeg : Transformer.img :=
  {| Transformer.src := "https://example.org/cat";
     Transformer.b64decoded := Raise "not base64";
     Transformer.fetched :=
       Ok {| Transformer.content_type := Some "image/jpeg";
             Transformer.content := other_pixels |};
     Transformer.write_error := None |}.

(** A download answered with [Content-Type: image/webp], as the
    transformer names it, beside the photos of scenario A. *)
Definition webp_download : asset :=
  image []
    (Transformer._hashed_filename "note" other_pixels
       (Transformer._guess_extension (Some "image/webp")))
    other_pixels.

Definition with_download : World := world [photo_a; photo_b; webp_download] [].

End Examples.

(* ================================================================= *)
(** ** Facts on [str.replace] *)

Module PyStrFacts.

Import PyStr.


Lemma drop_app (p r : string) : drop (String.length p) (p ++ r) = r.
Proof. induction p as [|a p IH]; simpl; [destruct r; reflexivity | exact IH]. Qed.







End PyStrFacts.

(* ================================================================= *)
(** ** The Reference Rewriter on one document *)






(** C5 fails on the code: the old name is pasted into the pattern
    unescaped.  With the mapping [shot.1.png -> shot.png], a link to the
    unrelated file [shot_1.png] is rewritten, although the old name does
    not occur in the document; with [img (1).png -> img.png], the link
    to [img (1).png] itself is not rewritten, because the parentheses of
    the name are read as a group. *)
Theorem old_name_read_as_pattern :
  rewrite_content re_sub_fragment [("shot.1.png", "shot.png")]%string
    "![s](shot_1.png)" = Ok "![s](shot.png)"%string
  /\ PyStr.contains "shot.1.png" "![s](shot_1.png)" = false
  /\ rewrite_content re_sub_fragment [("img (1).png", "img.png")]%string
       "![alt](img (1).png)" = Ok "![alt](img (1).png)"%string
  /\ Re.sub (link_pattern "shot.1.png") (link_template "shot.png") "![s](shot_1.png)"
     = Re.Done "![s](shot.png)"%string
  /\ Re.sub (link_pattern "img (1).png") (link_template "img.png") "![alt](img (1).png)"
     = Re.Done "![alt](img (1).png)"%string.
Proof. repeat split; vm_compute; reflexivity. Qed.

(* ================================================================= *)
(** ** The Asset Ingestor *)

Module TransformerFacts.

Import Transformer.

Lemma dict_get_set_same {V : Type} (d : dict V) (k : string) (v : V) :
  dict_get (dict_set d k v) k = Some v.
Proof.
  induction d as [|[k' v'] d IH]; simpl.
  - now rewrite String.eqb_refl.
  - destruct (String.eqb k' k) eqn:E; simpl; rewrite E; [reflexivity | exact IH].
Qed.

Lemma startswith_nonempty (p s : string) :
  p <> EmptyString -> PyStr.startswith p s = true -> s <> EmptyString.
Proof. destruct p, s; simpl; congruence. Qed.

End TransformerFacts.

(** C7, as the code has it.  For an inline image that decodes to
    non-empty bytes, and for a remote image that is fetched, the file
    name is [<stem>_<first 12 hex digits of the MD5><ext>], and the
    bytes are written under that name without any test for an existing
    file: afterwards the directory holds the bytes under the name,
    whether the name was there before or not, and a write is recorded. *)
Theorem image_written_under_hashed_name
  (base_name : string) (download_external : bool)
  (st : Transformer.ingest) (i : Transformer.img) :
  Transformer.write_error i = None ->
  (forall b data ext,
      Transformer._hashed_filename b data ext
      = (b ++ "_" ++ PyStr.take 12 (MD5.hexdigest data) ++ ext)%string)
  /\ (forall data,
         PyStr.startswith "data:image" (Transformer.src i) = true ->
         Transformer._decode_base64 i = Some data ->
         data <> [] ->
         let fname :=
           Transformer._hashed_filename base_name data
             (Transformer._image_extension (Transformer.src i)) in
         let st' := Transformer.process_image base_name download_external st i in
         Transformer.i_files st' = dict_set (Transformer.i_files st) fname data
         /\ dict_get (Transformer.i_files st') fname = Some data
         /\ Transformer.i_ops st'
            = Transformer.i_ops st ++ [OpWriteBytes (mkPath [] fname) data])
  /\ (forall resp,
         PyStr.startswith "data:image" (Transformer.src i) = false ->
         PyStr.startswith "http" (Transformer.src i) = true ->
         download_external = true ->
         Transformer.fetched i = Ok resp ->
         let fname :=
           Transformer._hashed_filename base_name (Transformer.content resp)
             (Transformer._guess_extension (Transformer.content_type resp)) in
         let st' := Transformer.process_image base_name download_external st i in
         Transformer.i_files st'
         = dict_set (Transformer.i_files st) fname (Transformer.content resp)
         /\ dict_get (Transformer.i_files st') fname = Some (Transformer.content resp)
         /\ Transformer.i_ops st'
            = Transformer.i_ops st
              ++ [OpWriteBytes (mkPath [] fname) (Transformer.content resp)]).
Proof.
  intros Hw. split; [reflexivity|]. split.
  - intros data Hs Hd Hne fname st'.
    assert (Hsrc : Transformer.src i <> EmptyString)
      by (eapply TransformerFacts.startswith_nonempty; [|exact Hs]; discriminate).
    assert (E : st' = Transformer.stored st i fname data
                        (S (Transformer.i_extracted st)) (Transformer.i_external st)).
    { unfold st', Transformer.process_image.
      destruct (Transformer.src i) eqn:Es; [congruence|].
      rewrite Hs, Hd, Hw. destruct data; [congruence | reflexivity]. }
    rewrite E. simpl. repeat split. apply TransformerFacts.dict_get_set_same.
  - intros resp Hs Hh Hdl Hf fname st'.
    assert (Hsrc : Transformer.src i <> EmptyString)
      by (eapply TransformerFacts.startswith_nonempty; [|exact Hh]; discriminate).
    assert (E : st' = Transformer.stored st i fname (Transformer.content resp)
                        (Transformer.i_extracted st) (S (Transformer.i_external st))).
    { unfold st', Transformer.process_image.
      destruct (Transformer.src i) eqn:Es; [congruence|].
      rewrite Hs, Hh, Hdl, Hf, Hw. reflexivity. }
    rewrite E. simpl. repeat split. apply TransformerFacts.dict_get_set_same.
Qed.

(** The inline image of the examples, in a store that already holds its file. *)
Lemma image_written_under_hashed_name_witness :
  Transformer.i_files
    (Transformer.process_image "note" true
       (Transformer.start [("note_3bdaf5969285.png", Examples.pixels)]%string)
       Examples.inline_png)
  = dict_set [("note_3bdaf5969285.png", Examples.pixels)]%string
      (Transformer._hashed_filename "note" Examples.pixels
         (Transformer._image_extension (Transformer.src Examples.inline_png)))
      Examples.pixels.
Proof.
  refine (proj1 (proj1 (proj2 (image_written_under_hashed_name "note" true
            (Transformer.start [("note_3bdaf5969285.png", Examples.pixels)]%string)
            Examples.inline_png _)) Examples.pixels _ _ _)).
  - reflexivity.
  - reflexivity.
  - reflexivity.
  - discriminate.
Defined.

(** C7 as stated fails: the store already holds
    [note_3bdaf5969285.png], the name that the inline image of document
    [note] is given, and the image is written all the same. *)
Lemma existing_file_written_again :
  let files := [("note_3bdaf5969285.png", Examples.pixels)]%string in
  let st := Transformer._process_images [Examples.inline_png] "note" files true in
  dict_mem files "note_3bdaf5969285.png" = true
  /\ Transformer.i_ops st
     = [OpWriteBytes (mkPath [] "note_3bdaf5969285.png") Examples.pixels]
  /\ Transformer.i_raised st = None.
Proof. vm_compute. repeat split. Qed.

(* ================================================================= *)
(** ** Writes of the Reference Rewriter *)

Section WriteFacts.

Variable re_sub : string -> string -> string -> py_result string.

Lemma update_note_updated (rmap : dict string) (n : note) (text : string) :
  update_note re_sub rmap n = Updated text ->
  rewrite_content re_sub rmap (n_text n) = Ok text /\ text <> n_text n.
Proof.
  unfold update_note.
  destruct (n_read_error n); [discriminate|].
  destruct (rewrite_content re_sub rmap (n_text n)) as [content|]; [|discriminate].
  destruct (String.eqb content (n_text n)) eqn:E; [discriminate|].
  destruct (n_write_error n); [discriminate|].
  intros H; inversion H; subst. split; [reflexivity|].
  now apply String.eqb_neq.
Qed.


(** The cases of one round of the loop. *)
Lemma update_loop_cases (rmap : dict string) (wk : walk) (n : note) (rest : list note) :
  (is_md n = false
   /\ update_loop re_sub rmap wk (n :: rest) = passed n (update_loop re_sub rmap wk rest))
  \/ (is_md n = true
      /\ exists msg, wk = WalkFails 0 msg
                     /\ update_loop re_sub rmap wk (n :: rest) = stopped (n :: rest) msg)
  \/ (is_md n = true
      /\ update_loop re_sub rmap wk (n :: rest)
         = after_note n (update_note re_sub rmap n)
             (update_loop re_sub rmap (walk_tick wk) rest)).
Proof.
  cbn [update_loop]. destruct (is_md n); simpl.
  - right. destruct wk as [|[|k] msg].
    + right. split; reflexivity.
    + left. split; [reflexivity|]. exists msg. split; reflexivity.
    + right. split; reflexivity.
  - left. split; reflexivity.
Qed.

(** Every change of the file system made by the loop is a
    [write_text] on the path of a document, with its rewritten text. *)
Lemma update_loop_ops (rmap : dict string) (notes : list note) :
  forall wk o,
    In o (u_ops (update_loop re_sub rmap wk notes)) ->
    exists n text,
      In n notes /\ o = OpWriteText (n_path n) text
      /\ rewrite_content re_sub rmap (n_text n) = Ok text /\ text <> n_text n.
Proof.
  induction notes as [|n rest IH]; intros wk o H.
  - destruct wk; simpl in H; contradiction.
  - destruct (update_loop_cases rmap wk n rest)
      as [[_ E] | [[_ (msg & _ & E)] | [_ E]]]; rewrite E in H; clear E.
    + destruct (IH _ _ H) as (m & t & Hm & Ho). exists m, t. split; [now right | exact Ho].
    + simpl in H. contradiction.
    + destruct (update_note re_sub rmap n) as [|text|e] eqn:E; simpl in H.
      * destruct (IH _ _ H) as (m & t & Hm & Ho).
        exists m, t. split; [now right | exact Ho].
      * destruct H as [Ho | Hin].
        -- exists n, text. split; [now left|]. split; [now symmetry|].
           now apply update_note_updated.
        -- destruct (IH _ _ Hin) as (m & t & Hm & Ho).
           exists m, t. split; [now right | exact Ho].
      * destruct (IH _ _ H) as (m & t & Hm & Ho).
        exists m, t. split; [now right | exact Ho].
Qed.


End WriteFacts.




(* ================================================================= *)
(** ** The order of the sort key *)

Module KeyOrder.

Lemma ascii_compare_lt (a b : ascii) :
  Ascii.compare a b = Lt <-> (N_of_ascii a < N_of_ascii b)%N.
Proof. unfold Ascii.compare. apply N.compare_lt_iff. Qed.

Lemma compare_refl (s : string) : String.compare s s = Eq.
Proof.
  induction s as [|c s IH]; simpl; [reflexivity|].
  unfold Ascii.compare. now rewrite N.compare_refl.
Qed.

Lemma compare_lt_trans (a b c : string) :
  String.compare a b = Lt -> String.compare b c = Lt -> String.compare a c = Lt.
Proof.
  revert b c. induction a as [|x a IH]; intros [|y b] [|z c]; simpl; try congruence.
  destruct (Ascii.compare x y) eqn:Exy; try discriminate;
    destruct (Ascii.compare y z) eqn:Eyz; try discriminate; intros H1 H2.
  - apply Ascii.compare_eq_iff in Exy, Eyz. subst.
    unfold Ascii.compare. rewrite N.compare_refl. now apply (IH b c).
  - apply Ascii.compare_eq_iff in Exy. subst. now rewrite Eyz.
  - apply Ascii.compare_eq_iff in Eyz. subst. now rewrite Exy.
  - assert (E : Ascii.compare x z = Lt).
    { apply ascii_compare_lt.
      apply N.lt_trans with (m := N_of_ascii y); now apply ascii_compare_lt. }
    now rewrite E.
Qed.

Lemma compare_gt_lt (a b : string) :
  String.compare a b = Gt -> String.compare b a = Lt.
Proof. intros H. rewrite String.compare_antisym, H. reflexivity. Qed.

Lemma key_ltb_spec (p q : Path) :
  key_ltb p q = true <-> name_lt (name p) (name q).
Proof.
  unfold key_ltb, name_lt, String.ltb.
  rewrite orb_true_iff, andb_true_iff, Nat.ltb_lt, Nat.eqb_eq.
  destruct (String.compare (name p) (name q)); intuition congruence.
Qed.

Lemma name_lt_irrefl (a : string) : ~ name_lt a a.
Proof. intros [H | [_ H]]; [lia | rewrite compare_refl in H; discriminate]. Qed.

Lemma name_lt_trans (a b c : string) : name_lt a b -> name_lt b c -> name_lt a c.
Proof.
  intros [H1 | [H1 C1]] [H2 | [H2 C2]]; [left; lia | left; lia | left; lia |].
  right. split; [lia | eapply compare_lt_trans; eassumption].
Qed.

(** The order is total on names: two names that are not ordered are equal. *)
Lemma name_lt_total (a b : string) : name_lt a b \/ a = b \/ name_lt b a.
Proof.
  destruct (Nat.lt_trichotomy (String.length a) (String.length b)) as [H | [H | H]].
  - left. now left.
  - destruct (String.compare a b) eqn:E.
    + right. left. now apply String.compare_eq_iff.
    + left. right. now split.
    + right. right. right. split; [now symmetry | now apply compare_gt_lt].
  - right. right. now left.
Qed.

Lemma key_ltb_irrefl (p : Path) : key_ltb p p = false.
Proof.
  destruct (key_ltb p p) eqn:E; [|reflexivity].
  apply key_ltb_spec in E. now apply name_lt_irrefl in E.
Qed.

Lemma key_ltb_asym (p q : Path) : key_ltb p q = true -> key_ltb q p = false.
Proof.
  intros H. destruct (key_ltb q p) eqn:E; [|reflexivity].
  apply key_ltb_spec in H, E.
  exfalso. exact (name_lt_irrefl _ (name_lt_trans _ _ _ H E)).
Qed.

Lemma key_ltb_false (p q : Path) :
  key_ltb p q = false <-> name q = name p \/ name_lt (name q) (name p).
Proof.
  split.
  - intros H. destruct (name_lt_total (name p) (name q)) as [L | [E | L]].
    + apply key_ltb_spec in L. congruence.
    + now left.
    + now right.
  - intros H. destruct (key_ltb p q) eqn:E; [|reflexivity].
    apply key_ltb_spec in E. destruct H as [H | H].
    + rewrite H in E. now apply name_lt_irrefl in E.
    + exfalso. exact (name_lt_irrefl _ (name_lt_trans _ _ _ E H)).
Qed.

(** [<=] is transitive. *)
Lemma key_leb_trans (x y z : Path) :
  key_ltb y x = false -> key_ltb z y = false -> key_ltb z x = false.
Proof.
  rewrite !key_ltb_false. intros [H1 | H1] [H2 | H2].
  - left. congruence.
  - right. now rewrite H1.
  - right. now rewrite <- H2.
  - right. eapply name_lt_trans; eassumption.
Qed.

Lemma key_leb_antisym (p q : Path) :
  key_ltb p q = false -> key_ltb q p = false -> name p = name q.
Proof.
  rewrite !key_ltb_false. intros [H1 | H1] [H2 | H2]; try congruence.
  exfalso. exact (name_lt_irrefl _ (name_lt_trans _ _ _ H1 H2)).
Qed.

Lemma key_ltb_names (p p' q q' : Path) :
  name p = name p' -> name q = name q' -> key_ltb p q = key_ltb p' q'.
Proof. unfold key_ltb. now intros -> ->. Qed.

End KeyOrder.

(* ================================================================= *)
(** ** [sorted] and the canonical member *)

Module SortFacts.

Import KeyOrder.

Lemma insert_perm (x : Path) (l : list Path) :
  Permutation (insert_by_key x l) (x :: l).
Proof.
  induction l as [|y l IH]; simpl; [reflexivity|].
  destruct (key_ltb y x); [|reflexivity].
  rewrite IH. apply perm_swap.
Qed.

Lemma sorted_perm (l : list Path) : Permutation (sorted_by_key l) l.
Proof.
  induction l as [|x l IH]; simpl; [reflexivity|].
  rewrite insert_perm. now constructor.
Qed.

Lemma insert_head_least (x : Path) (l : list Path) :
  head_least l -> head_least (insert_by_key x l).
Proof.
  destruct l as [|y l]; simpl; [intros _ p []|].
  intros H. destruct (key_ltb y x) eqn:E; simpl.
  - intros p Hp. apply (Permutation_in _ (insert_perm x l)) in Hp.
    destruct Hp as [<- | Hp]; [now apply key_ltb_asym | now apply H].
  - intros p [<- | Hp]; [exact E|].
    apply key_leb_trans with (y := y); [exact E | now apply H].
Qed.

Lemma sorted_head_least (l : list Path) : head_least (sorted_by_key l).
Proof.
  induction l as [|x l IH]; simpl; [exact I | now apply insert_head_least].
Qed.

Lemma canonical_in (group : list Path) (c : Path) :
  canonical_of group = Some c -> In c group.
Proof.
  unfold canonical_of. intros H.
  apply (Permutation_in _ (sorted_perm group)).
  destruct (sorted_by_key group); inversion H; subst. now left.
Qed.

Lemma canonical_least (group : list Path) (c p : Path) :
  canonical_of group = Some c -> In p group -> key_ltb p c = false.
Proof.
  unfold canonical_of. intros H Hp.
  pose proof (sorted_head_least group) as L.
  apply (Permutation_in _ (Permutation_sym (sorted_perm group))) in Hp.
  destruct (sorted_by_key group) as [|c' rest]; inversion H; subst.
  destruct Hp as [<- | Hp]; [apply key_ltb_irrefl | now apply L].
Qed.

Lemma canonical_exists (group : list Path) (p : Path) :
  In p group -> exists c, canonical_of group = Some c.
Proof.
  intros Hp. unfold canonical_of.
  apply (Permutation_in _ (Permutation_sym (sorted_perm group))) in Hp.
  destruct (sorted_by_key group) as [|c rest]; [contradiction|].
  now exists c.
Qed.

(** The canonical name is a function of the set of names. *)
Lemma canonical_name_unique (g g' : list Path) (c c' : Path) :
  (forall n, In n (map name g) <-> In n (map name g')) ->
  canonical_of g = Some c -> canonical_of g' = Some c' -> name c' = name c.
Proof.
  intros Hset Hc Hc'.
  assert (H1 : In (name c') (map name g)).
  { apply Hset, in_map, canonical_in, Hc'. }
  assert (H2 : In (name c) (map name g')).
  { apply Hset, in_map, canonical_in, Hc. }
  apply in_map_iff in H1, H2.
  destruct H1 as (p & Ep & Hp). destruct H2 as (q & Eq & Hq).
  pose proof (canonical_least g c p Hc Hp) as L1.
  pose proof (canonical_least g' c' q Hc' Hq) as L2.
  rewrite (key_ltb_names p c' c c Ep eq_refl) in L1.
  rewrite (key_ltb_names q c c' c' Eq eq_refl) in L2.
  now apply key_leb_antisym.
Qed.

End SortFacts.

(** C3.  The canonical member of a group is the head of the group
    sorted by [(len(name), name)]: a member of the group whose key is
    below or equal to the key of every member, and the one that
    [_build_replacement_map] maps the other names to.  Its name depends
    only on the set of the members' names; in particular every
    permutation of the group has a canonical member of the same name. *)
Theorem canonical_selection_deterministic (group : list Path) (c : Path) :
  canonical_of group = Some c ->
  In c group
  /\ (forall p, In p group ->
        String.length (name c) < String.length (name p)
        \/ (String.length (name c) = String.length (name p)
            /\ String.leb (name c) (name p) = true))
  /\ (forall m, exists duplicates,
        sorted_by_key group = c :: duplicates
        /\ map_group m group
           = Ok (fold_left (fun m d => dict_set m (name d) (name c)) duplicates m))
  /\ (forall group',
        Permutation group group' ->
        option_map name (canonical_of group') = Some (name c))
  /\ (forall group',
        (forall n, In n (map name group) <-> In n (map name group')) ->
        option_map name (canonical_of group') = Some (name c)).
Proof.
  intros Hc.
  assert (Hset : forall group',
             (forall n, In n (map name group) <-> In n (map name group')) ->
             option_map name (canonical_of group') = Some (name c)).
  { intros g' Hn.
    assert (Hin : In (name c) (map name g')).
    { apply Hn, in_map. now apply SortFacts.canonical_in. }
    apply in_map_iff in Hin. destruct Hin as (q & _ & Hq).
    destruct (SortFacts.canonical_exists g' q Hq) as (c' & Hc').
    rewrite Hc'. simpl. f_equal.
    now apply (SortFacts.canonical_name_unique group g' c c'). }
  split; [now apply SortFacts.canonical_in|].
  split; [|split; [|split]].
  - intros p Hp.
    pose proof (SortFacts.canonical_least group c p Hc Hp) as L.
    apply KeyOrder.key_ltb_false in L. destruct L as [E | [L | [L1 L2]]].
    + right. split; [now rewrite E|].
      unfold String.leb. now rewrite E, KeyOrder.compare_refl.
    + now left.
    + right. split; [exact L1|]. unfold String.leb. now rewrite L2.
  - intros m. unfold canonical_of in Hc. unfold map_group.
    destruct (sorted_by_key group) as [|c0 dups]; inversion Hc; subst.
    now exists dups.
  - intros g' HP. apply Hset. intros n.
    split; apply Permutation_in; [|symmetry]; now apply Permutation_map.
  - exact Hset.
Qed.

(** The two photos of scenario A, in both orders. *)
Lemma canonical_selection_deterministic_witness :
  option_map name
    (canonical_of [a_path Examples.photo_a; a_path Examples.photo_b])
  = Some "photo_a.png"%string.
Proof.
  refine (proj1 (proj2 (proj2 (proj2
            (canonical_selection_deterministic
               [a_path Examples.photo_b; a_path Examples.photo_a]
               (a_path Examples.photo_a) _))))
            [a_path Examples.photo_a; a_path Examples.photo_b] _).
  - reflexivity.
  - apply perm_swap.
Defined.

(* ================================================================= *)
(** ** Dictionaries and the replacement mapping *)

Module DictFacts.

Lemma get_set_same {V : Type} (d : dict V) (k : string) (v : V) :
  dict_get (dict_set d k v) k = Some v.
Proof.
  induction d as [|[k' v'] d IH]; simpl.
  - now rewrite String.eqb_refl.
  - destruct (String.eqb k' k) eqn:E; simpl; rewrite E; [reflexivity | exact IH].
Qed.

Lemma get_set_other {V : Type} (d : dict V) (k k' : string) (v : V) :
  k <> k' -> dict_get (dict_set d k v) k' = dict_get d k'.
Proof.
  intros Hne. induction d as [|[k0 v0] d IH]; simpl.
  - destruct (String.eqb k k') eqn:E; [|reflexivity].
    apply String.eqb_eq in E. contradiction.
  - destruct (String.eqb k0 k) eqn:E; simpl.
    + apply String.eqb_eq in E. subst k0.
      destruct (String.eqb k k') eqn:E'; [|reflexivity].
      apply String.eqb_eq in E'. contradiction.
    + destruct (String.eqb k0 k'); [reflexivity | exact IH].
Qed.

Lemma mem_true {V : Type} (d : dict V) (k : string) :
  dict_mem d k = true <-> exists v, dict_get d k = Some v.
Proof.
  unfold dict_mem. destruct (dict_get d k) as [v|].
  - split; [intros _; now exists v | reflexivity].
  - split; [discriminate | intros (v & H); discriminate].
Qed.

Lemma add_names_in (cn : string) (dups : list Path) :
  forall m k, In k (map name dups) -> dict_get (add_names cn dups m) k = Some cn.
Proof.
  unfold add_names.
  induction dups as [|d dups IH] using rev_ind; intros m k Hk; [contradiction|].
  rewrite fold_left_app. simpl.
  destruct (string_dec (name d) k) as [E | Hne].
  - subst k. apply get_set_same.
  - rewrite get_set_other by exact Hne. apply IH.
    rewrite map_app in Hk. apply in_app_or in Hk.
    destruct Hk as [Hk | [Hk | []]]; [exact Hk | contradiction].
Qed.

Lemma add_names_out (cn : string) (dups : list Path) :
  forall m k, ~ In k (map name dups) -> dict_get (add_names cn dups m) k = dict_get m k.
Proof.
  unfold add_names.
  induction dups as [|d dups IH]; intros m k Hk; [reflexivity|].
  simpl. rewrite IH by (intros H; apply Hk; now right).
  apply get_set_other. intros E. apply Hk. now left.
Qed.

Lemma map_group_ok (m : dict string) (g : list Path) (m' : dict string) :
  map_group m g = Ok m' ->
  exists c dups, sorted_by_key g = c :: dups /\ m' = add_names (name c) dups m.
Proof.
  unfold map_group. destruct (sorted_by_key g) as [|c dups]; [discriminate|].
  intros H. inversion H. now exists c, dups.
Qed.

(** Where an entry of the final mapping comes from. *)
Lemma build_from_get (groups : list (list Path)) :
  forall m m' k v,
    build_from groups m = Ok m' ->
    dict_get m' k = Some v ->
    dict_get m k = Some v
    \/ exists g c dups,
        In g groups /\ sorted_by_key g = c :: dups
        /\ In k (map name dups) /\ v = name c.
Proof.
  induction groups as [|g groups IH]; intros m m' k v Hb Hg; simpl in Hb.
  - inversion Hb. subst. now left.
  - destruct (map_group m g) as [m1|] eqn:E; [|discriminate].
    destruct (map_group_ok m g m1 E) as (c & dups & Hs & ->).
    destruct (IH _ _ _ _ Hb Hg) as [H1 | (g' & c' & dups' & Hin & H')].
    + destruct (in_dec string_dec k (map name dups)) as [Hk | Hk].
      * right. exists g, c, dups. rewrite add_names_in in H1 by exact Hk.
        inversion H1. repeat split; [now left | exact Hs | exact Hk].
      * left. now rewrite add_names_out in H1.
    + right. exists g', c', dups'. split; [now right | exact H'].
Qed.

Lemma build_from_keeps (groups : list (list Path)) :
  forall m m' k,
    build_from groups m = Ok m' -> dict_mem m k = true -> dict_mem m' k = true.
Proof.
  induction groups as [|g groups IH]; intros m m' k Hb Hk; simpl in Hb.
  - inversion Hb. now subst.
  - destruct (map_group m g) as [m1|] eqn:E; [|discriminate].
    destruct (map_group_ok m g m1 E) as (c & dups & Hs & ->).
    apply (IH _ _ _ Hb). apply mem_true.
    destruct (in_dec string_dec k (map name dups)) as [Hin | Hout].
    + exists (name c). now apply add_names_in.
    + rewrite add_names_out by exact Hout. now apply mem_true.
Qed.

(** Every member of a group but the canonical one becomes a key. *)
Lemma build_from_mem (groups : list (list Path)) :
  forall m m' g c dups d,
    build_from groups m = Ok m' ->
    In g groups -> sorted_by_key g = c :: dups -> In d dups ->
    dict_mem m' (name d) = true.
Proof.
  induction groups as [|g0 groups IH]; intros m m' g c dups d Hb Hg Hs Hd; simpl in Hb.
  - contradiction.
  - destruct (map_group m g0) as [m1|] eqn:E; [|discriminate].
    destruct Hg as [-> | Hg].
    + destruct (map_group_ok m g m1 E) as (c1 & dups1 & Hs1 & ->).
      rewrite Hs in Hs1. inversion Hs1; subst c1 dups1.
      apply (build_from_keeps groups _ _ _ Hb). apply mem_true.
      exists (name c). apply add_names_in. now apply in_map.
    + now apply (IH m1 m' g c dups d).
Qed.

(** The mapping is built whenever no group is empty. *)
Lemma build_from_total (groups : list (list Path)) :
  (forall g, In g groups -> g <> []) ->
  forall m, exists m', build_from groups m = Ok m'.
Proof.
  induction groups as [|g groups IH]; intros Hne m; simpl.
  - now exists m.
  - unfold map_group.
    destruct (sorted_by_key g) as [|c dups] eqn:E.
    + exfalso. apply (Hne g); [now left|].
      apply Permutation_nil. rewrite <- E. apply SortFacts.sorted_perm.
    + apply IH. intros g' Hg'. apply Hne. now right.
Qed.

End DictFacts.

(* ================================================================= *)
(** ** The Garbage Collector *)

Module RemoveFacts.

Lemma unlink_in (p : Path) (st : list asset) (a : asset) :
  In a (unlink p st) <-> In a st /\ a_path a <> p.
Proof.
  unfold unlink. rewrite filter_In. unfold Path_eqb.
  destruct (Path_eq_dec (a_path a) p); simpl; intuition congruence.
Qed.

(** The loop only takes entries away. *)
Lemma remove_loop_incl (paths : list Path) :
  forall st a, In a (r_store (remove_loop paths st)) -> In a st.
Proof.
  induction paths as [|p paths IH]; intros st a H; simpl in H; [exact H|].
  destruct (find_asset p st) as [b|]; [|now apply IH].
  destruct (a_unlink_error b); simpl in H; [now apply IH|].
  apply IH in H. now apply unlink_in in H.
Qed.

(** An entry whose path is not to be removed stays. *)
Lemma remove_loop_keeps (paths : list Path) :
  forall st a, In a st -> ~ In (a_path a) paths -> In a (r_store (remove_loop paths st)).
Proof.
  induction paths as [|p paths IH]; intros st a Ha Hp; simpl; [exact Ha|].
  assert (Hp' : ~ In (a_path a) paths) by (intros H; apply Hp; now right).
  assert (Hne : a_path a <> p) by (intros H; apply Hp; now left).
  destruct (find_asset p st) as [b|]; [|now apply IH].
  destruct (a_unlink_error b); simpl; [now apply IH|].
  apply IH; [|exact Hp']. now apply unlink_in.
Qed.

Lemma files_to_remove_in (groups : list (list Path)) (rmap : dict string) (p : Path) :
  In p (files_to_remove groups rmap)
  <-> (exists g, In g groups /\ In p g) /\ dict_mem rmap (name p) = true.
Proof.
  unfold files_to_remove. rewrite filter_In, in_concat. reflexivity.
Qed.

End RemoveFacts.

(* ================================================================= *)
(** ** Groups with pairwise distinct names *)

Module GroupFacts.

Lemma NoDup_app_disjoint {A : Type} (l1 l2 : list A) (a : A) :
  NoDup (l1 ++ l2) -> In a l1 -> In a l2 -> False.
Proof.
  induction l1 as [|x l1 IH]; simpl; intros H H1 H2; [contradiction|].
  inversion H as [|? ? Hx Hrest]; subst.
  destruct H1 as [-> | H1].
  - apply Hx. apply in_or_app. now right.
  - now apply IH.
Qed.

Lemma NoDup_map_inj {A B : Type} (f : A -> B) (l : list A) (x y : A) :
  NoDup (map f l) -> In x l -> In y l -> f x = f y -> x = y.
Proof.
  induction l as [|z l IH]; simpl; intros H Hx Hy E; [contradiction|].
  inversion H as [|? ? Hz Hrest]; subst.
  destruct Hx as [-> | Hx], Hy as [-> | Hy].
  - reflexivity.
  - exfalso. apply Hz. rewrite E. now apply in_map.
  - exfalso. apply Hz. rewrite <- E. now apply in_map.
  - now apply IH.
Qed.

(** With distinct members overall, a member belongs to one group. *)
Lemma same_group (groups : list (list Path)) (g g' : list Path) (c : Path) :
  NoDup (concat groups) -> In g groups -> In g' groups -> In c g -> In c g' -> g = g'.
Proof.
  induction groups as [|g0 groups IH]; simpl; intros H Hg Hg' Hc Hc'; [contradiction|].
  assert (Hrest : NoDup (concat groups)) by (now apply NoDup_app_remove_l in H).
  destruct Hg as [-> | Hg], Hg' as [-> | Hg'].
  - reflexivity.
  - exfalso. apply (NoDup_app_disjoint _ _ c H Hc).
    apply in_concat. now exists g'.
  - exfalso. apply (NoDup_app_disjoint _ _ c H Hc').
    apply in_concat. now exists g.
  - now apply IH.
Qed.

Lemma NoDup_group (groups : list (list Path)) (g : list Path) :
  NoDup (concat groups) -> In g groups -> NoDup g.
Proof.
  induction groups as [|g0 groups IH]; simpl; intros H Hg; [contradiction|].
  destruct Hg as [-> | Hg].
  - now apply NoDup_app_remove_r in H.
  - apply IH; [|exact Hg]. now apply NoDup_app_remove_l in H.
Qed.

(** With distinct names overall, the canonical name of a group is not
    the name of a non-canonical member of any group. *)
Lemma canonical_not_duplicate (groups : list (list Path))
  (g g' : list Path) (c c' : Path) (dups dups' : list Path) :
  NoDup (map name (concat groups)) ->
  In g groups -> sorted_by_key g = c :: dups ->
  In g' groups -> sorted_by_key g' = c' :: dups' ->
  ~ In (name c) (map name dups').
Proof.
  intros Hnd Hg Hs Hg' Hs' Hin.
  apply in_map_iff in Hin. destruct Hin as (d & Ed & Hd).
  assert (Hcg : In c g).
  { apply (Permutation_in _ (SortFacts.sorted_perm g)). rewrite Hs. now left. }
  assert (Hdg : In d g').
  { apply (Permutation_in _ (SortFacts.sorted_perm g')). rewrite Hs'. now right. }
  assert (Edc : d = c).
  { apply (NoDup_map_inj name (concat groups)); try assumption;
      apply in_concat; eauto. }
  subst d.
  assert (Hnd' : NoDup (concat groups)) by (now apply NoDup_map_inv in Hnd).
  assert (Egg : g = g') by (now apply (same_group groups g g' c)).
  subst g'. rewrite Hs in Hs'. inversion Hs'; subst c' dups'.
  assert (Hs2 : NoDup (c :: dups)).
  { rewrite <- Hs. apply (Permutation_NoDup (Permutation_sym (SortFacts.sorted_perm g))).
    now apply (NoDup_group groups). }
  inversion Hs2. contradiction.
Qed.

End GroupFacts.

(** C9, as the code has it.  The mapping is keyed by file name alone.
    When the names of the members of the duplicate groups are pairwise
    distinct (a flat store), the mapping has no chains, the name of the
    canonical member of a group is not a key, and the canonical file is
    neither among the files to remove nor missing from the store that
    the Garbage Collector leaves; whatever the names, the Garbage
    Collector takes away only files whose names are keys. *)
Theorem canonical_files_survive (groups : list (list Path)) (m : dict string) :
  NoDup (map name (concat groups)) ->
  _build_replacement_map groups = Ok m ->
  no_chains m
  /\ (forall g c,
        In g groups -> canonical_of g = Some c ->
        dict_mem m (name c) = false
        /\ ~ In c (files_to_remove groups m)
        /\ (forall st a,
               In a st -> a_path a = c ->
               In a (r_store (_remove_duplicates groups m st))))
  /\ (forall st a,
        In a st -> ~ In a (r_store (_remove_duplicates groups m st)) ->
        dict_mem m (name (a_path a)) = true).
Proof.
  intros Hnd Hb. unfold _build_replacement_map in Hb.
  assert (K : forall g c, In g groups -> canonical_of g = Some c ->
                          dict_mem m (name c) = false).
  { intros g c Hg Hc.
    destruct (dict_mem m (name c)) eqn:E; [|reflexivity]. exfalso.
    apply DictFacts.mem_true in E. destruct E as (v & Hv).
    destruct (DictFacts.build_from_get groups [] m (name c) v Hb Hv)
      as [H | (g' & c' & dups' & Hg' & Hs' & Hin & _)]; [discriminate|].
    unfold canonical_of in Hc.
    destruct (sorted_by_key g) as [|c0 dups] eqn:Hs; inversion Hc; subst c0.
    exact (GroupFacts.canonical_not_duplicate groups g g' c c' dups dups'
             Hnd Hg Hs Hg' Hs' Hin). }
  assert (R : forall g c, In g groups -> canonical_of g = Some c ->
                          ~ In c (files_to_remove groups m)).
  { intros g c Hg Hc Hin. apply RemoveFacts.files_to_remove_in in Hin.
    destruct Hin as [_ Hin]. rewrite (K g c Hg Hc) in Hin. discriminate. }
  split; [|split].
  - intros k v Hv.
    destruct (DictFacts.build_from_get groups [] m k v Hb Hv)
      as [H | (g & c & dups & Hg & Hs & _ & ->)]; [discriminate|].
    apply (K g c Hg). unfold canonical_of. now rewrite Hs.
  - intros g c Hg Hc. split; [now apply (K g)|]. split; [now apply (R g)|].
    intros st a Ha Hp. apply RemoveFacts.remove_loop_keeps; [exact Ha|].
    rewrite Hp. now apply (R g).
  - intros st a Ha Hgone.
    destruct (in_dec Path_eq_dec (a_path a) (files_to_remove groups m)) as [Hin | Hout].
    + now apply RemoveFacts.files_to_remove_in in Hin.
    + exfalso. apply Hgone. now apply RemoveFacts.remove_loop_keeps.
Qed.

(** The group of scenario A: its names are distinct. *)
Lemma canonical_files_survive_witness :
  no_chains [("photo_b.png", "photo_a.png")]%string.
Proof.
  refine (proj1 (canonical_files_survive
                   [[a_path Examples.photo_b; a_path Examples.photo_a]]
                   [("photo_b.png", "photo_a.png")]%string _ _)).
  - simpl. constructor; [|constructor; [|constructor]].
    + intros [H | []]. discriminate.
    + intros [].
  - reflexivity.
Defined.

(** C9 as stated fails: two copies of an image stored as [a/x.png] and
    [b/x.png] form one group; its canonical member is [a/x.png], the
    mapping is [x.png -> x.png], whose value is a key, and the pass
    removes both files, the canonical one included. *)
Lemma same_name_canonical_deleted :
  let a := mkPath ["a"%string] "x.png" in
  let b := mkPath ["b"%string] "x.png" in
  _build_replacement_map [[a; b]] = Ok [("x.png", "x.png")]%string
  /\ canonical_of [a; b] = Some a
  /\ dict_mem [("x.png", "x.png")]%string (name a) = true
  /\ ~ no_chains [("x.png", "x.png")]%string
  /\ store Examples.same_name
     = [Examples.image ["a"%string] "x.png" Examples.pixels;
        Examples.image ["b"%string] "x.png" Examples.pixels]
  /\ store (snd (deduplicate_directory re_sub_fragment Examples.same_name)) = [].
Proof.
  repeat split; try (vm_compute; reflexivity).
  intros H. specialize (H "x.png"%string "x.png"%string eq_refl). discriminate.
Qed.

(* ================================================================= *)
(** ** The Content Indexer *)

Module IndexFacts.

Lemma hm_append_paths (hm : dict (list Path)) (h : string) (p : Path) (k : string) :
  hm_paths (hm_append hm h p) k
  = if String.eqb h k then hm_paths hm k ++ [p] else hm_paths hm k.
Proof.
  unfold hm_paths. induction hm as [|[k0 ps0] hm IH]; simpl.
  - destruct (String.eqb h k); reflexivity.
  - destruct (String.eqb k0 h) eqn:E0; simpl.
    + apply String.eqb_eq in E0. subst k0.
      destruct (String.eqb h k); reflexivity.
    + destruct (String.eqb k0 k) eqn:E1; [|exact IH].
      destruct (String.eqb h k) eqn:E2; [|reflexivity].
      apply String.eqb_eq in E1, E2. subst. rewrite String.eqb_refl in E0. discriminate.
Qed.

Lemma hm_append_keys (hm : dict (list Path)) (h : string) (p : Path) (k : string) :
  In k (map fst (hm_append hm h p)) <-> k = h \/ In k (map fst hm).
Proof.
  induction hm as [|[k0 ps0] hm IH]; simpl.
  - intuition.
  - destruct (String.eqb k0 h) eqn:E0; simpl.
    + apply String.eqb_eq in E0. subst k0. intuition.
    + rewrite IH. intuition.
Qed.

Lemma hm_append_nodup (hm : dict (list Path)) (h : string) (p : Path) :
  NoDup (map fst hm) -> NoDup (map fst (hm_append hm h p)).
Proof.
  induction hm as [|[k0 ps0] hm IH]; simpl; intros H.
  - constructor; [intros [] | constructor].
  - inversion H as [|? ? Hk Hrest]; subst.
    destruct (String.eqb k0 h) eqn:E0; simpl.
    + now constructor.
    + constructor; [|now apply IH].
      rewrite hm_append_keys. intros [-> | Hin]; [|contradiction].
      rewrite String.eqb_refl in E0. discriminate.
Qed.

Lemma hm_append_nonempty (hm : dict (list Path)) (h : string) (p : Path) :
  Forall (fun e => snd e <> []) hm -> Forall (fun e => snd e <> []) (hm_append hm h p).
Proof.
  induction hm as [|[k0 ps0] hm IH]; simpl; intros H.
  - constructor; [discriminate | constructor].
  - inversion H; subst. destruct (String.eqb k0 h); constructor; simpl; auto.
    now destruct ps0.
Qed.


Lemma dict_get_in {V : Type} (d : dict V) (k : string) (v : V) :
  dict_get d k = Some v -> In (k, v) d.
Proof.
  induction d as [|[k0 v0] d IH]; simpl; [discriminate|].
  destruct (String.eqb k0 k) eqn:E.
  - apply String.eqb_eq in E. intros H. inversion H. subst. now left.
  - intros H. right. now apply IH.
Qed.

Lemma in_dict_get {V : Type} (d : dict V) (k : string) (v : V) :
  NoDup (map fst d) -> In (k, v) d -> dict_get d k = Some v.
Proof.
  induction d as [|[k0 v0] d IH]; simpl; intros H Hin; [contradiction|].
  inversion H as [|? ? Hk Hrest]; subst.
  destruct Hin as [E | Hin].
  - inversion E; subst. now rewrite String.eqb_refl.
  - destruct (String.eqb k0 k) eqn:E; [|now apply IH].
    apply String.eqb_eq in E. subst k0. exfalso. apply Hk.
    change k with (fst (k, v)). now apply in_map.
Qed.

(** The three ways through the body of the loop. *)
Lemma asset_cases (a : asset) :
  hashable a = true
  \/ (is_image a = false /\ hashable a = false)
  \/ (is_image a = true /\ hashable a = false /\ exists e, a_read_error a = Some e).
Proof.
  unfold hashable. destruct (is_image a); cbn [andb].
  - destruct (a_read_error a) as [e|].
    + right. right. repeat split. now exists e.
    + now left.
  - right. left. now split.
Qed.

Lemma hash_loop_hashed (a : asset) (files : list asset)
  (hm : dict (list Path)) (lg : list log_event) :
  hashable a = true ->
  hash_loop (a :: files) hm lg
  = hash_loop files (hm_append hm (MD5.hexdigest (a_bytes a)) (a_path a)) lg.
Proof.
  unfold hashable. intros H. apply andb_true_iff in H. destruct H as [Hi Hr].
  cbn [hash_loop]. rewrite Hi. cbn [negb]. unfold _hash_file.
  destruct (a_read_error a); [discriminate | reflexivity].
Qed.

Lemma hash_loop_skipped (a : asset) (files : list asset)
  (hm : dict (list Path)) (lg : list log_event) :
  is_image a = false -> hash_loop (a :: files) hm lg = hash_loop files hm lg.
Proof. intros H. cbn [hash_loop]. now rewrite H. Qed.

Lemma hash_loop_failed (a : asset) (files : list asset)
  (hm : dict (list Path)) (lg : list log_event) (e : string) :
  is_image a = true -> a_read_error a = Some e ->
  hash_loop (a :: files) hm lg
  = hash_loop files hm (lg ++ [LogHashFailed (a_path a) e]).
Proof.
  intros Hi He. cbn [hash_loop]. rewrite Hi. cbn [negb]. unfold _hash_file.
  now rewrite He.
Qed.

Lemma paths_of_cons (k : string) (a : asset) (files : list asset) :
  paths_of k (a :: files)
  = if hashes_to k a then a_path a :: paths_of k files else paths_of k files.
Proof. unfold paths_of. cbn [filter]. now destruct (hashes_to k a). Qed.

Lemma hashes_to_unhashable (k : string) (a : asset) :
  hashable a = false -> hashes_to k a = false.
Proof. unfold hashes_to. now intros ->. Qed.

Lemma hashes_to_hashable (k : string) (a : asset) :
  hashable a = true -> hashes_to k a = String.eqb (MD5.hexdigest (a_bytes a)) k.
Proof. unfold hashes_to. now intros ->. Qed.

(** The loop adds, under each hash, the paths of the files it indexes,
    in the order of the walk. *)
Lemma hash_loop_paths (files : list asset) :
  forall hm lg k,
    hm_paths (fst (hash_loop files hm lg)) k = hm_paths hm k ++ paths_of k files.
Proof.
  induction files as [|a files IH]; intros hm lg k.
  - cbn [hash_loop fst]. unfold paths_of. cbn [filter map]. now rewrite app_nil_r.
  - rewrite paths_of_cons.
    destruct (asset_cases a) as [H | [[Hi H] | (Hi & H & e & He)]].
    + rewrite (hash_loop_hashed a files hm lg H), IH, hm_append_paths.
      rewrite (hashes_to_hashable k a H).
      destruct (String.eqb (MD5.hexdigest (a_bytes a)) k).
      * rewrite <- app_assoc. reflexivity.
      * reflexivity.
    + rewrite (hash_loop_skipped a files hm lg Hi), IH.
      now rewrite (hashes_to_unhashable k a H).
    + rewrite (hash_loop_failed a files hm lg e Hi He), IH.
      now rewrite (hashes_to_unhashable k a H).
Qed.

Lemma hash_loop_nodup (files : list asset) :
  forall hm lg, NoDup (map fst hm) -> NoDup (map fst (fst (hash_loop files hm lg))).
Proof.
  induction files as [|a files IH]; intros hm lg Hn; [exact Hn|].
  destruct (asset_cases a) as [H | [[Hi H] | (Hi & H & e & He)]].
  - rewrite (hash_loop_hashed a files hm lg H). apply IH. now apply hm_append_nodup.
  - rewrite (hash_loop_skipped a files hm lg Hi). now apply IH.
  - rewrite (hash_loop_failed a files hm lg e Hi He). now apply IH.
Qed.

Lemma hash_loop_nonempty (files : list asset) :
  forall hm lg,
    Forall (fun e => snd e <> []) hm ->
    Forall (fun e => snd e <> []) (fst (hash_loop files hm lg)).
Proof.
  induction files as [|a files IH]; intros hm lg Hn; [exact Hn|].
  destruct (asset_cases a) as [H | [[Hi H] | (Hi & H & e & He)]].
  - rewrite (hash_loop_hashed a files hm lg H). apply IH. now apply hm_append_nonempty.
  - rewrite (hash_loop_skipped a files hm lg Hi). now apply IH.
  - rewrite (hash_loop_failed a files hm lg e Hi He). now apply IH.
Qed.




(** The entries of the store_index of a store. *)
Lemma index_entry (st : list asset) (ps : list Path) :
  In ps (map snd (store_index st)) ->
  exists k, ps = paths_of k st /\ ps <> [] /\ dict_get (store_index st) k = Some ps.
Proof.
  intros H. apply in_map_iff in H. destruct H as ([k ps'] & E & Hin).
  simpl in E. subst ps'. exists k.
  assert (G : dict_get (store_index st) k = Some ps).
  { apply in_dict_get; [|exact Hin]. apply hash_loop_nodup. constructor. }
  split; [|split; [|exact G]].
  - pose proof (hash_loop_paths st [] [] k) as P.
    unfold hm_paths in P. fold (store_index st) in P. rewrite G in P. exact P.
  - pose proof (hash_loop_nonempty st [] [] (Forall_nil _)) as N.
    rewrite Forall_forall in N. exact (N (k, ps) Hin).
Qed.

Lemma index_has (st : list asset) (k : string) :
  paths_of k st <> [] -> In (paths_of k st) (map snd (store_index st)).
Proof.
  intros H. pose proof (hash_loop_paths st [] [] k) as P.
  unfold hm_paths in P. fold (store_index st) in P. simpl in P.
  destruct (dict_get (store_index st) k) as [ps|] eqn:G; [|congruence].
  subst ps. apply dict_get_in in G.
  change (paths_of k st) with (snd (k, paths_of k st)). now apply in_map.
Qed.

Lemma hash_all_files_ok (w : World) (hm : dict (list Path)) (lg : list log_event) :
  _hash_all_files w = (Ok hm, lg) ->
  store_walk w = WalkOk /\ hm = store_index (store w) /\ lg = snd (hash_loop (store w) [] []).
Proof.
  unfold _hash_all_files, store_index.
  destruct (store_walk w); simpl.
  - destruct (hash_loop (store w) [] []) as [hm' lg']. intros H. inversion H. auto.
  - destruct (hash_loop (firstn after (store w)) [] []). discriminate.
Qed.

Lemma hash_all_files_walk_ok (w : World) :
  store_walk w = WalkOk ->
  _hash_all_files w = (Ok (store_index (store w)), snd (hash_loop (store w) [] [])).
Proof.
  unfold _hash_all_files, store_index. intros ->. simpl.
  now destruct (hash_loop (store w) [] []).
Qed.

Lemma hash_all_files_walk_fails (w : World) (n : nat) (msg : string) :
  store_walk w = WalkFails n msg ->
  exists lg, _hash_all_files w = (Raise msg, lg).
Proof.
  unfold _hash_all_files. intros ->. simpl.
  destruct (hash_loop (firstn n (store w)) [] []) as [hm lg]. now exists lg.
Qed.

Lemma group_in_index (hm : dict (list Path)) (g : list Path) :
  In g (_find_duplicates hm) <-> In g (map snd hm) /\ 1 < List.length g.
Proof.
  unfold _find_duplicates. rewrite filter_In, Nat.ltb_lt. reflexivity.
Qed.

Lemma group_nonempty (hm : dict (list Path)) (g : list Path) :
  In g (_find_duplicates hm) -> g <> [].
Proof.
  intros H. apply group_in_index in H. destruct H as [_ H].
  intros ->. simpl in H. lia.
Qed.

(** A path of the store_index is the path of a file that was hashed. *)
Lemma paths_of_in (k : string) (st : list asset) (p : Path) :
  In p (paths_of k st) ->
  exists a, In a st /\ a_path a = p /\ hashable a = true
            /\ MD5.hexdigest (a_bytes a) = k.
Proof.
  unfold paths_of. intros H. apply in_map_iff in H. destruct H as (a & E & Hin).
  apply filter_In in Hin. destruct Hin as [Hin Hh].
  unfold hashes_to in Hh. apply andb_true_iff in Hh. destruct Hh as [Hh Hk].
  exists a. repeat split; try assumption. now apply String.eqb_eq.
Qed.

End IndexFacts.

(* ================================================================= *)
(** ** The ways through [deduplicate_directory] *)

Section RunFacts.

Variable re_sub : string -> string -> string -> py_result string.

(** The mapping is always built from the groups of an index. *)
Lemma replacement_map_built (hm : dict (list Path)) :
  exists rmap, _build_replacement_map (_find_duplicates hm) = Ok rmap.
Proof.
  apply DictFacts.build_from_total. intros g. apply IndexFacts.group_nonempty.
Qed.

(** A run ends in one of four ways: the store walk raises; no group
    is found; the corpus walk raises in the rewriter; the pass
    completes. *)
Lemma run_cases (w : World) :
  let hm := store_index (store w) in
  let groups := _find_duplicates hm in
  let lg := snd (hash_loop (store w) [] []) in
  (exists n msg lg',
      store_walk w = WalkFails n msg
      /\ deduplicate_directory re_sub w
         = (report 0 0 0 0 0 [msg],
            {| store := store w; store_walk := store_walk w;
               corpus := corpus w; corpus_walk := corpus_walk w;
               log := log w ++ [LogScanning] ++ lg' ++ [LogDedupFailed msg];
               ops := ops w |}))
  \/ (store_walk w = WalkOk /\ groups = []
      /\ deduplicate_directory re_sub w
         = (report (count_files hm) 0 0 0 0 [],
            {| store := store w; store_walk := store_walk w;
               corpus := corpus w; corpus_walk := corpus_walk w;
               log := log w ++ [LogScanning] ++ lg ++ [LogNoDuplicates];
               ops := ops w |}))
  \/ (store_walk w = WalkOk /\ groups <> []
      /\ exists rmap,
          _build_replacement_map groups = Ok rmap
          /\ let u := _update_markdown_links re_sub w rmap in
             let r := _remove_duplicates groups rmap (store w) in
             (exists e,
                 u_raised u = Some e
                 /\ deduplicate_directory re_sub w
                    = (report (count_files hm) (count_duplicates groups) 0 0 0 [e],
                       {| store := store w; store_walk := store_walk w;
                          corpus := u_corpus u; corpus_walk := corpus_walk w;
                          log := log w ++ [LogScanning] ++ lg ++ u_log u
                                 ++ [LogDedupFailed e];
                          ops := ops w ++ u_ops u |}))
             \/ (u_raised u = None
                 /\ deduplicate_directory re_sub w
                    = (report (count_files hm) (count_duplicates groups)
                         (r_removed r) (r_bytes r) (List.length (u_updated u)) [],
                       {| store := r_store r; store_walk := store_walk w;
                          corpus := u_corpus u; corpus_walk := corpus_walk w;
                          log := log w ++ [LogScanning] ++ lg ++ u_log u ++ r_log r
                                 ++ [LogComplete (r_removed r) (r_bytes r)];
                          ops := ops w ++ u_ops u ++ r_ops r |}))).
Proof.
  intros hm groups lg. unfold deduplicate_directory.
  destruct (store_walk w) as [|n msg] eqn:Ew.
  - right. rewrite (IndexFacts.hash_all_files_walk_ok w Ew).
    fold hm. fold lg. cbv zeta. fold groups.
    destruct (replacement_map_built hm) as (rmap & Hb). fold groups in Hb.
    destruct groups as [|g gs] eqn:Eg.
    + left. repeat split.
    + right. split; [reflexivity|]. split; [discriminate|].
      exists rmap. split; [exact Hb|]. rewrite Hb. cbv zeta.
      destruct (u_raised (_update_markdown_links re_sub w rmap)) as [e|] eqn:Er.
      * left. exists e. split; reflexivity.
      * right. split; reflexivity.
  - left. destruct (IndexFacts.hash_all_files_walk_fails w n msg Ew) as (lg' & E).
    rewrite E. exists n, msg, lg'. split; reflexivity.
Qed.

End RunFacts.


(** The store that a run leaves keeps every entry whose path is not
    among the files to remove. *)
Lemma run_keeps (re_sub : string -> string -> string -> py_result string)
  (w : World) (a : asset) :
  In a (store w) ->
  (forall rmap,
      ~ In (a_path a)
          (files_to_remove (_find_duplicates (store_index (store w))) rmap)) ->
  In a (store (snd (deduplicate_directory re_sub w))).
Proof.
  intros Ha Hout.
  destruct (run_cases re_sub w)
    as [(n & msg & lg' & _ & E) | [(_ & _ & E) | (_ & _ & rmap & _ & [(e & _ & E) | (_ & E)])]];
    rewrite E; cbn [snd store]; try exact Ha.
  apply RemoveFacts.remove_loop_keeps; [exact Ha | apply Hout].
Qed.



(* ================================================================= *)
(** ** Removal does not look at the documents *)

Module GcFacts.

Lemma Path_eqb_true (p q : Path) : Path_eqb p q = true <-> p = q.
Proof. unfold Path_eqb. destruct (Path_eq_dec p q); intuition discriminate. Qed.

Lemma find_asset_some (p : Path) (st : list asset) (a : asset) :
  find_asset p st = Some a -> In a st /\ a_path a = p.
Proof.
  induction st as [|b st IH]; simpl; [discriminate|].
  unfold Path_eqb. destruct (Path_eq_dec (a_path b) p) as [E | _].
  - intros H. inversion H. subst. split; [now left | reflexivity].
  - intros H. destruct (IH H). split; [now right | assumption].
Qed.

Lemma find_asset_none (p : Path) (st : list asset) :
  find_asset p st = None <-> forall a, In a st -> a_path a <> p.
Proof.
  induction st as [|b st IH]; simpl.
  - split; [intros _ a [] | reflexivity].
  - unfold Path_eqb. destruct (Path_eq_dec (a_path b) p) as [E | Hne].
    + split; [discriminate|]. intros H. exfalso. apply (H b); [now left | exact E].
    + rewrite IH. split.
      * intros H a [<- | Ha]; [exact Hne | now apply H].
      * intros H a Ha. apply H. now right.
Qed.

Lemma find_unlink_same (p : Path) (st : list asset) :
  find_asset p (unlink p st) = None.
Proof.
  apply find_asset_none. intros a Ha. now apply RemoveFacts.unlink_in in Ha.
Qed.

Lemma find_unlink_other (p q : Path) (st : list asset) :
  q <> p -> find_asset p (unlink q st) = find_asset p st.
Proof.
  intros Hne. induction st as [|b st IH]; simpl; [reflexivity|].
  destruct (Path_eqb (a_path b) q) eqn:Eq; simpl.
  - apply Path_eqb_true in Eq.
    destruct (Path_eqb (a_path b) p) eqn:Ep; [|exact IH].
    apply Path_eqb_true in Ep. congruence.
  - destruct (Path_eqb (a_path b) p); [reflexivity | exact IH].
Qed.

Lemma find_none_stays (paths : list Path) (p : Path) (st : list asset) :
  find_asset p st = None -> find_asset p (r_store (remove_loop paths st)) = None.
Proof.
  rewrite !find_asset_none. intros H a Ha.
  apply H. now apply (RemoveFacts.remove_loop_incl paths).
Qed.

(** A file to remove whose [unlink] succeeds is gone afterwards. *)
Lemma remove_loop_gone (paths : list Path) (p : Path) :
  forall st a,
    In p paths -> find_asset p st = Some a -> a_unlink_error a = None ->
    find_asset p (r_store (remove_loop paths st)) = None.
Proof.
  induction paths as [|q paths IH]; intros st a Hin Hf He; [contradiction|].
  cbn [remove_loop]. destruct (Path_eq_dec q p) as [-> | Hne].
  - rewrite Hf, He. cbn [r_store].
    apply find_none_stays. apply find_unlink_same.
  - destruct Hin as [E | Hin]; [contradiction|].
    destruct (find_asset q st) as [b|].
    + destruct (a_unlink_error b); cbn [r_store].
      * now apply (IH st a).
      * apply (IH (unlink q st) a); try assumption.
        now rewrite find_unlink_other.
    + cbn [r_store]. now apply (IH st a).
Qed.

End GcFacts.

Section RewriterRaises.

Variable re_sub : string -> string -> string -> py_result string.

Lemma after_note_raised (n : note) (o : note_outcome) (r : rewriting) :
  u_raised (after_note n o r) = u_raised r.
Proof. destruct o; reflexivity. Qed.

Lemma after_note_log (n : note) (o : note_outcome) (r : rewriting) (ev : log_event) :
  In ev (u_log r) -> In ev (u_log (after_note n o r)).
Proof. destruct o; simpl; auto. Qed.

(** The rewriter raises only when the walk of the documents does. *)
Lemma update_loop_walk_ok (rmap : dict string) (notes : list note) :
  u_raised (update_loop re_sub rmap WalkOk notes) = None.
Proof.
  induction notes as [|n notes IH]; [reflexivity|].
  destruct (update_loop_cases re_sub rmap WalkOk n notes)
    as [[_ E] | [[_ (msg & Hw & _)] | [_ E]]]; [| discriminate |]; rewrite E.
  - exact IH.
  - rewrite after_note_raised. exact IH.
Qed.

Lemma update_loop_walk_fails (rmap : dict string) (notes : list note) :
  forall k msg, u_raised (update_loop re_sub rmap (WalkFails k msg) notes) = Some msg.
Proof.
  induction notes as [|n notes IH]; intros k msg; [reflexivity|].
  destruct (update_loop_cases re_sub rmap (WalkFails k msg) n notes)
    as [[_ E] | [[_ (msg' & Hw & E)] | [_ E]]]; rewrite E.
  - apply IH.
  - inversion Hw. reflexivity.
  - rewrite after_note_raised. apply IH.
Qed.

End RewriterRaises.

Section FailuresLogged.

Variable re_sub : string -> string -> string -> py_result string.

(** With a walk that completes, a document whose update fails is
    logged. *)
Lemma update_loop_failure_logged (rmap : dict string) (notes : list note)
  (n : note) (e : string) :
  In n notes -> is_md n = true -> update_note re_sub rmap n = Failed e ->
  In (LogUpdateFailed (n_path n) e) (u_log (update_loop re_sub rmap WalkOk notes)).
Proof.
  intros Hin Hmd Hf. induction notes as [|m notes IH]; [contradiction|].
  destruct (update_loop_cases re_sub rmap WalkOk m notes)
    as [[Hm E] | [[_ (msg & Hw & _)] | [_ E]]]; [| discriminate |]; rewrite E.
  - destruct Hin as [-> | Hin]; [congruence|]. cbn [passed u_log]. now apply IH.
  - destruct Hin as [-> | Hin].
    + rewrite Hf. cbn [after_note u_log]. now left.
    + apply after_note_log. now apply IH.
Qed.

End FailuresLogged.

(** What the Garbage Collector does on every input.
    [_remove_duplicates] receives the groups and the mapping, not the
    outcome of the rewriter.  When both walks complete, every member of
    a group but its canonical one is a file to remove, and every file to
    remove whose [unlink] succeeds is gone from the store after the run,
    whether or not the documents that refer to it were rewritten; the
    store left is a function of the groups, the mapping and the store
    alone.  A document whose update fails is logged, and the error list
    of the report stays empty. *)
Theorem duplicates_removed_regardless
  (re_sub : string -> string -> string -> py_result string) (w : World) :
  store_walk w = WalkOk ->
  corpus_walk w = WalkOk ->
  exists hm lg rmap,
    _hash_all_files w = (Ok hm, lg)
    /\ _build_replacement_map (_find_duplicates hm) = Ok rmap
    /\ errors (fst (deduplicate_directory re_sub w)) = []
    /\ (_find_duplicates hm <> [] ->
        store (snd (deduplicate_directory re_sub w))
        = r_store (_remove_duplicates (_find_duplicates hm) rmap (store w)))
    /\ (forall g c duplicates d,
           In g (_find_duplicates hm) -> sorted_by_key g = c :: duplicates ->
           In d duplicates ->
           In d (files_to_remove (_find_duplicates hm) rmap))
    /\ (forall p a,
           In p (files_to_remove (_find_duplicates hm) rmap) ->
           find_asset p (store w) = Some a -> a_unlink_error a = None ->
           find_asset p (store (snd (deduplicate_directory re_sub w))) = None)
    /\ (forall n e,
           _find_duplicates hm <> [] ->
           In n (corpus w) -> is_md n = true -> update_note re_sub rmap n = Failed e ->
           In (LogUpdateFailed (n_path n) e) (log (snd (deduplicate_directory re_sub w)))).
Proof.
  intros Hs Hc.
  destruct (replacement_map_built (store_index (store w))) as (rmap & Hb).
  exists (store_index (store w)), (snd (hash_loop (store w) [] [])), rmap.
  split; [now apply IndexFacts.hash_all_files_walk_ok|]. split; [exact Hb|].
  assert (Hdup : forall g c duplicates d,
             In g (_find_duplicates (store_index (store w))) ->
             sorted_by_key g = c :: duplicates -> In d duplicates ->
             In d (files_to_remove (_find_duplicates (store_index (store w))) rmap)).
  { intros g c dups d Hg Hsort Hd. apply RemoveFacts.files_to_remove_in. split.
    - exists g. split; [exact Hg|].
      apply (Permutation_in _ (SortFacts.sorted_perm g)). rewrite Hsort. now right.
    - now apply (DictFacts.build_from_mem _ [] rmap g c dups d Hb). }
  destruct (run_cases re_sub w)
    as [(n & msg & lg' & E0 & _)
       | [(_ & Hg & E) | (_ & Hg & rmap' & Hb' & [(e & Hr & _) | (_ & E)])]].
  - congruence.
  - rewrite E. cbn [fst snd errors report store log]. rewrite Hg.
    split; [reflexivity|]. split; [congruence|]. split; [intros g c dups d []|].
    split; [intros p a []|]. congruence.
  - exfalso. unfold _update_markdown_links in Hr. rewrite Hc in Hr.
    rewrite update_loop_walk_ok in Hr. discriminate.
  - assert (Er : rmap' = rmap) by congruence. subst rmap'.
    rewrite E. cbn [fst snd errors report store log].
    split; [reflexivity|]. split; [reflexivity|]. split; [exact Hdup|]. split.
    + intros p a Hin Hf He. now apply (GcFacts.remove_loop_gone _ p (store w) a).
    + intros n e _ Hn Hmd Hf.
      apply in_or_app. right. apply in_or_app. right. apply in_or_app. right.
      apply in_or_app. left. unfold _update_markdown_links. rewrite Hc.
      now apply update_loop_failure_logged.
Qed.

(** The store whose only referring document cannot be written. *)
Lemma duplicates_removed_regardless_witness :
  exists hm lg rmap,
    _hash_all_files Examples.failed_rewrite = (Ok hm, lg)
    /\ _build_replacement_map (_find_duplicates hm) = Ok rmap
    /\ errors (fst (deduplicate_directory re_sub_fragment Examples.failed_rewrite)) = [].
Proof.
  destruct (duplicates_removed_regardless re_sub_fragment Examples.failed_rewrite)
    as (hm & lg & rmap & H1 & H2 & H3 & _).
  - reflexivity.
  - reflexivity.
  - exists hm, lg, rmap. repeat split; assumption.
Defined.

(** C1 fails on the code, against the module's own promise of link
    integrity: [note.md] is the only document that refers to
    [photo_b.png], and it cannot be written.  After the run the
    document still holds [![[photo_b.png]]], the file [photo_b.png] is
    gone from the store, and the error list of the report is empty:
    the failure is in the log alone. *)
Theorem duplicate_deleted_despite_failed_rewrite :
  let out := deduplicate_directory re_sub_fragment Examples.failed_rewrite in
  update_note re_sub_fragment [("photo_b.png", "photo_a.png")]%string Examples.read_only_note
  = Failed "[Errno 13] Permission denied"
  /\ corpus (snd out) = [Examples.read_only_note]
  /\ PyStr.contains "![[photo_b.png]]" (n_text Examples.read_only_note) = true
  /\ find_asset (mkPath [] "photo_b.png") (store Examples.failed_rewrite)
     = Some Examples.photo_b
  /\ store (snd out) = [Examples.photo_a]
  /\ duplicates_removed (fst out) = 1
  /\ files_updated (fst out) = 0
  /\ errors (fst out) = []
  /\ log (snd out)
     = [LogScanning;
        LogUpdateFailed (mkPath [] "note.md") "[Errno 13] Permission denied";
        LogComplete 1 4].
Proof. vm_compute. repeat split. Qed.

(** C8, as the code has it.  The function makes no check of its two
    directories.  Failures on single files are caught in their loops
    and logged: when both walks complete, the error list is empty,
    whatever failed.  An exception that escapes a loop ends the run with
    its message as the only error: when the walk of the store raises,
    nothing has been changed; when the walk of the documents raises
    (and there are duplicates), no file is removed.  A report is
    returned in every case, with at most one error. *)
Theorem only_walk_errors_reported
  (re_sub : string -> string -> string -> py_result string) (w : World) :
  let out := deduplicate_directory re_sub w in
  (store_walk w = WalkOk -> corpus_walk w = WalkOk -> errors (fst out) = [])
  /\ (forall n msg,
         store_walk w = WalkFails n msg ->
         errors (fst out) = [msg]
         /\ store (snd out) = store w /\ corpus (snd out) = corpus w
         /\ ops (snd out) = ops w)
  /\ (forall n msg,
         store_walk w = WalkOk -> corpus_walk w = WalkFails n msg ->
         (errors (fst out) = [] /\ duplicates_found (fst out) = 0
          /\ corpus (snd out) = corpus w)
         \/ errors (fst out) = [msg])
  /\ (errors (fst out) <> [] ->
      store (snd out) = store w /\ duplicates_removed (fst out) = 0)
  /\ List.length (errors (fst out)) <= 1.
Proof.
  intros out. unfold out. clear out.
  destruct (run_cases re_sub w)
    as [(n & msg & lg' & E0 & E)
       | [(Hs & Hg & E) | (Hs & Hg & rmap & Hb & [(e & Hr & E) | (Hr & E)])]];
    rewrite E; cbn [fst snd errors report store corpus ops duplicates_found
                      duplicates_removed List.length].
  - split; [congruence|]. split.
    + intros n' msg' H. rewrite E0 in H. inversion H. subst. repeat split.
    + split; [congruence|]. split; [now split | lia].
  - split; [reflexivity|]. split; [congruence|]. split.
    + intros n msg _ _. left. repeat split.
    + split; [congruence | lia].
  - split.
    + intros _ Hc. unfold _update_markdown_links in Hr. rewrite Hc in Hr.
      rewrite update_loop_walk_ok in Hr. discriminate.
    + split; [congruence|]. split.
      * intros n msg _ Hc. right. unfold _update_markdown_links in Hr.
        rewrite Hc, update_loop_walk_fails in Hr. congruence.
      * split; [now split | lia].
  - split; [reflexivity|]. split; [congruence|]. split.
    + intros n msg _ Hc. unfold _update_markdown_links in Hr.
      rewrite Hc, update_loop_walk_fails in Hr. discriminate.
    + split; [congruence | lia].
Qed.

(** A store whose walk raises after one entry. *)
Lemma only_walk_errors_reported_witness :
  errors (fst (deduplicate_directory re_sub_fragment Examples.broken_walk))
  = ["[Errno 5] Input/output error"%string]
  /\ store (snd (deduplicate_directory re_sub_fragment Examples.broken_walk))
     = store Examples.broken_walk
  /\ corpus (snd (deduplicate_directory re_sub_fragment Examples.broken_walk))
     = corpus Examples.broken_walk
  /\ ops (snd (deduplicate_directory re_sub_fragment Examples.broken_walk))
     = ops Examples.broken_walk.
Proof.
  exact (proj1 (proj2 (only_walk_errors_reported re_sub_fragment Examples.broken_walk))
           1 "[Errno 5] Input/output error"%string eq_refl).
Defined.

(** C8 as stated fails: in a store with a file that cannot be read and
    a duplicate that cannot be removed, both failures are logged, the
    run completes, and the error list of the report is empty. *)
Lemma item_failures_not_reported :
  let out := deduplicate_directory re_sub_fragment Examples.item_failures in
  In (LogHashFailed (mkPath [] "broken.png") "[Errno 13] Permission denied") (log (snd out))
  /\ In (LogRemoveFailed (mkPath [] "photo_b.png") "[Errno 1] Operation not permitted")
       (log (snd out))
  /\ duplicates_found (fst out) = 1
  /\ duplicates_removed (fst out) = 0
  /\ errors (fst out) = [].
Proof. vm_compute. intuition. Qed.

(* ================================================================= *)
(** ** A second run *)

Module IdempotenceFacts.

Lemma filter_both {A : Type} (f g : A -> bool) (l : list A) :
  filter f (filter g l) = filter (fun x => g x && f x) l.
Proof.
  induction l as [|x l IH]; cbn [filter]; [reflexivity|].
  destruct (g x); cbn [filter andb]; [destruct (f x)|]; now rewrite IH.
Qed.

Lemma filter_swap {A : Type} (f g : A -> bool) (l : list A) :
  filter f (filter g l) = filter g (filter f l).
Proof.
  rewrite !filter_both. apply filter_ext. intros x. apply andb_comm.
Qed.

Lemma filter_none {A : Type} (f : A -> bool) (l : list A) :
  (forall x, In x l -> f x = false) -> filter f l = [].
Proof.
  induction l as [|x l IH]; cbn [filter]; intros H; [reflexivity|].
  rewrite (H x) by now left. apply IH. intros y Hy. apply H. now right.
Qed.

Lemma filter_length_imp {A : Type} (f g : A -> bool) (l : list A) :
  (forall x, In x l -> f x = true -> g x = true) ->
  List.length (filter f l) <= List.length (filter g l).
Proof.
  induction l as [|x l IH]; cbn [filter]; intros H; [lia|].
  assert (IH' : List.length (filter f l) <= List.length (filter g l)).
  { apply IH. intros y Hy. apply H. now right. }
  destruct (f x) eqn:Ef.
  - rewrite (H x) by (now left || assumption). cbn [List.length]. lia.
  - destruct (g x); cbn [List.length]; lia.
Qed.

Lemma count_occ_paths (c : Path) (l : list asset) :
  List.length (filter (fun a => Path_eqb (a_path a) c) l)
  = count_occ Path_eq_dec (map a_path l) c.
Proof.
  induction l as [|a l IH]; cbn [filter map count_occ]; [reflexivity|].
  unfold Path_eqb at 1. destruct (Path_eq_dec (a_path a) c); cbn [List.length]; now rewrite IH.
Qed.

Lemma remove_loop_kept (paths : list Path) :
  forall st,
    (forall a, In a st -> a_unlink_error a = None) ->
    r_store (remove_loop paths st) = filter (kept paths) st.
Proof.
  induction paths as [|p paths IH]; intros st Hok.
  - cbn [remove_loop r_store]. symmetry. apply filter_true.
  - cbn [remove_loop]. destruct (find_asset p st) as [b|] eqn:Ef.
    + destruct (GcFacts.find_asset_some p st b Ef) as [Hb _].
      rewrite (Hok b Hb). cbn [r_store]. rewrite IH.
      * unfold unlink. rewrite filter_both. apply filter_ext.
        intros a. unfold kept. cbn [existsb]. now rewrite negb_orb.
      * intros a Ha. apply Hok. now apply RemoveFacts.unlink_in in Ha.
    + cbn [r_store]. rewrite IH by exact Hok.
      apply filter_ext_in. intros a Ha. unfold kept. cbn [existsb].
      destruct (Path_eqb (a_path a) p) eqn:E; [|reflexivity].
      apply GcFacts.Path_eqb_true in E.
      exfalso. exact (proj1 (GcFacts.find_asset_none p st) Ef a Ha E).
Qed.

Lemma kept_true (paths : list Path) (a : asset) :
  kept paths a = true -> ~ In (a_path a) paths.
Proof.
  unfold kept. intros H Hin. apply negb_true_iff in H.
  assert (T : existsb (Path_eqb (a_path a)) paths = true).
  { apply existsb_exists. exists (a_path a). split; [exact Hin|].
    now apply GcFacts.Path_eqb_true. }
  congruence.
Qed.

(** After a removal in which no [unlink] fails, at most one file is
    left under each hash. *)
Lemma one_file_per_hash (st : list asset) (rmap : dict string) (k : string) :
  _build_replacement_map (_find_duplicates (store_index st)) = Ok rmap ->
  List.length
    (paths_of k
       (filter (kept (files_to_remove (_find_duplicates (store_index st)) rmap)) st))
  <= 1.
Proof.
  intros Hb. set (groups := _find_duplicates (store_index st)) in *.
  set (R := files_to_remove groups rmap).
  unfold paths_of. rewrite length_map, filter_swap.
  set (G := filter (hashes_to k) st).
  destruct (Nat.le_gt_cases (List.length G) 1) as [Hle | Hgt].
  - pose proof (filter_length_le (kept R) G). lia.
  - assert (Hg : In (map a_path G) groups).
    { apply IndexFacts.group_in_index. split.
      - apply (IndexFacts.index_has st k). unfold paths_of. fold G.
        destruct G; [simpl in Hgt; lia | discriminate].
      - now rewrite length_map. }
    destruct (sorted_by_key (map a_path G)) as [|c dups] eqn:Hs.
    { exfalso. pose proof (SortFacts.sorted_perm (map a_path G)) as P.
      rewrite Hs in P. apply Permutation_nil in P.
      apply (f_equal (@List.length Path)) in P. rewrite length_map in P.
      simpl in P. lia. }
    assert (Hone : forall a, In a G -> kept R a = true ->
                             a_path a = c /\ ~ In c dups).
    { intros a Ha Hk. apply kept_true in Hk.
      assert (Hnd : ~ In (a_path a) dups).
      { intros Hd. apply Hk. apply RemoveFacts.files_to_remove_in. split.
        - exists (map a_path G). split; [exact Hg | now apply in_map].
        - now apply (DictFacts.build_from_mem groups [] rmap (map a_path G) c dups). }
      assert (Hin : In (a_path a) (c :: dups)).
      { rewrite <- Hs.
        apply (Permutation_in _ (Permutation_sym (SortFacts.sorted_perm _))).
        now apply in_map. }
      destruct Hin as [E | Hin]; [|contradiction].
      split; [now symmetry | now rewrite E]. }
    destruct (filter (kept R) G) as [|a0 rest] eqn:Ek; [simpl; lia|].
    assert (Ha0 : In a0 (filter (kept R) G)) by (rewrite Ek; now left).
    apply filter_In in Ha0. destruct Ha0 as [Ha0 Hk0].
    destruct (Hone a0 Ha0 Hk0) as [_ Hc].
    rewrite <- Ek.
    apply Nat.le_trans
      with (m := List.length (filter (fun a => Path_eqb (a_path a) c) G)).
    + apply filter_length_imp. intros a Ha Hk.
      apply GcFacts.Path_eqb_true. now apply Hone.
    + rewrite count_occ_paths.
      pose proof (proj1 (Permutation_count_occ Path_eq_dec _ _)
                    (SortFacts.sorted_perm (map a_path G)) c) as Pc.
      rewrite <- Pc, Hs. cbn [count_occ].
      destruct (Path_eq_dec c c) as [_ | N]; [|congruence].
      rewrite (proj1 (count_occ_not_In Path_eq_dec dups c) Hc). lia.
Qed.

(** So the index of the store that is left has no duplicate group. *)
Lemma no_groups_left (st : list asset) (rmap : dict string) :
  (forall a, In a st -> a_unlink_error a = None) ->
  _build_replacement_map (_find_duplicates (store_index st)) = Ok rmap ->
  _find_duplicates
    (store_index
       (r_store (_remove_duplicates (_find_duplicates (store_index st)) rmap st)))
  = [].
Proof.
  intros Hok Hb. unfold _remove_duplicates. rewrite remove_loop_kept by exact Hok.
  unfold _find_duplicates at 1. apply filter_none. intros ps Hps.
  destruct (IndexFacts.index_entry _ ps Hps) as (k & -> & _).
  apply Nat.ltb_ge. now apply one_file_per_hash.
Qed.

End IdempotenceFacts.

Section SecondRun.

Variable re_sub : string -> string -> string -> py_result string.

Lemma run_without_groups (w : World) :
  store_walk w = WalkOk ->
  _find_duplicates (store_index (store w)) = [] ->
  duplicates_found (fst (deduplicate_directory re_sub w)) = 0
  /\ duplicates_removed (fst (deduplicate_directory re_sub w)) = 0
  /\ files_updated (fst (deduplicate_directory re_sub w)) = 0
  /\ errors (fst (deduplicate_directory re_sub w)) = []
  /\ store (snd (deduplicate_directory re_sub w)) = store w
  /\ corpus (snd (deduplicate_directory re_sub w)) = corpus w.
Proof.
  intros Hs Hg.
  destruct (run_cases re_sub w)
    as [(n & msg & lg' & E0 & _) | [(_ & _ & E) | (_ & Hne & _)]].
  - congruence.
  - rewrite E. repeat split.
  - contradiction.
Qed.

Lemma run_store_walk_fails (w : World) (n : nat) (msg : string) :
  store_walk w = WalkFails n msg ->
  duplicates_removed (fst (deduplicate_directory re_sub w)) = 0
  /\ files_updated (fst (deduplicate_directory re_sub w)) = 0
  /\ store (snd (deduplicate_directory re_sub w)) = store w.
Proof.
  intros Hs.
  destruct (run_cases re_sub w)
    as [(n' & msg' & lg' & _ & E) | [(E0 & _) | (E0 & _)]]; [| congruence | congruence].
  rewrite E. repeat split.
Qed.

Lemma run_corpus_walk_fails (w : World) (n : nat) (msg : string) :
  corpus_walk w = WalkFails n msg ->
  duplicates_removed (fst (deduplicate_directory re_sub w)) = 0
  /\ files_updated (fst (deduplicate_directory re_sub w)) = 0
  /\ store (snd (deduplicate_directory re_sub w)) = store w.
Proof.
  intros Hc.
  destruct (run_cases re_sub w)
    as [(n' & msg' & lg' & _ & E)
       | [(_ & _ & E) | (_ & _ & rmap & _ & [(e & _ & E) | (Hr & _)])]];
    try (rewrite E; repeat split).
  exfalso. unfold _update_markdown_links in Hr.
  rewrite Hc, update_loop_walk_fails in Hr. discriminate.
Qed.

End SecondRun.

(** C4.  Take a store in which no [unlink] fails, and run the pass
    twice.  The second run removes nothing and updates nothing, and
    leaves the store as the first run left it; when the first run ended
    without an error, the second finds no duplicate, leaves the
    documents as they were and ends without an error too: after a
    completed first pass, at most one file is left under each hash, so
    the second returns before it reaches the rewriter. *)
Theorem second_run_changes_nothing
  (re_sub : string -> string -> string -> py_result string) (w : World) :
  (forall a, In a (store w) -> a_unlink_error a = None) ->
  let first := deduplicate_directory re_sub w in
  let second := deduplicate_directory re_sub (snd first) in
  duplicates_removed (fst second) = 0
  /\ files_updated (fst second) = 0
  /\ store (snd second) = store (snd first)
  /\ (errors (fst first) = [] ->
      duplicates_found (fst second) = 0
      /\ corpus (snd second) = corpus (snd first)
      /\ errors (fst second) = []).
Proof.
  intros Hok first second. unfold second, first. clear first second.
  destruct (run_cases re_sub w)
    as [(n & msg & lg' & Hs & E)
       | [(Hs & Hg & E) | (Hs & Hg & rmap & Hb & [(e & Hr & E) | (Hr & E)])]];
    rewrite E; cbn [fst snd errors report].
  - match goal with |- context [deduplicate_directory re_sub ?w1] =>
      destruct (run_store_walk_fails re_sub w1 n msg Hs) as (H1 & H2 & H3) end.
    split; [exact H1|]. split; [exact H2|]. split; [exact H3 | discriminate].
  - match goal with |- context [deduplicate_directory re_sub ?w1] =>
      destruct (run_without_groups re_sub w1 Hs Hg) as (H0 & H1 & H2 & H3 & H4 & H5) end.
    repeat split; assumption.
  - assert (Hc : exists k msg, corpus_walk w = WalkFails k msg).
    { destruct (corpus_walk w) as [|k msg] eqn:Ec; [|now exists k, msg].
      unfold _update_markdown_links in Hr. rewrite Ec, update_loop_walk_ok in Hr.
      discriminate. }
    destruct Hc as (k & msg & Hc).
    match goal with |- context [deduplicate_directory re_sub ?w1] =>
      destruct (run_corpus_walk_fails re_sub w1 k msg Hc) as (H1 & H2 & H3) end.
    split; [exact H1|]. split; [exact H2|]. split; [exact H3 | discriminate].
  - match goal with |- context [deduplicate_directory re_sub ?w1] =>
      destruct (run_without_groups re_sub w1 Hs
                  (IdempotenceFacts.no_groups_left (store w) rmap Hok Hb))
        as (H0 & H1 & H2 & H3 & H4 & H5) end.
    repeat split; assumption.
Qed.

(** Scenario A, where every file can be removed. *)
Lemma second_run_changes_nothing_witness :
  duplicates_removed
    (fst (deduplicate_directory re_sub_fragment
            (snd (deduplicate_directory re_sub_fragment Examples.scenario_a)))) = 0
  /\ files_updated
       (fst (deduplicate_directory re_sub_fragment
               (snd (deduplicate_directory re_sub_fragment Examples.scenario_a)))) = 0.
Proof.
  destruct (second_run_changes_nothing re_sub_fragment Examples.scenario_a)
    as (H1 & H2 & _).
  - intros a [<- | [<- | []]]; reflexivity.
  - split; assumption.
Defined.

(* ================================================================= *)
(** ** A flat store *)

Module FlatStore.

Lemma hm_append_concat (hm : dict (list Path)) (h : string) (p : Path) :
  Permutation (concat (map snd (hm_append hm h p))) (p :: concat (map snd hm)).
Proof.
  induction hm as [|[k ps] hm IH]; cbn [hm_append map snd concat].
  - reflexivity.
  - destruct (String.eqb k h); cbn [map snd concat].
    + rewrite <- app_assoc. cbn [app].
      rewrite <- Permutation_middle. reflexivity.
    + rewrite IH. rewrite <- Permutation_middle. reflexivity.
Qed.

(** The index holds the paths of the hashed files, each once per entry
    of the store. *)
Lemma hash_loop_concat (files : list asset) :
  forall hm lg,
    Permutation (concat (map snd (fst (hash_loop files hm lg))))
      (concat (map snd hm) ++ map a_path (filter hashable files)).
Proof.
  induction files as [|a files IH]; intros hm lg.
  - cbn [hash_loop fst filter map]. now rewrite app_nil_r.
  - cbn [filter].
    destruct (IndexFacts.asset_cases a) as [H | [[Hi H] | (Hi & H & e & He)]]; rewrite H.
    + rewrite (IndexFacts.hash_loop_hashed a files hm lg H), IH, hm_append_concat.
      cbn [map]. rewrite <- Permutation_middle. reflexivity.
    + rewrite (IndexFacts.hash_loop_skipped a files hm lg Hi). apply IH.
    + rewrite (IndexFacts.hash_loop_failed a files hm lg e Hi He). apply IH.
Qed.

Lemma concat_filter_incl {A : Type} (f : list A -> bool) (L : list (list A)) (x : A) :
  In x (concat (filter f L)) -> In x (concat L).
Proof.
  rewrite !in_concat. intros (l & Hl & Hx). apply filter_In in Hl.
  exists l. tauto.
Qed.

Lemma NoDup_concat_filter {A B : Type} (g : A -> B) (f : list A -> bool) (L : list (list A)) :
  NoDup (map g (concat L)) -> NoDup (map g (concat (filter f L))).
Proof.
  induction L as [|l L IH]; cbn [filter concat]; intros H; [exact H|].
  rewrite map_app in H.
  assert (Hrest : NoDup (map g (concat (filter f L)))).
  { apply IH. now apply NoDup_app_remove_l in H. }
  destruct (f l); [|exact Hrest].
  cbn [concat]. rewrite map_app. apply NoDup_app.
  - now apply NoDup_app_remove_r in H.
  - exact Hrest.
  - intros b Hb Hb'. apply (GroupFacts.NoDup_app_disjoint _ _ b H Hb).
    apply in_map_iff in Hb'. destruct Hb' as (x & <- & Hx).
    apply in_map. now apply (concat_filter_incl f).
Qed.

(** When the hashed files of the store have pairwise distinct names,
    so have the members of the duplicate groups: a flat store meets the
    hypothesis under which canonical files are shown to survive. *)
Lemma flat_store_distinct_names (st : list asset) :
  NoDup (map (fun a => name (a_path a)) (filter hashable st)) ->
  NoDup (map name (concat (_find_duplicates (store_index st)))).
Proof.
  intros H. unfold _find_duplicates. apply NoDup_concat_filter.
  apply (Permutation_NoDup (l := map name (map a_path (filter hashable st)))).
  - apply Permutation_map. symmetry.
    exact (hash_loop_concat st [] []).
  - now rewrite map_map.
Qed.

End FlatStore.

(** Scenario A of the specification, with the embed token of the code:
    the canonical file is [photo_a.png], [photo_b.png] is removed, the
    document is rewritten, and the report counts one duplicate found
    and removed and one file updated. *)
Example scenario_a_report :
  deduplicate_directory re_sub_fragment Examples.scenario_a
  = (report 2 1 1 4 1 [],
     {| store := [Examples.photo_a]; store_walk := WalkOk;
        corpus := [Examples.document "note.md" "![[photo_a.png]] and ![alt](photo_a.png)"];
        corpus_walk := WalkOk;
        log := [LogScanning; LogComplete 1 4];
        ops := [OpWriteText (mkPath [] "note.md") "![[photo_a.png]] and ![alt](photo_a.png)";
                OpUnlink (mkPath [] "photo_b.png")] |}).
Proof. vm_compute. reflexivity. Qed.

(** One document with an inline image, a remote image and the inline
    image again: three writes, the third over the file of the first. *)
Example images_of_one_document :
  let st :=
    Transformer._process_images
      [Examples.inline_png; Examples.remote_jpeg; Examples.inline_png] "note" [] true in
  Transformer.i_files st
  = [("note_3bdaf5969285.png", Examples.pixels);
     ("note_d03d864b7f43.jpg", Examples.other_pixels)]%string
  /\ List.length (Transformer.i_ops st) = 3
  /\ Transformer.i_extracted st = 2
  /\ Transformer.i_external st = 1.
Proof. vm_compute. repeat split. Qed.

(** The digests of RFC 1321 that [MD5.hexdigest] is checked against. *)
Example md5_test_suite :
  MD5.hexdigest [] = "d41d8cd98f00b204e9800998ecf8427e"%string
  /\ MD5.hexdigest (list_byte_of_string "a") = "0cc175b9c0f1b6a831c399e269772661"%string
  /\ MD5.hexdigest (list_byte_of_string "abc") = "900150983cd24fb0d6963f7d28e17f72"%string
  /\ MD5.hexdigest (list_byte_of_string "message digest")
     = "f96b697d7cb7938d525a2f31aaf161d0"%string
  /\ MD5.hexdigest
       (list_byte_of_string
          "12345678901234567890123456789012345678901234567890123456789012345678901234567890")
     = "57edf4a22be3c955ac49da2e2107b67a"%string.
Proof. vm_compute. repeat split. Qed.

(* ================================================================= *)
(** ** The dry run *)

Module DryRunFacts.

Lemma two_members {A : Type} (l : list A) (x y : A) (f : A -> bool) :
  In x l -> In y l -> x <> y -> f x = true -> f y = true ->
  2 <= List.length (filter f l).
Proof.
  induction l as [|z l IH]; intros Hx Hy Hne Fx Fy; [contradiction|].
  cbn [filter]. destruct Hx as [-> | Hx], Hy as [-> | Hy].
  - congruence.
  - rewrite Fx. cbn [List.length].
    assert (In y (filter f l)) by (apply filter_In; now split).
    destruct (filter f l); [contradiction | cbn [List.length]; lia].
  - rewrite Fy. cbn [List.length].
    assert (In x (filter f l)) by (apply filter_In; now split).
    destruct (filter f l); [contradiction | cbn [List.length]; lia].
  - specialize (IH Hx Hy Hne Fx Fy). destruct (f z); cbn [List.length]; lia.
Qed.

Lemma filter_fst_nodup {V : Type} (f : string * V -> bool) (d : dict V) :
  NoDup (map fst d) -> NoDup (map fst (filter f d)).
Proof.
  induction d as [|e d IH]; cbn [filter map]; intros H; [constructor|].
  inversion H as [|? ? Hk Hrest]; subst.
  destruct (f e); cbn [map]; [|now apply IH].
  constructor; [|now apply IH].
  intros Hin. apply Hk. apply in_map_iff in Hin. destruct Hin as (e' & E & Hin).
  apply filter_In in Hin. apply in_map_iff. exists e'. tauto.
Qed.

Lemma map_snd_filter {V : Type} (g : V -> bool) (d : dict V) :
  map snd (filter (fun e => g (snd e)) d) = filter g (map snd d).
Proof.
  induction d as [|e d IH]; cbn [filter map]; [reflexivity|].
  destruct (g (snd e)); cbn [map]; now rewrite IH.
Qed.

End DryRunFacts.

(** X1.  What [analyze_duplicates] returns when the walk completes: a
    dictionary with distinct keys whose values are the duplicate groups
    that [deduplicate_directory] works on; under each digest, at least
    two paths, each the path of a recognised image of the store that
    could be read and whose MD5 digest is the key; and two distinct
    readable images with the same bytes are found together under their
    digest. *)
Theorem analyze_duplicates_groups (w : World) (d : dict (list Path)) (lg : list log_event) :
  analyze_duplicates w = (Ok d, lg) ->
  NoDup (map fst d)
  /\ map snd d = _find_duplicates (store_index (store w))
  /\ (forall h files,
        In (h, files) d ->
        2 <= List.length files
        /\ dict_get d h = Some files
        /\ forall p, In p files ->
             exists a, In a (store w) /\ a_path a = p /\ hashable a = true
                       /\ MD5.hexdigest (a_bytes a) = h)
  /\ (forall a b,
        In a (store w) -> In b (store w) -> a <> b ->
        hashable a = true -> hashable b = true -> a_bytes a = a_bytes b ->
        exists files,
          In (MD5.hexdigest (a_bytes a), files) d
          /\ In (a_path a) files /\ In (a_path b) files).
Proof.
  unfold analyze_duplicates. intros H.
  destruct (_hash_all_files w) as [[hm|e] lg'] eqn:E; [|discriminate].
  inversion H; subst d lg'. clear H.
  destruct (IndexFacts.hash_all_files_ok w hm lg E) as (_ & -> & _).
  assert (Hnd : NoDup (map fst (store_index (store w)))).
  { apply IndexFacts.hash_loop_nodup. constructor. }
  assert (Hnd' : NoDup (map fst (filter (fun e => 1 <? List.length (snd e))
                                        (store_index (store w))))).
  { now apply DryRunFacts.filter_fst_nodup. }
  split; [exact Hnd'|]. split.
  - unfold _find_duplicates.
    exact (DryRunFacts.map_snd_filter (fun files => 1 <? List.length files) _).
  - split.
    + intros h files Hin. pose proof Hin as Hin0.
      apply filter_In in Hin. destruct Hin as [Hin Hlen]. cbn [snd] in Hlen.
      apply Nat.ltb_lt in Hlen. split; [lia|].
      split; [now apply IndexFacts.in_dict_get|].
      assert (G : dict_get (store_index (store w)) h = Some files)
        by (now apply IndexFacts.in_dict_get).
      pose proof (IndexFacts.hash_loop_paths (store w) [] [] h) as P.
      unfold hm_paths in P. fold (store_index (store w)) in P. rewrite G in P.
      cbn [dict_get app] in P. subst files.
      intros p Hp. now apply IndexFacts.paths_of_in.
    + intros a b Ha Hb Hne Fa Fb Eb.
      set (h := MD5.hexdigest (a_bytes a)).
      assert (Ta : hashes_to h a = true).
      { rewrite (IndexFacts.hashes_to_hashable h a Fa). apply String.eqb_refl. }
      assert (Tb : hashes_to h b = true).
      { rewrite (IndexFacts.hashes_to_hashable h b Fb). unfold h. rewrite Eb.
        apply String.eqb_refl. }
      exists (paths_of h (store w)).
      assert (L : 2 <= List.length (paths_of h (store w))).
      { unfold paths_of. rewrite length_map.
        now apply (DryRunFacts.two_members (store w) a b). }
      split; [|split].
      * apply filter_In. split.
        -- assert (N : paths_of h (store w) <> [])
             by (intros N; rewrite N in L; simpl in L; lia).
           pose proof (IndexFacts.hash_loop_paths (store w) [] [] h) as P.
           unfold hm_paths in P. fold (store_index (store w)) in P. cbn [dict_get app] in P.
           destruct (dict_get (store_index (store w)) h) as [ps|] eqn:G; [|congruence].
           subst ps. now apply IndexFacts.dict_get_in.
        -- cbn [snd]. apply Nat.ltb_lt. lia.
      * unfold paths_of. apply in_map. apply filter_In. now split.
      * unfold paths_of. apply in_map. apply filter_In. now split.
Qed.

(** The two photos of scenario A are reported together. *)
Lemma analyze_duplicates_groups_witness :
  NoDup (map fst [("3bdaf5969285188ac756c339f69f5c79"%string,
                   [a_path Examples.photo_a; a_path Examples.photo_b])]).
Proof.
  refine (proj1 (analyze_duplicates_groups Examples.scenario_a
                   [("3bdaf5969285188ac756c339f69f5c79"%string,
                     [a_path Examples.photo_a; a_path Examples.photo_b])] [] _)).
  vm_compute. reflexivity.
Defined.

(* ================================================================= *)
(** ** The counters of the report *)

Module CounterFacts.

Lemma list_sum_cons (x : nat) (l : list nat) : list_sum (x :: l) = x + list_sum l.
Proof. reflexivity. Qed.

Lemma found_plus_keys (hm : dict (list Path)) :
  Forall (fun e => snd e <> []) hm ->
  count_duplicates (_find_duplicates hm) + List.length hm = count_files hm.
Proof.
  unfold count_duplicates, _find_duplicates, count_files.
  induction hm as [|[k ps] hm IH]; intros H; [reflexivity|].
  inversion H as [|? ? Hne Hrest]; subst. specialize (IH Hrest).
  cbn [map snd filter List.length].
  destruct (1 <? List.length ps) eqn:E; cbn [map]; rewrite ?list_sum_cons.
  - apply Nat.ltb_lt in E. lia.
  - apply Nat.ltb_ge in E. destruct ps as [|p ps]; [now cbn in Hne|].
    cbn [List.length] in *. lia.
Qed.

End CounterFacts.

(** X2.  When the walk of the store completes, the duplicates found and
    the distinct digests add up to the files hashed:
    [duplicates_found] is [total_files] minus the number of distinct
    contents, whatever happens later in the run. *)
Theorem duplicates_found_counts_surplus
  (re_sub : string -> string -> string -> py_result string) (w : World) :
  store_walk w = WalkOk ->
  duplicates_found (fst (deduplicate_directory re_sub w))
  + List.length (store_index (store w))
  = total_files (fst (deduplicate_directory re_sub w)).
Proof.
  intros Hs.
  assert (T : count_duplicates (_find_duplicates (store_index (store w)))
              + List.length (store_index (store w))
              = count_files (store_index (store w))).
  { apply CounterFacts.found_plus_keys.
    apply IndexFacts.hash_loop_nonempty. constructor. }
  destruct (run_cases re_sub w)
    as [(n & msg & lg' & E0 & _)
       | [(_ & Hg & E) | (_ & _ & rmap & _ & [(e & _ & E) | (_ & E)])]];
    [congruence | | |]; rewrite E; cbn [fst duplicates_found total_files report];
    try exact T.
  rewrite Hg in T. exact T.
Qed.

(** Scenario A: one duplicate, one digest, two files. *)
Lemma duplicates_found_counts_surplus_witness :
  duplicates_found (fst (deduplicate_directory re_sub_fragment Examples.scenario_a))
  + List.length (store_index (store Examples.scenario_a))
  = total_files (fst (deduplicate_directory re_sub_fragment Examples.scenario_a)).
Proof.
  exact (duplicates_found_counts_surplus re_sub_fragment Examples.scenario_a eq_refl).
Defined.

(** X3.  Every entry of a replacement mapping sends the name of a
    non-canonical member of some group to the name of the canonical
    member of that group; the new name is never longer than the old one,
    and unless the two are equal it comes before the old one in the
    order of the sort key. *)
Theorem replacement_never_longer (groups : list (list Path)) (m : dict string)
  (k v : string) :
  _build_replacement_map groups = Ok m ->
  dict_get m k = Some v ->
  (exists g c d,
      In g groups /\ canonical_of g = Some c /\ In d g
      /\ name d = k /\ name c = v)
  /\ String.length v <= String.length k
  /\ (v = k \/ name_lt v k).
Proof.
  intros Hb Hv. unfold _build_replacement_map in Hb.
  destruct (DictFacts.build_from_get groups [] m k v Hb Hv)
    as [H | (g & c & dups & Hg & Hs & Hk & ->)]; [discriminate|].
  apply in_map_iff in Hk. destruct Hk as (d & <- & Hd).
  assert (Hc : canonical_of g = Some c) by (unfold canonical_of; now rewrite Hs).
  assert (Hdg : In d g).
  { apply (Permutation_in _ (SortFacts.sorted_perm g)). rewrite Hs. now right. }
  pose proof (SortFacts.canonical_least g c d Hc Hdg) as L.
  apply KeyOrder.key_ltb_false in L.
  split; [exists g, c, d; repeat split; assumption|].
  destruct L as [E | L].
  - split; [rewrite E; lia | now left].
  - split; [|now right]. destruct L as [L | [L _]]; lia.
Qed.

(** The mapping of scenario A. *)
Lemma replacement_never_longer_witness :
  String.length "photo_a.png" <= String.length "photo_b.png".
Proof.
  exact (proj1 (proj2 (replacement_never_longer
                         [[a_path Examples.photo_a; a_path Examples.photo_b]]
                         [("photo_b.png", "photo_a.png")]%string
                         "photo_b.png" "photo_a.png" eq_refl eq_refl))).
Defined.

(* ================================================================= *)
(** ** The report names the canonical file of the mapping *)

Module ReportFacts.

(** The canonical member, from the head of the group on. *)
Lemma canonical_cons (x : Path) (l : list Path) :
  canonical_of (x :: l)
  = match canonical_of l with
    | None => Some x
    | Some c => if key_ltb c x then Some c else Some x
    end.
Proof.
  unfold canonical_of. cbn [sorted_by_key].
  destruct (sorted_by_key l) as [|c rest]; cbn [insert_by_key hd_error]; [reflexivity|].
  now destruct (key_ltb c x).
Qed.

Lemma min_from_canonical (l : list Path) :
  forall best,
    min_from best l
    = match canonical_of l with
      | None => best
      | Some c => if key_ltb c best then c else best
      end.
Proof.
  induction l as [|x l IH]; intros best; [reflexivity|].
  cbn [min_from]. rewrite IH, canonical_cons.
  destruct (canonical_of l) as [c|].
  - destruct (key_ltb x best) eqn:Exb.
    + destruct (key_ltb c x) eqn:Ecx; [|now rewrite Exb].
      assert (Ecb : key_ltb c best = true).
      { apply KeyOrder.key_ltb_spec.
        apply KeyOrder.name_lt_trans with (b := name x); now apply KeyOrder.key_ltb_spec. }
      now rewrite Ecb.
    + destruct (key_ltb c x) eqn:Ecx; [reflexivity|].
      rewrite Exb. now rewrite (KeyOrder.key_leb_trans best x c Exb Ecx).
  - reflexivity.
Qed.

Lemma filter_perm {A : Type} (f : A -> bool) (l l' : list A) :
  Permutation l l' -> Permutation (filter f l) (filter f l').
Proof.
  induction 1 as [|x l l' _ IH|x y l|l l' l'' _ IH1 _ IH2]; cbn [filter].
  - constructor.
  - destruct (f x); [now constructor | exact IH].
  - destruct (f x), (f y); try reflexivity. apply perm_swap.
  - now transitivity (filter f l').
Qed.

End ReportFacts.

(** X4.  [generate_report] and [_build_replacement_map] agree on the
    canonical file of a group: the member that [min] returns with the
    sort key is the one that heads the sorted group, and in a group
    without repeated paths the files that the report lists as
    duplicates are the files that the mapping renames. *)
Theorem report_names_canonical (group : list Path) (c : Path) :
  min_by_key group = Ok c ->
  canonical_of group = Some c
  /\ (NoDup group ->
      exists duplicates,
        sorted_by_key group = c :: duplicates
        /\ Permutation (report_duplicates group c) duplicates).
Proof.
  destruct group as [|x l]; cbn [min_by_key]; [discriminate|].
  intros H. inversion H; subst c. clear H.
  assert (Hc : canonical_of (x :: l) = Some (min_from x l)).
  { rewrite ReportFacts.min_from_canonical, ReportFacts.canonical_cons.
    now destruct (canonical_of l) as [c|]; [destruct (key_ltb c x)|]. }
  split; [exact Hc|]. intros Hnd.
  unfold canonical_of in Hc.
  destruct (sorted_by_key (x :: l)) as [|c dups] eqn:Hs; [discriminate|].
  cbn [hd_error] in Hc. inversion Hc; subst c. exists dups. split; [reflexivity|].
  assert (Hnd' : NoDup (min_from x l :: dups)).
  { rewrite <- Hs.
    exact (Permutation_NoDup (Permutation_sym (SortFacts.sorted_perm (x :: l))) Hnd). }
  inversion Hnd' as [|? ? Hout _]; subst.
  unfold report_duplicates.
  assert (P : Permutation
                (filter (fun f => negb (Path_eqb f (min_from x l))) (x :: l))
                (filter (fun f => negb (Path_eqb f (min_from x l)))
                   (min_from x l :: dups))).
  { apply ReportFacts.filter_perm. rewrite <- Hs. symmetry. apply SortFacts.sorted_perm. }
  rewrite P. cbn [filter].
  assert (R : Path_eqb (min_from x l) (min_from x l) = true)
    by (now apply GcFacts.Path_eqb_true).
  rewrite R. cbn [negb].
  rewrite forallb_filter_id; [reflexivity|].
  apply forallb_forall. intros f Hf. apply negb_true_iff.
  destruct (Path_eqb f (min_from x l)) eqn:E; [|reflexivity].
  apply GcFacts.Path_eqb_true in E. subst f. contradiction.
Qed.

(** The group of scenario A, in the order that puts the canonical file
    last. *)
Lemma report_names_canonical_witness :
  canonical_of [a_path Examples.photo_b; a_path Examples.photo_a]
  = Some (a_path Examples.photo_a).
Proof.
  exact (proj1 (report_names_canonical
                  [a_path Examples.photo_b; a_path Examples.photo_a]
                  (a_path Examples.photo_a) eq_refl)).
Defined.

(* ================================================================= *)
(** ** What a removal reclaims *)

Module ReclaimFacts.

Lemma total_size_cons (a : asset) (st : list asset) :
  total_size (a :: st) = List.length (a_bytes a) + total_size st.
Proof. reflexivity. Qed.

Lemma unlink_absent (p : Path) (st : list asset) :
  ~ In p (map a_path st) -> unlink p st = st.
Proof.
  intros H. unfold unlink. rewrite forallb_filter_id; [reflexivity|].
  apply forallb_forall. intros a Ha. apply negb_true_iff.
  destruct (Path_eqb (a_path a) p) eqn:E; [|reflexivity].
  apply GcFacts.Path_eqb_true in E. exfalso. apply H. rewrite <- E. now apply in_map.
Qed.

Lemma unlink_nodup (p : Path) (st : list asset) :
  NoDup (map a_path st) -> NoDup (map a_path (unlink p st)).
Proof.
  induction st as [|b st IH]; cbn [unlink filter map]; intros H; [constructor|].
  inversion H as [|? ? Hb Hrest]; subst.
  destruct (negb (Path_eqb (a_path b) p)); cbn [map]; [|now apply IH].
  constructor; [|now apply IH].
  intros Hin. apply Hb. apply in_map_iff in Hin. destruct Hin as (a & E & Ha).
  apply RemoveFacts.unlink_in in Ha. apply in_map_iff. exists a. tauto.
Qed.

(** In a store where a path names one entry, [unlink] takes away the
    entry found and nothing else. *)
Lemma unlink_found (p : Path) (st : list asset) (a : asset) :
  NoDup (map a_path st) -> find_asset p st = Some a ->
  S (List.length (unlink p st)) = List.length st
  /\ total_size (unlink p st) + List.length (a_bytes a) = total_size st.
Proof.
  induction st as [|b st IH]; cbn [find_asset]; intros H Hf; [discriminate|].
  inversion H as [|? ? Hb Hrest]; subst.
  destruct (Path_eqb (a_path b) p) eqn:E.
  - inversion Hf; subst b. apply GcFacts.Path_eqb_true in E. subst p.
    assert (U : unlink (a_path a) (a :: st) = st).
    { unfold unlink. cbn [filter].
      assert (R : Path_eqb (a_path a) (a_path a) = true)
        by (now apply GcFacts.Path_eqb_true).
      rewrite R. cbn [negb]. now apply unlink_absent. }
    rewrite U, total_size_cons. cbn [List.length]. lia.
  - destruct (IH Hrest Hf) as [L T].
    assert (U : unlink p (b :: st) = b :: unlink p st).
    { unfold unlink. cbn [filter]. now rewrite E. }
    rewrite U, !total_size_cons. cbn [List.length]. lia.
Qed.

(** Every file to remove is removed or logged; every removal is one
    [unlink]. *)
Lemma remove_loop_counts (paths : list Path) :
  forall st,
    r_removed (remove_loop paths st) + List.length (r_log (remove_loop paths st))
    = List.length paths
    /\ r_removed (remove_loop paths st) = List.length (r_ops (remove_loop paths st)).
Proof.
  induction paths as [|p paths IH]; intros st; cbn [remove_loop].
  - split; reflexivity.
  - destruct (find_asset p st) as [b|].
    + destruct (a_unlink_error b);
        cbn [r_removed r_log r_ops List.length].
      * destruct (IH st). split; lia.
      * destruct (IH (unlink p st)). split; lia.
    + cbn [r_removed r_log r_ops List.length]. destruct (IH st). split; lia.
Qed.

Lemma remove_loop_conserves (paths : list Path) :
  forall st,
    NoDup (map a_path st) ->
    List.length (r_store (remove_loop paths st)) + r_removed (remove_loop paths st)
    = List.length st
    /\ total_size (r_store (remove_loop paths st)) + r_bytes (remove_loop paths st)
       = total_size st.
Proof.
  induction paths as [|p paths IH]; intros st Hnd; cbn [remove_loop].
  - cbn [r_store r_removed r_bytes]. split; lia.
  - destruct (find_asset p st) as [b|] eqn:Ef.
    + destruct (a_unlink_error b); cbn [r_store r_removed r_bytes].
      * now apply IH.
      * destruct (IH (unlink p st) (unlink_nodup p st Hnd)) as [L T].
        destruct (unlink_found p st b Hnd Ef) as [L' T']. split; lia.
    + cbn [r_store r_removed r_bytes]. now apply IH.
Qed.

End ReclaimFacts.

(** X5.  In a store where a path names one entry, the report accounts
    for what the run took away: the files left and the duplicates
    removed add up to the files there were, and [bytes_saved] is the
    size of the store before the run minus its size after.  This holds
    however the run ends. *)
Theorem bytes_saved_is_space_reclaimed
  (re_sub : string -> string -> string -> py_result string) (w : World) :
  NoDup (map a_path (store w)) ->
  List.length (store (snd (deduplicate_directory re_sub w)))
  + duplicates_removed (fst (deduplicate_directory re_sub w))
  = List.length (store w)
  /\ total_size (store (snd (deduplicate_directory re_sub w)))
     + bytes_saved (fst (deduplicate_directory re_sub w))
     = total_size (store w).
Proof.
  intros Hnd.
  destruct (run_cases re_sub w)
    as [(n & msg & lg' & _ & E)
       | [(_ & _ & E) | (_ & _ & rmap & _ & [(e & _ & E) | (_ & E)])]];
    rewrite E; cbn [fst snd store duplicates_removed bytes_saved report];
    try (split; lia).
  now apply ReclaimFacts.remove_loop_conserves.
Qed.

(** Scenario A: two files of four bytes, one removed. *)
Lemma bytes_saved_is_space_reclaimed_witness :
  List.length (store (snd (deduplicate_directory re_sub_fragment Examples.scenario_a)))
  + duplicates_removed (fst (deduplicate_directory re_sub_fragment Examples.scenario_a))
  = List.length (store Examples.scenario_a).
Proof.
  refine (proj1 (bytes_saved_is_space_reclaimed re_sub_fragment Examples.scenario_a _)).
  simpl. repeat constructor; simpl; intuition discriminate.
Defined.

(* ================================================================= *)
(** ** What the rewriter leaves alone *)

Section FrameFacts.

Variable re_sub : string -> string -> string -> py_result string.



(** The paths and the access rights of the entries stay as they were. *)
Lemma update_loop_shape (rmap : dict string) (notes : list note) :
  forall wk,
    map n_path (u_corpus (update_loop re_sub rmap wk notes)) = map n_path notes
    /\ map n_read_error (u_corpus (update_loop re_sub rmap wk notes))
       = map n_read_error notes
    /\ map n_write_error (u_corpus (update_loop re_sub rmap wk notes))
       = map n_write_error notes.
Proof.
  induction notes as [|n notes IH]; intros wk.
  - destruct wk; repeat split.
  - destruct (update_loop_cases re_sub rmap wk n notes)
      as [[_ E] | [[_ (msg & _ & E)] | [_ E]]]; rewrite E; clear E.
    + destruct (IH wk) as (H1 & H2 & H3). cbn [passed u_corpus map].
      now rewrite H1, H2, H3.
    + repeat split.
    + destruct (IH (walk_tick wk)) as (H1 & H2 & H3).
      destruct (update_note re_sub rmap n); cbn [after_note passed u_corpus map set_text
                                                  n_path n_read_error n_write_error];
        now rewrite H1, H2, H3.
Qed.


End FrameFacts.

Section UpdatedFacts.

Variable re_sub : string -> string -> string -> py_result string.



End UpdatedFacts.



(* ================================================================= *)
(** ** A run on a flat store *)

Module FlatFacts.

(** With distinct names overall, the canonical name of a group is no
    key of the mapping. *)
Lemma canonical_not_key (groups : list (list Path)) (m : dict string)
  (g : list Path) (c : Path) :
  NoDup (map name (concat groups)) ->
  _build_replacement_map groups = Ok m ->
  In g groups -> canonical_of g = Some c ->
  dict_mem m (name c) = false.
Proof.
  intros Hnd Hb Hg Hc. unfold _build_replacement_map in Hb.
  destruct (dict_mem m (name c)) eqn:E; [|reflexivity]. exfalso.
  apply DictFacts.mem_true in E. destruct E as (v & Hv).
  destruct (DictFacts.build_from_get groups [] m (name c) v Hb Hv)
    as [H | (g' & c' & dups' & Hg' & Hs' & Hin & _)]; [discriminate|].
  unfold canonical_of in Hc.
  destruct (sorted_by_key g) as [|c0 dups] eqn:Hs; inversion Hc; subst c0.
  exact (GroupFacts.canonical_not_duplicate groups g g' c c' dups dups'
           Hnd Hg Hs Hg' Hs' Hin).
Qed.

(** In a flat store a name is the name of one hashed file. *)
Lemma flat_same_file (st : list asset) (a b : asset) :
  NoDup (map (fun a => name (a_path a)) (filter hashable st)) ->
  In a st -> In b st -> hashable a = true -> hashable b = true ->
  name (a_path a) = name (a_path b) -> a = b.
Proof.
  intros Hnd Ha Hb Fa Fb E.
  apply (GroupFacts.NoDup_map_inj (fun a => name (a_path a)) (filter hashable st));
    try assumption; apply filter_In; now split.
Qed.

(** So a path that is indexed under [h] is in no other entry. *)
Lemma flat_one_entry (st : list asset) (h : string) (g : list Path) (c : Path) :
  NoDup (map (fun a => name (a_path a)) (filter hashable st)) ->
  In g (map snd (store_index st)) -> In c g -> In c (paths_of h st) ->
  g = paths_of h st.
Proof.
  intros Hnd Hg Hcg Hc.
  destruct (IndexFacts.index_entry st g Hg) as (h' & -> & _).
  apply IndexFacts.paths_of_in in Hcg, Hc.
  destruct Hcg as (b & Hb & Pb & Fb & Db). destruct Hc as (a & Ha & Pa & Fa & Da).
  assert (E : a = b).
  { apply (flat_same_file st a b Hnd Ha Hb Fa Fb). now rewrite Pa, Pb. }
  subst b. congruence.
Qed.

(** The canonical path under a digest is never a file to remove. *)
Lemma canonical_not_removed (st : list asset) (rmap : dict string) (h : string) (c : Path) :
  NoDup (map (fun a => name (a_path a)) (filter hashable st)) ->
  _build_replacement_map (_find_duplicates (store_index st)) = Ok rmap ->
  canonical_of (paths_of h st) = Some c ->
  ~ In c (files_to_remove (_find_duplicates (store_index st)) rmap).
Proof.
  intros Hnd Hb Hc Hin.
  apply RemoveFacts.files_to_remove_in in Hin. destruct Hin as [(g & Hg & Hcg) Hk].
  pose proof Hg as Hg0. apply IndexFacts.group_in_index in Hg. destruct Hg as [Hg _].
  assert (E : g = paths_of h st).
  { apply (flat_one_entry st h g c Hnd Hg Hcg). now apply SortFacts.canonical_in. }
  subst g.
  rewrite (canonical_not_key _ rmap _ c
             (FlatStore.flat_store_distinct_names st Hnd) Hb Hg0 Hc) in Hk.
  discriminate.
Qed.

Lemma length_one_or_less {A : Type} (l : list A) (x : A) :
  In x l -> List.length l <= 1 -> l = [x].
Proof.
  destruct l as [|y [|z l]]; cbn; intros Hin Hl.
  - contradiction.
  - destruct Hin as [-> | []]. reflexivity.
  - lia.
Qed.

(** The number of files to remove is the number of duplicates found. *)
Lemma files_to_remove_length (groups : list (list Path)) (m : dict string) :
  NoDup (map name (concat groups)) ->
  _build_replacement_map groups = Ok m ->
  List.length (files_to_remove groups m) = count_duplicates groups.
Proof.
  intros Hnd Hb.
  assert (G : forall g, In g groups ->
                        List.length (filter (fun f => dict_mem m (name f)) g)
                        = List.length g - 1).
  { intros g Hg.
    pose proof (SortFacts.sorted_perm g) as P.
    destruct (sorted_by_key g) as [|c dups] eqn:Hs.
    - apply Permutation_nil in P. now subst g.
    - rewrite <- (Permutation_length P).
      rewrite <- (Permutation_length
                    (ReportFacts.filter_perm (fun f => dict_mem m (name f)) _ _ P)).
      cbn [filter List.length].
      assert (Hc : canonical_of g = Some c) by (unfold canonical_of; now rewrite Hs).
      rewrite (canonical_not_key groups m g c Hnd Hb Hg Hc).
      rewrite forallb_filter_id; [lia|].
      apply forallb_forall. intros d Hd.
      now apply (DictFacts.build_from_mem groups [] m g c dups d Hb Hg Hs). }
  unfold files_to_remove, count_duplicates.
  assert (L : forall gs, (forall g, In g gs -> In g groups) ->
                         List.length (filter (fun f => dict_mem m (name f)) (concat gs))
                         = list_sum (map (fun group => List.length group - 1) gs)).
  { induction gs as [|g gs IH]; intros Hin; [reflexivity|].
    cbn [concat map]. rewrite filter_app, length_app, CounterFacts.list_sum_cons.
    rewrite (G g) by (apply Hin; now left).
    rewrite IH; [reflexivity|]. intros g' Hg'. apply Hin. now right. }
  apply L. auto.
Qed.

(** When the paths are distinct, each names a file, and no [unlink]
    fails, every path is removed. *)
Lemma remove_loop_all (paths : list Path) :
  forall st,
    NoDup paths ->
    (forall p, In p paths -> exists a, In a st /\ a_path a = p) ->
    (forall a, In a st -> a_unlink_error a = None) ->
    r_removed (remove_loop paths st) = List.length paths.
Proof.
  induction paths as [|p paths IH]; intros st Hnd Hex Hok; [reflexivity|].
  inversion Hnd as [|? ? Hp Hrest]; subst. cbn [remove_loop].
  destruct (find_asset p st) as [b|] eqn:Ef.
  - destruct (GcFacts.find_asset_some p st b Ef) as [Hb _].
    rewrite (Hok b Hb). cbn [r_removed List.length]. f_equal.
    apply IH; [exact Hrest | |].
    + intros q Hq. destruct (Hex q (or_intror Hq)) as (a & Ha & Ea).
      exists a. split; [|exact Ea]. apply RemoveFacts.unlink_in.
      split; [exact Ha|]. intros E. apply Hp. congruence.
    + intros a Ha. apply Hok. now apply RemoveFacts.unlink_in in Ha.
  - exfalso. destruct (Hex p (or_introl eq_refl)) as (a & Ha & Ea).
    exact (proj1 (GcFacts.find_asset_none p st) Ef a Ha Ea).
Qed.

End FlatFacts.

(** X7.  The merge property.  In a flat store (the hashed files have
    pairwise distinct names), when both walks complete and no [unlink]
    fails, a run leaves exactly one file of every content that it
    indexed: under each digest, the one path left is the canonical
    member of the files that shared the digest. *)
Theorem one_survivor_per_content
  (re_sub : string -> string -> string -> py_result string)
  (w : World) (h : string) (c : Path) :
  store_walk w = WalkOk ->
  corpus_walk w = WalkOk ->
  (forall a, In a (store w) -> a_unlink_error a = None) ->
  NoDup (map (fun a => name (a_path a)) (filter hashable (store w))) ->
  canonical_of (paths_of h (store w)) = Some c ->
  paths_of h (store (snd (deduplicate_directory re_sub w))) = [c].
Proof.
  intros Hs Hcw Hok Hflat Hc.
  pose proof (SortFacts.canonical_in _ _ Hc) as Hin.
  destruct (run_cases re_sub w)
    as [(n & msg & lg' & E0 & _)
       | [(_ & Hg & E) | (_ & _ & rmap & Hb & [(e & Hr & _) | (_ & E)])]].
  - congruence.
  - rewrite E. cbn [snd store].
    apply FlatFacts.length_one_or_less; [exact Hin|].
    assert (N : paths_of h (store w) <> []) by (intros N; rewrite N in Hin; contradiction).
    pose proof (IndexFacts.index_has (store w) h N) as Hi.
    destruct (Nat.le_gt_cases (List.length (paths_of h (store w))) 1) as [L | L];
      [exact L|].
    exfalso.
    assert (In (paths_of h (store w)) (_find_duplicates (store_index (store w))))
      by (apply IndexFacts.group_in_index; now split).
    rewrite Hg in H. contradiction.
  - exfalso. unfold _update_markdown_links in Hr.
    rewrite Hcw, update_loop_walk_ok in Hr. discriminate.
  - rewrite E. cbn [snd store]. unfold _remove_duplicates.
    rewrite IdempotenceFacts.remove_loop_kept by exact Hok.
    apply FlatFacts.length_one_or_less.
    + apply IndexFacts.paths_of_in in Hin.
      destruct Hin as (a & Ha & Pa & Fa & Da).
      unfold paths_of. rewrite <- Pa. apply in_map. apply filter_In. split.
      * apply filter_In. split; [exact Ha|]. unfold kept. apply negb_true_iff.
        destruct (existsb (Path_eqb (a_path a))
                    (files_to_remove (_find_duplicates (store_index (store w))) rmap))
          eqn:Ex; [|reflexivity].
        exfalso. apply existsb_exists in Ex. destruct Ex as (q & Hq & Eq).
        apply GcFacts.Path_eqb_true in Eq. subst q. rewrite Pa in Hq.
        exact (FlatFacts.canonical_not_removed (store w) rmap h c Hflat Hb Hc Hq).
      * rewrite (IndexFacts.hashes_to_hashable h a Fa). now apply String.eqb_eq.
    + now apply IdempotenceFacts.one_file_per_hash.
Qed.

(** Scenario A: [photo_a.png] is what is left of the two photos. *)
Lemma one_survivor_per_content_witness :
  paths_of "3bdaf5969285188ac756c339f69f5c79"
    (store (snd (deduplicate_directory re_sub_fragment Examples.scenario_a)))
  = [a_path Examples.photo_a].
Proof.
  apply one_survivor_per_content.
  - reflexivity.
  - reflexivity.
  - intros a [<- | [<- | []]]; reflexivity.
  - vm_compute. repeat constructor; simpl; intuition discriminate.
  - vm_compute. reflexivity.
Defined.

(** X8.  In a flat store, when both walks complete, a run never
    removes more files than it reports as duplicates, and it removes
    exactly that many when no [unlink] fails. *)
Theorem removed_matches_found
  (re_sub : string -> string -> string -> py_result string) (w : World) :
  store_walk w = WalkOk ->
  corpus_walk w = WalkOk ->
  NoDup (map (fun a => name (a_path a)) (filter hashable (store w))) ->
  duplicates_removed (fst (deduplicate_directory re_sub w))
  <= duplicates_found (fst (deduplicate_directory re_sub w))
  /\ ((forall a, In a (store w) -> a_unlink_error a = None) ->
      duplicates_removed (fst (deduplicate_directory re_sub w))
      = duplicates_found (fst (deduplicate_directory re_sub w))).
Proof.
  intros Hs Hcw Hflat.
  destruct (run_cases re_sub w)
    as [(n & msg & lg' & E0 & _)
       | [(_ & Hg & E) | (_ & _ & rmap & Hb & [(e & Hr & _) | (_ & E)])]].
  - congruence.
  - rewrite E. cbn [fst duplicates_removed duplicates_found report]. split; [lia | reflexivity].
  - exfalso. unfold _update_markdown_links in Hr.
    rewrite Hcw, update_loop_walk_ok in Hr. discriminate.
  - rewrite E. cbn [fst duplicates_removed duplicates_found report].
    pose proof (FlatStore.flat_store_distinct_names (store w) Hflat) as Hnd.
    pose proof (FlatFacts.files_to_remove_length _ rmap Hnd Hb) as L.
    unfold _remove_duplicates. split.
    + destruct (ReclaimFacts.remove_loop_counts
                  (files_to_remove (_find_duplicates (store_index (store w))) rmap)
                  (store w)) as [C _].
      lia.
    + intros Hok. rewrite <- L. apply FlatFacts.remove_loop_all; [| |exact Hok].
      * unfold files_to_remove. apply NoDup_filter. now apply NoDup_map_inv in Hnd.
      * intros p Hp. apply RemoveFacts.files_to_remove_in in Hp.
        destruct Hp as [(g & Hg & Hpg) _].
        apply IndexFacts.group_in_index in Hg. destruct Hg as [Hg _].
        destruct (IndexFacts.index_entry (store w) g Hg) as (k & -> & _).
        apply IndexFacts.paths_of_in in Hpg. destruct Hpg as (a & Ha & Pa & _).
        now exists a.
Qed.

(** Scenario A: one duplicate found, one removed. *)
Lemma removed_matches_found_witness :
  duplicates_removed (fst (deduplicate_directory re_sub_fragment Examples.scenario_a))
  <= duplicates_found (fst (deduplicate_directory re_sub_fragment Examples.scenario_a)).
Proof.
  refine (proj1 (removed_matches_found re_sub_fragment Examples.scenario_a _ _ _)).
  - reflexivity.
  - reflexivity.
  - vm_compute. repeat constructor; simpl; intuition discriminate.
Defined.

(* ================================================================= *)
(** ** Invariants of the image loop *)

Module IngestFacts.

Import Transformer.

(** What one pass through the body of the loop does to the state. *)
Lemma process_image_cases (base_name : string) (dl : bool) (st : ingest) (i : img) :
  process_image base_name dl st i = st
  \/ (exists msg, process_image base_name dl st i = warn st msg (i_external st))
  \/ (exists msg, dl = true
                  /\ process_image base_name dl st i = warn st msg (S (i_external st)))
  \/ (exists e, process_image base_name dl st i = raise st e)
  \/ (exists data ext,
         process_image base_name dl st i
         = stored st i (_hashed_filename base_name data ext) data
             (S (i_extracted st)) (i_external st))
  \/ (exists data ext,
         dl = true
         /\ process_image base_name dl st i
            = stored st i (_hashed_filename base_name data ext) data
                (i_extracted st) (S (i_external st))).
Proof.
  unfold process_image.
  destruct (src i) as [|c s] eqn:Es; [now left|].
  destruct (PyStr.startswith "data:image" (String c s)).
  - destruct (_decode_base64 i) as [[|b data]|].
    + right; left. eexists. reflexivity.
    + destruct (write_error i) as [e|].
      * right; right; right; left. now exists e.
      * right; right; right; right; left. eexists. eexists. reflexivity.
    + right; left. eexists. reflexivity.
  - destruct (PyStr.startswith "http" (String c s)); cbn [andb]; [|now left].
    destruct dl; [|now left].
    destruct (fetched i) as [resp | e].
    + destruct (write_error i) as [e|].
      * right; right; left. eexists. split; reflexivity.
      * right; right; right; right; right. eexists. eexists. split; reflexivity.
    + right; right; left. eexists. split; reflexivity.
Qed.

(** A property kept by the body of the loop is kept by the loop. *)
Lemma process_loop_keeps (P : ingest -> Prop) (base_name : string) (dl : bool)
  (imgs : list img) :
  forall st,
    (forall st i, In i imgs -> P st -> P (process_image base_name dl st i)) ->
    P st -> P (process_loop base_name dl st imgs).
Proof.
  induction imgs as [|i rest IH]; intros st Hstep Hst; [exact Hst|].
  cbn [process_loop].
  assert (H1 : P (process_image base_name dl st i)) by (apply Hstep; [now left | exact Hst]).
  destruct (i_raised (process_image base_name dl st i)); [exact H1|].
  apply IH; [|exact H1]. intros st' j Hj. apply Hstep. now right.
Qed.

Lemma mem_set_same {V : Type} (d : dict V) (k : string) (v : V) :
  dict_mem (dict_set d k v) k = true.
Proof. unfold dict_mem. now rewrite DictFacts.get_set_same. Qed.

Lemma mem_set_keeps {V : Type} (d : dict V) (k k' : string) (v : V) :
  dict_mem d k' = true -> dict_mem (dict_set d k v) k' = true.
Proof.
  intros H. destruct (string_dec k k') as [-> | Hne].
  - apply mem_set_same.
  - unfold dict_mem in *. now rewrite DictFacts.get_set_other.
Qed.

Lemma set_length {V : Type} (d : dict V) (k : string) (v : V) :
  List.length (dict_set d k v) <= S (List.length d).
Proof.
  induction d as [|[k' v'] d IH]; cbn [dict_set List.length]; [lia|].
  destruct (String.eqb k' k); cbn [List.length]; lia.
Qed.

End IngestFacts.

(** X9.  What [_process_images] leaves behind.  Every file that was in
    the attachment directory is still there (the loop only writes); and
    every entry of [image_map] has the [src] of one of the [img] tags as
    its key and, as its value, a name built by [_hashed_filename] from
    the stem of the note, under which the directory holds a file. *)
Theorem image_map_points_to_files
  (imgs : list Transformer.img) (base_name : string)
  (files : dict (list byte)) (download_external : bool) :
  let r := Transformer._process_images imgs base_name files download_external in
  (forall f, dict_mem files f = true -> dict_mem (Transformer.i_files r) f = true)
  /\ (forall s f,
         dict_get (Transformer.i_image_map r) s = Some f ->
         (exists i, In i imgs /\ Transformer.src i = s)
         /\ (exists data ext, f = Transformer._hashed_filename base_name data ext)
         /\ dict_mem (Transformer.i_files r) f = true).
Proof.
  intros r. unfold r, Transformer._process_images.
  apply (IngestFacts.process_loop_keeps
           (fun st =>
              (forall f, dict_mem files f = true -> dict_mem (Transformer.i_files st) f = true)
              /\ (forall s f,
                     dict_get (Transformer.i_image_map st) s = Some f ->
                     (exists i, In i imgs /\ Transformer.src i = s)
                     /\ (exists data ext, f = Transformer._hashed_filename base_name data ext)
                     /\ dict_mem (Transformer.i_files st) f = true))).
  - intros st i Hi [Hf Hm].
    destruct (IngestFacts.process_image_cases base_name download_external st i)
      as [E | [(msg & E) | [(msg & _ & E) | [(e & E) | [(data & ext & E) | (data & ext & _ & E)]]]]];
      rewrite E; try (split; assumption).
    + cbn [Transformer.stored Transformer.i_files Transformer.i_image_map]. split.
      * intros f H. apply IngestFacts.mem_set_keeps. now apply Hf.
      * intros s f H. destruct (string_dec (Transformer.src i) s) as [Es | Hne].
        -- subst s. rewrite DictFacts.get_set_same in H. inversion H; subst f.
           split; [now exists i|]. split; [now exists data, ext|].
           apply IngestFacts.mem_set_same.
        -- rewrite DictFacts.get_set_other in H by exact Hne.
           destruct (Hm s f H) as (K1 & K2 & K3).
           split; [exact K1|]. split; [exact K2|].
           now apply IngestFacts.mem_set_keeps.
    + cbn [Transformer.stored Transformer.i_files Transformer.i_image_map]. split.
      * intros f H. apply IngestFacts.mem_set_keeps. now apply Hf.
      * intros s f H. destruct (string_dec (Transformer.src i) s) as [Es | Hne].
        -- subst s. rewrite DictFacts.get_set_same in H. inversion H; subst f.
           split; [now exists i|]. split; [now exists data, ext|].
           apply IngestFacts.mem_set_same.
        -- rewrite DictFacts.get_set_other in H by exact Hne.
           destruct (Hm s f H) as (K1 & K2 & K3).
           split; [exact K1|]. split; [exact K2|].
           now apply IngestFacts.mem_set_keeps.
  - split; [auto|]. intros s f H. discriminate.
Qed.

(** X10.  The counters of [_process_images].  Every write is counted,
    and every counted image was either written or warned about; an
    [img] tag is counted at most once and adds at most one warning;
    [image_map] has at most one entry per write; and with downloads
    switched off nothing is counted as external. *)
Theorem image_counters
  (imgs : list Transformer.img) (base_name : string)
  (files : dict (list byte)) (download_external : bool) :
  let r := Transformer._process_images imgs base_name files download_external in
  List.length (Transformer.i_ops r) <= Transformer.i_extracted r + Transformer.i_external r
  /\ Transformer.i_extracted r + Transformer.i_external r
     <= List.length (Transformer.i_ops r) + List.length (Transformer.i_warnings r)
  /\ Transformer.i_extracted r <= List.length (Transformer.i_ops r)
  /\ List.length (Transformer.i_ops r) + List.length (Transformer.i_warnings r)
     <= List.length imgs
  /\ List.length (Transformer.i_image_map r) <= List.length (Transformer.i_ops r)
  /\ (download_external = false -> Transformer.i_external r = 0).
Proof.
  intros r. unfold r, Transformer._process_images.
  assert (G : forall l st,
             let r := Transformer.process_loop base_name download_external st l in
             List.length (Transformer.i_ops st) <= List.length (Transformer.i_ops r)
             /\ List.length (Transformer.i_ops r) + Transformer.i_extracted st + Transformer.i_external st
                <= Transformer.i_extracted r + Transformer.i_external r + List.length (Transformer.i_ops st)
             /\ Transformer.i_extracted r + Transformer.i_external r
                + List.length (Transformer.i_ops st) + List.length (Transformer.i_warnings st)
                <= List.length (Transformer.i_ops r) + List.length (Transformer.i_warnings r)
                   + Transformer.i_extracted st + Transformer.i_external st
             /\ Transformer.i_extracted r + List.length (Transformer.i_ops st)
                <= List.length (Transformer.i_ops r) + Transformer.i_extracted st
             /\ List.length (Transformer.i_ops r) + List.length (Transformer.i_warnings r)
                <= List.length l + List.length (Transformer.i_ops st)
                   + List.length (Transformer.i_warnings st)
             /\ List.length (Transformer.i_image_map r) + List.length (Transformer.i_ops st)
                <= List.length (Transformer.i_ops r) + List.length (Transformer.i_image_map st)
             /\ (download_external = false ->
                 Transformer.i_external r = Transformer.i_external st)).
  { induction l as [|i rest IH]; intros st; cbn zeta.
    - cbn [Transformer.process_loop List.length]. repeat split; lia.
    - cbn [Transformer.process_loop List.length].
      assert (S1 :
        let s1 := Transformer.process_image base_name download_external st i in
        List.length (Transformer.i_ops st) <= List.length (Transformer.i_ops s1)
        /\ List.length (Transformer.i_ops s1) + Transformer.i_extracted st + Transformer.i_external st
           <= Transformer.i_extracted s1 + Transformer.i_external s1 + List.length (Transformer.i_ops st)
        /\ Transformer.i_extracted s1 + Transformer.i_external s1
           + List.length (Transformer.i_ops st) + List.length (Transformer.i_warnings st)
           <= List.length (Transformer.i_ops s1) + List.length (Transformer.i_warnings s1)
              + Transformer.i_extracted st + Transformer.i_external st
        /\ Transformer.i_extracted s1 + List.length (Transformer.i_ops st)
           <= List.length (Transformer.i_ops s1) + Transformer.i_extracted st
        /\ List.length (Transformer.i_ops s1) + List.length (Transformer.i_warnings s1)
           <= 1 + List.length (Transformer.i_ops st) + List.length (Transformer.i_warnings st)
        /\ List.length (Transformer.i_image_map s1) + List.length (Transformer.i_ops st)
           <= List.length (Transformer.i_ops s1) + List.length (Transformer.i_image_map st)
        /\ (download_external = false ->
            Transformer.i_external s1 = Transformer.i_external st)).
      { cbn zeta.
        destruct (IngestFacts.process_image_cases base_name download_external st i)
          as [E | [(msg & E) | [(msg & D & E) | [(e & E) | [(data & ext & E) | (data & ext & D & E)]]]]];
          rewrite E;
          cbn [Transformer.warn Transformer.raise Transformer.stored
               Transformer.i_ops Transformer.i_extracted Transformer.i_external
               Transformer.i_warnings Transformer.i_image_map];
          rewrite ?length_app; cbn [List.length];
          try pose proof (IngestFacts.set_length (Transformer.i_image_map st)
                            (Transformer.src i) (Transformer._hashed_filename base_name data ext));
          repeat split; try lia; intros D'; congruence. }
      cbn zeta in S1.
      destruct (Transformer.i_raised (Transformer.process_image base_name download_external st i)).
      + destruct S1 as (A1 & A2 & A3 & A4 & A5 & A6 & A7).
        repeat split; try lia; exact A7.
      + specialize (IH (Transformer.process_image base_name download_external st i)).
        cbn zeta in IH.
        destruct S1 as (A1 & A2 & A3 & A4 & A5 & A6 & A7).
        destruct IH as (B1 & B2 & B3 & B4 & B5 & B6 & B7).
        repeat split; try lia. intros D. rewrite B7, A7; auto. }
  specialize (G imgs (Transformer.start files)). cbn zeta in G.
  cbn [Transformer.start Transformer.i_ops Transformer.i_extracted Transformer.i_external
       Transformer.i_warnings Transformer.i_image_map List.length] in G.
  destruct G as (B1 & B2 & B3 & B4 & B5 & B6 & B7).
  repeat split; try lia. exact B7.
Qed.

(* ================================================================= *)
(** ** The names the ingestor gives, as the deduplicator reads them *)

Module NameFacts.

Import Transformer.

(** The last dot of [p ++ "." ++ t], when [t] has none. *)
Lemma rfind_dot_app (p t : string) :
  PyStr.rfind_dot t = None ->
  PyStr.rfind_dot (p ++ String "."%char t) = Some (String.length p).
Proof.
  intros Ht. induction p as [|c p IH].
  - cbn [append PyStr.rfind_dot String.length]. now rewrite Ht.
  - cbn [append PyStr.rfind_dot String.length]. now rewrite IH.
Qed.

Lemma length_append (a b : string) :
  String.length (a ++ b) = String.length a + String.length b.
Proof. induction a as [|c a IH]; cbn [append String.length]; [reflexivity | now rewrite IH]. Qed.

Lemma append_assoc (a b c : string) : ((a ++ b) ++ c = a ++ b ++ c)%string.
Proof. induction a as [|x a IH]; cbn [append]; [reflexivity | now rewrite IH]. Qed.

(** [Path.suffix] of a name that ends in a dot and a non-empty run
    without dots, after at least one other character. *)
Lemma suffix_of_extension (d : list string) (p t : string) :
  p <> EmptyString -> t <> EmptyString -> PyStr.rfind_dot t = None ->
  suffix (mkPath d (p ++ String "."%char t)) = String "."%char t.
Proof.
  intros Hp Ht Hd. unfold suffix. cbn [name].
  rewrite (rfind_dot_app p t Hd), length_append. cbn [String.length].
  assert (0 < String.length p) by (destruct p; [congruence | cbn; lia]).
  assert (0 < String.length t) by (destruct t; [congruence | cbn; lia]).
  replace ((0 <? String.length p)
           && (String.length p <? String.length p + S (String.length t) - 1))
    with true.
  - apply PyStrFacts.drop_app.
  - symmetry. apply andb_true_iff. split; apply Nat.ltb_lt; lia.
Qed.

Lemma take_while_no_dot (s : string) :
  PyStr.rfind_dot (take_while is_word_or_plus s) = None.
Proof.
  induction s as [|c s IH]; [reflexivity|]. cbn [take_while].
  destruct (is_word_or_plus c) eqn:E; [|reflexivity].
  cbn [PyStr.rfind_dot]. rewrite IH.
  destruct (Ascii.eqb c "."%char) eqn:Ec; [|reflexivity].
  apply Ascii.eqb_eq in Ec. subst c. vm_compute in E. discriminate.
Qed.

Lemma search_image_type_run (s t : string) :
  search_image_type s = Some t -> t <> EmptyString /\ PyStr.rfind_dot t = None.
Proof.
  induction s as [|c s IH]; intros H.
  - cbn in H. discriminate.
  - cbn [search_image_type] in H.
    destruct (PyStr.startswith "image/" (String c s)).
    + destruct (take_while is_word_or_plus (PyStr.drop 6 (String c s))) as [|c' r] eqn:Er.
      * now apply IH.
      * inversion H; subst t. split; [discriminate|].
        rewrite <- Er. apply take_while_no_dot.
    + now apply IH.
Qed.

(** Both ways of choosing an extension give a dot and a run without dots. *)
Lemma image_extension_shape (data_uri : string) :
  exists t, _image_extension data_uri = String "."%char t
            /\ t <> EmptyString /\ PyStr.rfind_dot t = None.
Proof.
  unfold _image_extension. destruct (search_image_type data_uri) as [t|] eqn:E.
  - exists t. split; [reflexivity|]. now apply search_image_type_run with (s := data_uri).
  - exists "png"%string. repeat split. discriminate.
Qed.

Lemma guess_extension_range (ct : option string) :
  _guess_extension ct = ".jpg"%string \/ _guess_extension ct = ".png"%string
  \/ _guess_extension ct = ".gif"%string \/ _guess_extension ct = ".img"%string.
Proof.
  unfold _guess_extension. destruct ct as [[|c t]|]; auto.
  destruct (PyStr.contains "jpeg" (String c t)); auto.
  destruct (PyStr.contains "png" (String c t)); auto.
  destruct (PyStr.contains "gif" (String c t)); auto.
Qed.

Lemma guess_extension_shape (ct : option string) :
  exists t, _guess_extension ct = String "."%char t
            /\ t <> EmptyString /\ PyStr.rfind_dot t = None.
Proof.
  destruct (guess_extension_range ct) as [E | [E | [E | E]]]; rewrite E;
    eexists; (split; [reflexivity|]); split; (discriminate || reflexivity).
Qed.

Lemma hashed_suffix (d : list string) (base : string) (data : list byte) (t : string) :
  t <> EmptyString -> PyStr.rfind_dot t = None ->
  suffix (mkPath d (_hashed_filename base data (String "."%char t))) = String "."%char t.
Proof.
  intros Ht Hd. unfold _hashed_filename.
  replace (base ++ "_" ++ PyStr.take 12 (MD5.hexdigest data) ++ String "."%char t)%string
    with ((base ++ "_" ++ PyStr.take 12 (MD5.hexdigest data)) ++ String "."%char t)%string.
  - apply suffix_of_extension; try assumption.
    destruct base; cbn; discriminate.
  - now rewrite !append_assoc.
Qed.

Lemma hex_length (bs : list Z) : String.length (MD5.hex bs) = 2 * List.length bs.
Proof.
  induction bs as [|b bs IH]; [reflexivity|].
  cbn [MD5.hex String.length List.length]. rewrite IH. lia.
Qed.

Lemma le_bytes_length (n : nat) (x : Z) : List.length (MD5.le_bytes n x) = n.
Proof. unfold MD5.le_bytes. now rewrite length_map, length_seq. Qed.

Lemma take_length (n : nat) (s : string) :
  n <= String.length s -> String.length (PyStr.take n s) = n.
Proof.
  revert s. induction n as [|n IH]; intros s H; [reflexivity|].
  destruct s as [|c s]; cbn [String.length] in H; [lia|].
  cbn [PyStr.take String.length]. rewrite IH; [reflexivity | lia].
Qed.

Lemma hex_digit_is_hex (d : Z) : is_hex (MD5.hex_digit d) = true.
Proof.
  unfold MD5.hex_digit.
  destruct (Nat.lt_ge_cases (Z.to_nat d) 16) as [L | L].
  - remember (Z.to_nat d) as k eqn:Ek. clear Ek.
    do 16 (destruct k as [|k]; [reflexivity|]). lia.
  - rewrite nth_overflow; [reflexivity | exact L].
Qed.

Lemma hex_all_hex (bs : list Z) : all_chars is_hex (MD5.hex bs) = true.
Proof.
  induction bs as [|b bs IH]; [reflexivity|].
  cbn [MD5.hex all_chars]. now rewrite !hex_digit_is_hex, IH.
Qed.

Lemma take_all_chars (f : ascii -> bool) (n : nat) (s : string) :
  all_chars f s = true -> all_chars f (PyStr.take n s) = true.
Proof.
  revert s. induction n as [|n IH]; intros s H; [reflexivity|].
  destruct s as [|c s]; [reflexivity|].
  cbn [all_chars] in H. apply andb_true_iff in H. destruct H as [H1 H2].
  cbn [PyStr.take all_chars]. now rewrite H1, IH.
Qed.

End NameFacts.

(** X11.  The extension chosen for an image is the [Path.suffix] of the
    file it is stored under, for an inline image ([_image_extension])
    and for a downloaded one ([_guess_extension]): neither the stem of
    the note nor the hash can move the last dot. *)
Theorem stored_suffix_is_extension
  (d : list string) (base : string) (data : list byte)
  (data_uri : string) (content_type : option string) :
  suffix (mkPath d (Transformer._hashed_filename base data
                      (Transformer._image_extension data_uri)))
  = Transformer._image_extension data_uri
  /\ suffix (mkPath d (Transformer._hashed_filename base data
                         (Transformer._guess_extension content_type)))
     = Transformer._guess_extension content_type.
Proof.
  split.
  - destruct (NameFacts.image_extension_shape data_uri) as (t & E & Ht & Hd).
    rewrite E. now apply NameFacts.hashed_suffix.
  - destruct (NameFacts.guess_extension_shape content_type) as (t & E & Ht & Hd).
    rewrite E. now apply NameFacts.hashed_suffix.
Qed.

(** X12.  A downloaded image whose [Content-Type] is given and names
    none of [jpeg], [png] and [gif] is stored under the extension
    [.img].  The deduplicator, run on the same directory, does not take
    such a file for an image: it is in no entry of the index, and it is
    in the store after the run. *)
Theorem unknown_type_never_deduplicated
  (re_sub : string -> string -> string -> py_result string)
  (w : World) (a : asset) (base : string) (data : list byte) (t : string) :
  In a (store w) ->
  t <> EmptyString ->
  PyStr.contains "jpeg" t = false ->
  PyStr.contains "png" t = false ->
  PyStr.contains "gif" t = false ->
  name (a_path a)
  = Transformer._hashed_filename base data (Transformer._guess_extension (Some t)) ->
  suffix (a_path a) = ".img"%string
  /\ is_image a = false
  /\ (forall h, ~ In (a_path a) (paths_of h (store w)))
  /\ In a (store (snd (deduplicate_directory re_sub w))).
Proof.
  intros Ha Ht Hj Hp Hg Hn.
  assert (Eg : Transformer._guess_extension (Some t) = ".img"%string).
  { unfold Transformer._guess_extension. destruct t as [|c t]; [congruence|].
    now rewrite Hj, Hp, Hg. }
  assert (Es : forall b, a_path b = a_path a -> suffix (a_path b) = ".img"%string).
  { intros b Eb. rewrite Eb. destruct (a_path a) as [d n]. cbn [name] in Hn. subst n.
    rewrite Eg. apply NameFacts.hashed_suffix; [discriminate | reflexivity]. }
  assert (Ei : forall b, a_path b = a_path a -> is_image b = false).
  { intros b Eb. unfold is_image. rewrite (Es b Eb). apply andb_false_r. }
  assert (Hx : forall h, ~ In (a_path a) (paths_of h (store w))).
  { intros h Hin. apply IndexFacts.paths_of_in in Hin.
    destruct Hin as (b & _ & Pb & Fb & _).
    unfold hashable in Fb. rewrite (Ei b Pb) in Fb. discriminate. }
  split; [now apply Es|]. split; [now apply Ei|]. split; [exact Hx|].
  apply run_keeps; [exact Ha|].
  intros rmap Hin. apply RemoveFacts.files_to_remove_in in Hin.
  destruct Hin as [(g & Hgr & Hpg) _].
  apply IndexFacts.group_in_index in Hgr. destruct Hgr as [Hgr _].
  destruct (IndexFacts.index_entry (store w) g Hgr) as (k & -> & _).
  exact (Hx k Hpg).
Qed.

(** A WebP download is stored as [.img] and left alone. *)
Lemma unknown_type_never_deduplicated_witness :
  suffix (a_path Examples.webp_download) = ".img"%string
  /\ is_image Examples.webp_download = false
  /\ (forall h, ~ In (a_path Examples.webp_download)
                     (paths_of h (store Examples.with_download)))
  /\ In Examples.webp_download
        (store (snd (deduplicate_directory re_sub_fragment Examples.with_download))).
Proof.
  apply (unknown_type_never_deduplicated re_sub_fragment Examples.with_download
           Examples.webp_download "note" Examples.other_pixels "image/webp").
  - right; right; left. reflexivity.
  - discriminate.
  - reflexivity.
  - reflexivity.
  - reflexivity.
  - reflexivity.
Defined.

(** X13.  The hash part of a stored name is always twelve lower-case
    hexadecimal digits ([hexdigest] has thirty-two, so the slice never
    comes up short), and the name is the stem, an underscore, these
    digits and the extension. *)
Theorem hashed_filename_shape (base : string) (data : list byte) (ext : string) :
  String.length (MD5.hexdigest data) = 32
  /\ all_chars is_hex (MD5.hexdigest data) = true
  /\ String.length (PyStr.take 12 (MD5.hexdigest data)) = 12
  /\ all_chars is_hex (PyStr.take 12 (MD5.hexdigest data)) = true
  /\ String.length (Transformer._hashed_filename base data ext)
     = String.length base + 13 + String.length ext.
Proof.
  assert (L : String.length (MD5.hexdigest data) = 32).
  { unfold MD5.hexdigest, MD5.digest. rewrite NameFacts.hex_length.
    rewrite !length_app, !NameFacts.le_bytes_length. reflexivity. }
  assert (H : all_chars is_hex (MD5.hexdigest data) = true)
    by apply NameFacts.hex_all_hex.
  assert (T : String.length (PyStr.take 12 (MD5.hexdigest data)) = 12)
    by (apply NameFacts.take_length; lia).
  split; [exact L|]. split; [exact H|]. split; [exact T|].
  split; [now apply NameFacts.take_all_chars|].
  unfold Transformer._hashed_filename.
  rewrite !NameFacts.length_append, T. cbn [String.length]. lia.
Qed.

(* ================================================================= *)
(** ** The last pass over the Markdown *)

Module FinalizeFacts.

Import Transformer.

Lemma drop_length (n : nat) (s : string) :
  String.length (PyStr.drop n s) <= String.length s.
Proof.
  revert s. induction n as [|n IH]; intros s; [cbn; lia|].
  destruct s as [|c s]; cbn [PyStr.drop String.length]; [lia|].
  specialize (IH s). lia.
Qed.

Lemma drop_nil (n : nat) : PyStr.drop n EmptyString = EmptyString.
Proof. now destruct n. Qed.

(** *** Tags *)

Lemma strip_from_drop (s : string) :
  forall n, strip_from n s = strip_tags (PyStr.drop n s).
Proof.
  induction s as [|c s IH]; intros n.
  - now rewrite drop_nil.
  - destruct n as [|n]; [reflexivity|]. cbn [strip_from PyStr.drop]. apply IH.
Qed.

Lemma strip_tags_cons (c : ascii) (s : string) :
  strip_tags (String c s)
  = match opens (String c s) with
    | Some n => strip_tags (PyStr.drop n s)
    | None => String c (strip_tags s)
    end.
Proof.
  unfold strip_tags at 1. cbn [strip_from].
  destruct (opens (String c s)); [apply strip_from_drop | reflexivity].
Qed.

Lemma tagged_cons (c : ascii) (s : string) :
  tagged (String c s)
  = match opens (String c s) with
    | Some _ => true
    | None => tagged s
    end.
Proof. reflexivity. Qed.

Lemma tag_len_none (s : string) : tag_len s = None <-> no_gt s = true.
Proof.
  induction s as [|c s IH]; [easy|].
  cbn [tag_len no_gt all_chars]. fold (no_gt s). fold chr_gt.
  destruct (Ascii.eqb c chr_gt); cbn [negb andb]; [easy|].
  destruct (tag_len s); cbn [option_map].
  - split; [discriminate|]. intros H. apply IH in H. discriminate.
  - split; [intros _; now apply IH | reflexivity].
Qed.

Lemma tag_len_app (t b : string) :
  no_gt t = true -> tag_len (t ++ String chr_gt b) = Some (S (String.length t)).
Proof.
  induction t as [|c t IH]; intros H.
  - cbn [append tag_len]. fold chr_gt. now rewrite Ascii.eqb_refl.
  - cbn [no_gt all_chars] in H. apply andb_true_iff in H. destruct H as [H1 H2].
    cbn [append tag_len String.length]. fold chr_gt.
    apply negb_true_iff in H1. rewrite H1. fold (no_gt t) in H2.
    now rewrite (IH H2).
Qed.

Lemma tag_len_positive (s : string) : tag_len s <> Some 0.
Proof.
  destruct s as [|c s]; [discriminate|]. cbn [tag_len].
  destruct (Ascii.eqb c ">"); [discriminate|].
  destruct (tag_len s); discriminate.
Qed.

(** [tag_len s = Some 1] says that [s] starts with [>]. *)
Lemma tag_len_one (s : string) :
  tag_len s = Some 1 <-> exists s', s = String chr_gt s'.
Proof.
  destruct s as [|c s]; cbn [tag_len]; fold chr_gt.
  - split; [discriminate | intros (s' & H); discriminate].
  - destruct (Ascii.eqb c chr_gt) eqn:E.
    + apply Ascii.eqb_eq in E. subst c. split; [now exists s | reflexivity].
    + split.
      * destruct (tag_len s) as [k|] eqn:Ek; cbn [option_map]; [|discriminate].
        intros H. inversion H. subst k. now destruct (tag_len_positive s).
      * intros (s' & H). inversion H. subst c. now rewrite Ascii.eqb_refl in E.
Qed.

(** The test at a [<] reads only whether the rest starts with [>] and
    whether it holds one. *)
Lemma opens_lt (s : string) :
  opens (String chr_lt s) = None <-> starts_gt s = true \/ no_gt s = true.
Proof.
  unfold opens. rewrite Ascii.eqb_refl.
  destruct (tag_len s) as [[|[|k]]|] eqn:E.
  - now destruct (tag_len_positive s).
  - split; [intros _; left | reflexivity].
    apply tag_len_one in E. destruct E as (s' & ->). apply Ascii.eqb_refl.
  - split; [discriminate|]. intros [H | H].
    + destruct s as [|c s]; [discriminate|]. cbn [starts_gt] in H.
      apply Ascii.eqb_eq in H. subst c.
      assert (T : tag_len (String chr_gt s) = Some 1) by (apply tag_len_one; now exists s).
      congruence.
    + apply tag_len_none in H. congruence.
  - split; [intros _; right; now apply tag_len_none | reflexivity].
Qed.

Lemma opens_other (c : ascii) (s : string) :
  c <> chr_lt -> opens (String c s) = None.
Proof.
  intros H. unfold opens. fold chr_lt. destruct (Ascii.eqb c chr_lt) eqn:E; [|reflexivity].
  apply Ascii.eqb_eq in E. contradiction.
Qed.

(** The characters of the result are among those of the text. *)
Lemma strip_tags_all (f : ascii -> bool) (s : string) :
  all_chars f s = true -> all_chars f (strip_tags s) = true.
Proof.
  remember (String.length s) as n eqn:En.
  revert s En. induction n as [n IH] using lt_wf_ind. intros s En H.
  destruct s as [|c s]; [reflexivity|].
  cbn [all_chars] in H. apply andb_true_iff in H. destruct H as [H1 H2].
  rewrite strip_tags_cons. destruct (opens (String c s)) as [k|].
  - apply (IH (String.length (PyStr.drop k s))); [|reflexivity|].
    + subst n. cbn [String.length]. pose proof (drop_length k s). lia.
    + clear - H2. revert s H2. induction k as [|k IHk]; intros s H2; [exact H2|].
      destruct s as [|c s]; [reflexivity|]. cbn [PyStr.drop].
      cbn [all_chars] in H2. apply andb_true_iff in H2. now apply IHk.
  - cbn [all_chars]. rewrite H1. cbn [andb].
    apply (IH (String.length s)); [subst n; cbn; lia | reflexivity | exact H2].
Qed.

Lemma strip_tags_starts_gt (s : string) :
  starts_gt s = true -> starts_gt (strip_tags s) = true.
Proof.
  destruct s as [|c s]; [discriminate|]. cbn [starts_gt]. intros H.
  apply Ascii.eqb_eq in H. subst c.
  rewrite strip_tags_cons, opens_other by discriminate. apply Ascii.eqb_refl.
Qed.

(** No match is left after the substitution. *)
Lemma strip_tags_untagged (s : string) : tagged (strip_tags s) = false.
Proof.
  remember (String.length s) as n eqn:En.
  revert s En. induction n as [n IH] using lt_wf_ind. intros s En.
  destruct s as [|c s]; [reflexivity|].
  rewrite strip_tags_cons. destruct (opens (String c s)) as [k|] eqn:Eo.
  - apply (IH (String.length (PyStr.drop k s))); [|reflexivity].
    subst n. cbn [String.length]. pose proof (drop_length k s). lia.
  - rewrite tagged_cons.
    assert (T : tagged (strip_tags s) = false)
      by (apply (IH (String.length s)); [subst n; cbn; lia | reflexivity]).
    replace (opens (String c (strip_tags s))) with (@None nat); [exact T|].
    symmetry. destruct (ascii_dec c chr_lt) as [-> | Hc]; [|now apply opens_other].
    apply opens_lt. apply opens_lt in Eo. destruct Eo as [H | H].
    + left. now apply strip_tags_starts_gt.
    + right. now apply strip_tags_all.
Qed.

(** A text without a match is left as it is. *)
Lemma strip_tags_id (s : string) : tagged s = false -> strip_tags s = s.
Proof.
  induction s as [|c s IH]; [reflexivity|]. rewrite tagged_cons, strip_tags_cons.
  destruct (opens (String c s)); [discriminate|]. intros H. now rewrite IH.
Qed.

Lemma strip_tags_fixed (s : string) : strip_tags s = s -> tagged s = false.
Proof. intros H. rewrite <- H. apply strip_tags_untagged. Qed.

(** [tagged] finds every text of the shape of a tag. *)
Lemma tagged_finds (a t b : string) :
  t <> EmptyString -> no_gt t = true ->
  tagged (a ++ String chr_lt (t ++ String chr_gt b)) = true.
Proof.
  intros Ht Hg. induction a as [|c a IH].
  - cbn [append]. rewrite tagged_cons. unfold opens. rewrite Ascii.eqb_refl.
    rewrite (tag_len_app t b Hg).
    destruct t as [|x t]; [congruence | reflexivity].
  - cbn [append]. rewrite tagged_cons. now destruct (opens _).
Qed.

Lemma tagged_drop (n : nat) (s : string) :
  tagged s = false -> tagged (PyStr.drop n s) = false.
Proof.
  revert s. induction n as [|n IH]; intros s H; [exact H|].
  destruct s as [|c s]; [reflexivity|]. cbn [PyStr.drop]. apply IH.
  rewrite tagged_cons in H. now destruct (opens (String c s)).
Qed.

Lemma strip_tags_length (s : string) :
  String.length (strip_tags s) <= String.length s.
Proof.
  remember (String.length s) as n eqn:En.
  revert s En. induction n as [n IH] using lt_wf_ind. intros s En.
  destruct s as [|c s]; [cbn; lia|].
  rewrite strip_tags_cons. destruct (opens (String c s)) as [k|].
  - pose proof (drop_length k s).
    assert (String.length (strip_tags (PyStr.drop k s)) <= String.length (PyStr.drop k s)).
    { apply (IH (String.length (PyStr.drop k s))); [|reflexivity].
      subst n. cbn [String.length]. lia. }
    subst n. cbn [String.length]. lia.
  - cbn [String.length].
    assert (String.length (strip_tags s) <= String.length s)
      by (apply (IH (String.length s)); [subst n; cbn; lia | reflexivity]).
    subst n. cbn [String.length]. lia.
Qed.

End FinalizeFacts.

Module BlankLineFacts.

Import Transformer.

Lemma collapse_from_drop (s : string) :
  forall n, collapse_from n s = collapse_blank_lines (PyStr.drop n s).
Proof.
  induction s as [|c s IH]; intros n.
  - now rewrite FinalizeFacts.drop_nil.
  - destruct n as [|n]; [reflexivity|]. cbn [collapse_from PyStr.drop]. apply IH.
Qed.

Lemma collapse_cons (c : ascii) (s : string) :
  collapse_blank_lines (String c s)
  = if 4 <=? newlines (String c s)
    then String newline
           (String newline (collapse_blank_lines (PyStr.drop (newlines s) s)))
    else String c (collapse_blank_lines s).
Proof.
  unfold collapse_blank_lines at 1. cbn [collapse_from].
  destruct (4 <=? newlines (String c s)); [|reflexivity].
  now rewrite collapse_from_drop.
Qed.

Lemma newlines_cons (c : ascii) (s : string) :
  newlines (String c s) = if Ascii.eqb c newline then S (newlines s) else 0.
Proof. reflexivity. Qed.

(** A run of four or more starts with a newline. *)
Lemma long_run_head (c : ascii) (s : string) :
  4 <= newlines (String c s) -> c = newline /\ 3 <= newlines s.
Proof.
  rewrite newlines_cons. destruct (Ascii.eqb c newline) eqn:E; [|lia].
  apply Ascii.eqb_eq in E. split; [exact E | lia].
Qed.

Lemma newlines_drop (s : string) : newlines (PyStr.drop (newlines s) s) = 0.
Proof.
  induction s as [|c s IH]; [reflexivity|]. rewrite newlines_cons.
  destruct (Ascii.eqb c newline) eqn:E.
  - cbn [PyStr.drop]. exact IH.
  - cbn [PyStr.drop]. rewrite newlines_cons. now rewrite E.
Qed.

(** A short run at the head is kept, a long one becomes two newlines. *)
Lemma newlines_collapse_short (s : string) :
  newlines s < 4 -> newlines (collapse_blank_lines s) = newlines s.
Proof.
  induction s as [|c s IH]; intros H; [reflexivity|]. rewrite collapse_cons.
  destruct (4 <=? newlines (String c s)) eqn:E; [apply Nat.leb_le in E; lia|].
  rewrite !newlines_cons in *. destruct (Ascii.eqb c newline); [|reflexivity].
  rewrite IH; [reflexivity | lia].
Qed.

Lemma newlines_collapse_long (s : string) :
  4 <= newlines s -> newlines (collapse_blank_lines s) = 2.
Proof.
  destruct s as [|c s]; [cbn; lia|]. intros H. rewrite collapse_cons.
  replace (4 <=? newlines (String c s)) with true by (symmetry; now apply Nat.leb_le).
  rewrite !newlines_cons. cbn [Ascii.eqb]. rewrite Ascii.eqb_refl.
  rewrite newlines_collapse_short; rewrite newlines_drop; lia.
Qed.

Lemma starts_four (s : string) :
  PyStr.startswith four_newlines s = (4 <=? newlines s).
Proof.
  unfold four_newlines.
  destruct s as [|c1 s]; [reflexivity|]. cbn [PyStr.startswith]. rewrite newlines_cons.
  rewrite (Ascii.eqb_sym newline c1). destruct (Ascii.eqb c1 newline); [|reflexivity].
  destruct s as [|c2 s]; [reflexivity|]. cbn [PyStr.startswith andb]. rewrite newlines_cons.
  rewrite (Ascii.eqb_sym newline c2). destruct (Ascii.eqb c2 newline); [|reflexivity].
  destruct s as [|c3 s]; [reflexivity|]. cbn [PyStr.startswith andb]. rewrite newlines_cons.
  rewrite (Ascii.eqb_sym newline c3). destruct (Ascii.eqb c3 newline); [|reflexivity].
  destruct s as [|c4 s]; [reflexivity|]. cbn [PyStr.startswith andb]. rewrite newlines_cons.
  rewrite (Ascii.eqb_sym newline c4). destruct (Ascii.eqb c4 newline); [|reflexivity].
  destruct s; reflexivity.
Qed.

Lemma contains_cons (sub : string) (c : ascii) (s : string) :
  PyStr.contains sub (String c s)
  = PyStr.startswith sub (String c s) || PyStr.contains sub s.
Proof. reflexivity. Qed.

(** No run of four newlines is left after the substitution. *)
Lemma collapse_no_long_run (s : string) :
  PyStr.contains four_newlines (collapse_blank_lines s) = false.
Proof.
  remember (String.length s) as n eqn:En.
  revert s En. induction n as [n IH] using lt_wf_ind. intros s En.
  destruct s as [|c s]; [reflexivity|].
  rewrite collapse_cons. destruct (4 <=? newlines (String c s)) eqn:E.
  - assert (X0 : newlines (collapse_blank_lines (PyStr.drop (newlines s) s)) = 0).
    { rewrite newlines_collapse_short; rewrite newlines_drop; lia. }
    rewrite !contains_cons, !starts_four, !newlines_cons, Ascii.eqb_refl, X0.
    cbn [Nat.leb orb].
    apply (IH (String.length (PyStr.drop (newlines s) s))); [|reflexivity].
    subst n. cbn [String.length]. pose proof (FinalizeFacts.drop_length (newlines s) s). lia.
  - apply Nat.leb_gt in E.
    rewrite contains_cons, starts_four.
    rewrite (IH (String.length s)) by (subst n; cbn; lia || reflexivity).
    rewrite orb_false_r. apply Nat.leb_gt.
    rewrite newlines_cons in *. destruct (Ascii.eqb c newline); [|lia].
    rewrite newlines_collapse_short; lia.
Qed.

(** A text without such a run is left as it is. *)
Lemma collapse_id (s : string) :
  PyStr.contains four_newlines s = false -> collapse_blank_lines s = s.
Proof.
  induction s as [|c s IH]; intros H; [reflexivity|].
  rewrite contains_cons in H. apply orb_false_iff in H. destruct H as [H1 H2].
  rewrite starts_four in H1. rewrite collapse_cons, H1. now rewrite IH.
Qed.

Lemma no_gt_cons (c : ascii) (s : string) :
  no_gt (String c s) = negb (Ascii.eqb c chr_gt) && no_gt s.
Proof. reflexivity. Qed.

Lemma no_gt_drop_newlines (s : string) :
  no_gt (PyStr.drop (newlines s) s) = no_gt s.
Proof.
  induction s as [|c s IH]; [reflexivity|]. rewrite newlines_cons.
  destruct (Ascii.eqb c newline) eqn:E; [|reflexivity].
  apply Ascii.eqb_eq in E. subst c. cbn [PyStr.drop]. rewrite IH. reflexivity.
Qed.

Lemma collapse_no_gt (s : string) :
  no_gt (collapse_blank_lines s) = no_gt s.
Proof.
  remember (String.length s) as n eqn:En.
  revert s En. induction n as [n IH] using lt_wf_ind. intros s En.
  destruct s as [|c s]; [reflexivity|].
  rewrite collapse_cons. destruct (4 <=? newlines (String c s)) eqn:E.
  - apply Nat.leb_le in E. destruct (long_run_head c s E) as [-> _].
    rewrite !no_gt_cons. cbn [Ascii.eqb negb andb].
    replace (negb (Ascii.eqb newline chr_gt)) with true by reflexivity. cbn [andb].
    rewrite (IH (String.length (PyStr.drop (newlines s) s))).
    + apply no_gt_drop_newlines.
    + subst n. cbn [String.length].
      pose proof (FinalizeFacts.drop_length (newlines s) s). lia.
    + reflexivity.
  - rewrite !no_gt_cons. f_equal.
    apply (IH (String.length s)); [subst n; cbn; lia | reflexivity].
Qed.

Lemma collapse_starts_gt (s : string) :
  starts_gt (collapse_blank_lines s) = starts_gt s.
Proof.
  destruct s as [|c s]; [reflexivity|]. rewrite collapse_cons.
  destruct (4 <=? newlines (String c s)) eqn:E; [|reflexivity].
  apply Nat.leb_le in E. destruct (long_run_head c s E) as [-> _]. reflexivity.
Qed.

Lemma collapse_untagged (s : string) :
  tagged s = false -> tagged (collapse_blank_lines s) = false.
Proof.
  remember (String.length s) as n eqn:En.
  revert s En. induction n as [n IH] using lt_wf_ind. intros s En H.
  destruct s as [|c s]; [reflexivity|].
  rewrite FinalizeFacts.tagged_cons in H.
  destruct (opens (String c s)) eqn:Eo; [discriminate|].
  rewrite collapse_cons. destruct (4 <=? newlines (String c s)) eqn:E.
  - rewrite !FinalizeFacts.tagged_cons.
    rewrite !FinalizeFacts.opens_other by discriminate.
    apply (IH (String.length (PyStr.drop (newlines s) s))).
    + subst n. cbn [String.length].
      pose proof (FinalizeFacts.drop_length (newlines s) s). lia.
    + reflexivity.
    + now apply FinalizeFacts.tagged_drop.
  - rewrite FinalizeFacts.tagged_cons.
    assert (T : tagged (collapse_blank_lines s) = false)
      by (apply (IH (String.length s)); [subst n; cbn; lia | reflexivity | exact H]).
    replace (opens (String c (collapse_blank_lines s))) with (@None nat); [exact T|].
    symmetry. destruct (ascii_dec c chr_lt) as [-> | Hc];
      [|now apply FinalizeFacts.opens_other].
    apply FinalizeFacts.opens_lt. apply FinalizeFacts.opens_lt in Eo.
    now rewrite collapse_starts_gt, collapse_no_gt.
Qed.

Lemma collapse_length (s : string) :
  String.length (collapse_blank_lines s) <= String.length s.
Proof.
  remember (String.length s) as n eqn:En.
  revert s En. induction n as [n IH] using lt_wf_ind. intros s En.
  destruct s as [|c s]; [cbn; lia|].
  rewrite collapse_cons. destruct (4 <=? newlines (String c s)) eqn:E.
  - apply Nat.leb_le in E. destruct (long_run_head c s E) as [_ E3].
    assert (D : forall t, String.length (PyStr.drop (newlines t) t) + newlines t
                          = String.length t).
    { induction t as [|x t IHt]; [reflexivity|]. rewrite newlines_cons.
      destruct (Ascii.eqb x newline); cbn [PyStr.drop String.length]; lia. }
    assert (String.length (collapse_blank_lines (PyStr.drop (newlines s) s))
            <= String.length (PyStr.drop (newlines s) s)).
    { apply (IH (String.length (PyStr.drop (newlines s) s))); [|reflexivity].
      subst n. cbn [String.length]. specialize (D s). lia. }
    subst n. cbn [String.length]. specialize (D s). lia.
  - cbn [String.length].
    assert (String.length (collapse_blank_lines s) <= String.length s)
      by (apply (IH (String.length s)); [subst n; cbn; lia | reflexivity]).
    subst n. cbn [String.length]. lia.
Qed.

End BlankLineFacts.

Module TrimFacts.

Import Transformer.

Lemma lstrip_drop (s : string) : exists k, lstrip s = PyStr.drop k s.
Proof.
  induction s as [|c s (k & IH)]; [now exists 0|]. cbn [lstrip].
  destruct (is_space c); [now exists (S k) | now exists 0].
Qed.

Lemma lstrip_head (s : string) (c : ascii) (r : string) :
  lstrip s = String c r -> is_space c = false.
Proof.
  induction s as [|x s IH]; [discriminate|]. cbn [lstrip].
  destruct (is_space x) eqn:E; [exact IH|]. intros H. inversion H. now subst.
Qed.

Lemma lstrip_id (c : ascii) (r : string) :
  is_space c = false -> lstrip (String c r) = String c r.
Proof. intros H. cbn [lstrip]. now rewrite H. Qed.

Lemma rstrip_cons (c : ascii) (s : string) :
  rstrip (String c s)
  = match rstrip s with
    | EmptyString => if is_space c then EmptyString else String c EmptyString
    | r => String c r
    end.
Proof. reflexivity. Qed.

(** What [rstrip] takes away is white space. *)
Lemma rstrip_prefix (s : string) :
  exists w, s = (rstrip s ++ w)%string /\ all_chars is_space w = true.
Proof.
  induction s as [|c s (w & E & Hw)]; [now exists EmptyString|].
  rewrite rstrip_cons. destruct (rstrip s) as [|x r] eqn:Er.
  - cbn [append] in E. subst w. destruct (is_space c) eqn:Ec.
    + exists (String c s). split; [reflexivity|]. cbn [all_chars]. now rewrite Ec, Hw.
    + exists s. split; [reflexivity | exact Hw].
  - exists w. split; [|exact Hw]. cbn [append]. f_equal. exact E.
Qed.

Lemma rstrip_idem (s : string) : rstrip (rstrip s) = rstrip s.
Proof.
  induction s as [|c s IH]; [reflexivity|]. rewrite rstrip_cons.
  destruct (rstrip s) as [|x r] eqn:Er.
  - destruct (is_space c) eqn:Ec; [reflexivity|].
    rewrite rstrip_cons. cbn [rstrip]. now rewrite Ec.
  - rewrite rstrip_cons, IH. reflexivity.
Qed.

(** [rstrip] keeps a first character that is not white space. *)
Lemma rstrip_head (c : ascii) (s : string) :
  is_space c = false -> exists r, rstrip (String c s) = String c r.
Proof.
  intros H. rewrite rstrip_cons. destruct (rstrip s) as [|x r].
  - rewrite H. now exists EmptyString.
  - now exists (String x r).
Qed.

Lemma lstrip_strip (s : string) : lstrip (strip s) = strip s.
Proof.
  unfold strip. destruct (lstrip s) as [|c r] eqn:E; [reflexivity|].
  pose proof (lstrip_head s c r E) as Hc.
  destruct (rstrip_head c r Hc) as (r' & ->). now apply lstrip_id.
Qed.

Lemma strip_idem (s : string) : strip (strip s) = strip s.
Proof. unfold strip at 1. rewrite lstrip_strip. unfold strip. apply rstrip_idem. Qed.

Lemma rstrip_length (s : string) : String.length (rstrip s) <= String.length s.
Proof.
  destruct (rstrip_prefix s) as (w & E & _).
  rewrite E at 2. rewrite NameFacts.length_append. lia.
Qed.

Lemma rstrip_app_space (p : string) (c : ascii) :
  is_space c = true -> rstrip (p ++ String c EmptyString) = rstrip p.
Proof.
  intros H. induction p as [|x p IH].
  - cbn [append]. rewrite rstrip_cons. cbn [rstrip]. now rewrite H.
  - cbn [append]. now rewrite !rstrip_cons, IH.
Qed.

(** A text that [rstrip] leaves as it is does not end in white space. *)
Lemma rstrip_last (p : string) (c : ascii) :
  rstrip (p ++ String c EmptyString) = (p ++ String c EmptyString)%string ->
  is_space c = false.
Proof.
  intros H. destruct (is_space c) eqn:E; [|reflexivity]. exfalso.
  rewrite (rstrip_app_space p c E) in H.
  pose proof (rstrip_length p) as L. rewrite H in L.
  rewrite NameFacts.length_append in L. cbn [String.length] in L. lia.
Qed.

Lemma strip_length (s : string) : String.length (strip s) <= String.length s.
Proof.
  unfold strip. destruct (lstrip_drop s) as (k & ->).
  pose proof (rstrip_length (PyStr.drop k s)).
  pose proof (FinalizeFacts.drop_length k s). lia.
Qed.

Lemma all_chars_app (f : ascii -> bool) (a b : string) :
  all_chars f (a ++ b) = all_chars f a && all_chars f b.
Proof.
  induction a as [|c a IH]; [reflexivity|]. cbn [append all_chars].
  now rewrite IH, andb_assoc.
Qed.

Lemma space_no_gt (w : string) : all_chars is_space w = true -> no_gt w = true.
Proof.
  induction w as [|c w IH]; [reflexivity|]. cbn [all_chars]. intros H.
  apply andb_true_iff in H. destruct H as [H1 H2].
  rewrite BlankLineFacts.no_gt_cons, (IH H2), andb_true_r.
  apply negb_true_iff. destruct (Ascii.eqb c chr_gt) eqn:E; [|reflexivity].
  apply Ascii.eqb_eq in E. subst c. vm_compute in H1. discriminate.
Qed.

(** Taking a tail without [>] away does not make a tag. *)
Lemma tagged_prefix (p w : string) :
  no_gt w = true -> tagged (p ++ w) = false -> tagged p = false.
Proof.
  intros Hw. induction p as [|c p IH]; intros H; [reflexivity|].
  cbn [append] in H. rewrite FinalizeFacts.tagged_cons in *.
  destruct (opens (String c (p ++ w))) eqn:Eo; [discriminate|].
  replace (opens (String c p)) with (@None nat); [now apply IH|].
  symmetry. destruct (ascii_dec c chr_lt) as [-> | Hc];
    [|now apply FinalizeFacts.opens_other].
  apply FinalizeFacts.opens_lt. apply FinalizeFacts.opens_lt in Eo.
  destruct p as [|x p]; [now right|].
  destruct Eo as [Eo | Eo]; [now left|]. right.
  unfold no_gt in *. rewrite all_chars_app in Eo.
  apply andb_true_iff in Eo. tauto.
Qed.

Lemma strip_untagged (s : string) : tagged s = false -> tagged (strip s) = false.
Proof.
  intros H. unfold strip. destruct (lstrip_drop s) as (k & ->).
  apply (FinalizeFacts.tagged_drop k) in H.
  destruct (rstrip_prefix (PyStr.drop k s)) as (w & E & Hw).
  rewrite E in H. exact (tagged_prefix _ w (space_no_gt w Hw) H).
Qed.

Lemma startswith_prefix (sub p w : string) :
  PyStr.startswith sub p = true -> PyStr.startswith sub (p ++ w) = true.
Proof.
  revert p. induction sub as [|a sub IH]; intros p H; [reflexivity|].
  destruct p as [|b p]; [discriminate|]. cbn [append PyStr.startswith] in *.
  apply andb_true_iff in H. destruct H as [H1 H2]. now rewrite H1, IH.
Qed.

Lemma contains_prefix (sub p w : string) :
  PyStr.contains sub (p ++ w) = false -> PyStr.contains sub p = false.
Proof.
  induction p as [|c p IH]; intros H.
  - destruct (PyStr.contains sub EmptyString) eqn:E; [|reflexivity].
    cbn [PyStr.contains] in E. rewrite orb_false_r in E.
    destruct sub; [|discriminate]. cbn [append] in H.
    destruct w; cbn in H; discriminate.
  - cbn [append] in H. rewrite BlankLineFacts.contains_cons in *.
    apply orb_false_iff in H. destruct H as [H1 H2].
    rewrite (IH H2), orb_false_r.
    destruct (PyStr.startswith sub (String c p)) eqn:E; [|reflexivity].
    apply (startswith_prefix sub (String c p) w) in E. cbn [append] in E. congruence.
Qed.

Lemma contains_drop (sub : string) (k : nat) (s : string) :
  sub <> EmptyString ->
  PyStr.contains sub s = false -> PyStr.contains sub (PyStr.drop k s) = false.
Proof.
  intros Hs. revert s. induction k as [|k IH]; intros s H; [exact H|].
  destruct s as [|c s]; [exact H|]. cbn [PyStr.drop]. apply IH.
  rewrite BlankLineFacts.contains_cons in H. apply orb_false_iff in H. tauto.
Qed.

Lemma strip_no_long_run (s : string) :
  PyStr.contains four_newlines s = false ->
  PyStr.contains four_newlines (strip s) = false.
Proof.
  intros H. unfold strip. destruct (lstrip_drop s) as (k & ->).
  apply (contains_drop four_newlines k) in H; [|discriminate].
  destruct (rstrip_prefix (PyStr.drop k s)) as (w & E & _).
  rewrite E in H. exact (contains_prefix _ _ w H).
Qed.

End TrimFacts.

Module CleanFacts.

Import Transformer.

Lemma finalize_untagged (md : string) (m : dict string) :
  tagged (_finalize_markdown md m) = false.
Proof.
  unfold _finalize_markdown.
  apply TrimFacts.strip_untagged, BlankLineFacts.collapse_untagged,
    FinalizeFacts.strip_tags_untagged.
Qed.

Lemma finalize_no_long_run (md : string) (m : dict string) :
  PyStr.contains four_newlines (_finalize_markdown md m) = false.
Proof.
  unfold _finalize_markdown.
  apply TrimFacts.strip_no_long_run, BlankLineFacts.collapse_no_long_run.
Qed.

Lemma finalize_stripped (md : string) (m : dict string) :
  strip (_finalize_markdown md m) = _finalize_markdown md m.
Proof. unfold _finalize_markdown. apply TrimFacts.strip_idem. Qed.

Lemma finalize_fixed (md : string) (m : dict string) :
  tagged md = false -> PyStr.contains four_newlines md = false -> strip md = md ->
  _finalize_markdown md m = md.
Proof.
  intros H1 H2 H3. unfold _finalize_markdown.
  now rewrite (FinalizeFacts.strip_tags_id md H1), (BlankLineFacts.collapse_id md H2).
Qed.

End CleanFacts.

(** X14.  What [_finalize_markdown] returns.  The text holds nothing of
    the shape of a tag (a [<], a non-empty run without [>], a [>]), no
    four newlines in a row, and neither starts nor ends with white
    space; and it is never longer than the text given. *)
Theorem finalized_markdown_clean (md : string) (image_map : dict string) :
  let out := Transformer._finalize_markdown md image_map in
  (forall a t b,
      t <> EmptyString -> no_gt t = true ->
      out <> (a ++ String chr_lt (t ++ String chr_gt b))%string)
  /\ PyStr.contains four_newlines out = false
  /\ (forall c r, out = String c r -> Transformer.is_space c = false)
  /\ (forall p c, out = (p ++ String c EmptyString)%string ->
                  Transformer.is_space c = false)
  /\ String.length out <= String.length md.
Proof.
  intros out. split; [|split; [|split; [|split]]].
  - intros a t b Ht Hg E.
    pose proof (CleanFacts.finalize_untagged md image_map) as U.
    fold out in U. rewrite E in U.
    rewrite (FinalizeFacts.tagged_finds a t b Ht Hg) in U. discriminate.
  - apply CleanFacts.finalize_no_long_run.
  - intros c r E. apply (TrimFacts.lstrip_head out c r).
    rewrite <- E. unfold out, Transformer._finalize_markdown.
    apply TrimFacts.lstrip_strip.
  - intros p c E. apply (TrimFacts.rstrip_last p c).
    rewrite <- E. unfold out, Transformer._finalize_markdown, Transformer.strip.
    apply TrimFacts.rstrip_idem.
  - unfold out, Transformer._finalize_markdown.
    pose proof (TrimFacts.strip_length
                  (Transformer.collapse_blank_lines (Transformer.strip_tags md))).
    pose proof (BlankLineFacts.collapse_length (Transformer.strip_tags md)).
    pose proof (FinalizeFacts.strip_tags_length md). lia.
Qed.

(** X15.  [_finalize_markdown] is idempotent: finalising a finalised
    text changes nothing, whatever [image_map] is passed. *)
Theorem finalize_twice_is_once (md : string) (image_map image_map' : dict string) :
  Transformer._finalize_markdown (Transformer._finalize_markdown md image_map) image_map'
  = Transformer._finalize_markdown md image_map.
Proof.
  apply CleanFacts.finalize_fixed.
  - apply CleanFacts.finalize_untagged.
  - apply CleanFacts.finalize_no_long_run.
  - apply CleanFacts.finalize_stripped.
Qed.

(** X16.  The texts that [_finalize_markdown] returns unchanged are
    exactly those in which [<[^>]+>] has no match, that hold no four
    newlines in a row, and that [strip] leaves as they are. *)
Theorem finalize_unchanged_iff_clean (md : string) (image_map : dict string) :
  Transformer._finalize_markdown md image_map = md
  <-> (Transformer.tagged md = false
       /\ PyStr.contains four_newlines md = false
       /\ Transformer.strip md = md).
Proof.
  split.
  - intros E. rewrite <- E. split; [|split].
    + apply CleanFacts.finalize_untagged.
    + apply CleanFacts.finalize_no_long_run.
    + apply CleanFacts.finalize_stripped.
  - intros (H1 & H2 & H3). now apply CleanFacts.finalize_fixed.
Qed.

(** The scan for tags against [Re.sub] with [[^>][^>]*] for [[^>]+],
    and a text through the three steps. *)
Example finalize_examples :
  Re.sub "<[^>][^>]*>" EmptyString "  <p>Hello <b>world</b></p> a < b <> c <x> d <<a>b> "
  = Re.Done (Transformer.strip_tags
               "  <p>Hello <b>world</b></p> a < b <> c <x> d <<a>b> ")
  /\ Transformer.strip_tags "a <> b < c" = "a <> b < c"%string
  /\ Transformer._finalize_markdown
       ("  <p>one</p>" ++ four_newlines ++ String Transformer.newline "two <br/> ")%string []
     = ("one" ++ String Transformer.newline (String Transformer.newline "two"))%string.
Proof. repeat split; vm_compute; reflexivity. Qed.

Module SubtypeFacts.

Import Transformer.

(** A run of word characters, up to a character that is none. *)
Lemma take_while_run (f : ascii -> bool) (t rest : string) :
  all_chars f t = true ->
  match rest with
  | EmptyString => true
  | String c _ => negb (f c)
  end = true ->
  take_while f (t ++ rest) = t.
Proof.
  intros Ht Hr. induction t as [|c t IH].
  - cbn [append]. destruct rest as [|c r]; [reflexivity|].
    cbn [take_while]. apply negb_true_iff in Hr. now rewrite Hr.
  - cbn [all_chars] in Ht. apply andb_true_iff in Ht. destruct Ht as [H1 H2].
    cbn [append take_while]. now rewrite H1, (IH H2).
Qed.

End SubtypeFacts.

(** X17.  The extension of an inline image is its MIME subtype as
    written: for a [src] of the form [data:image/<t><rest>], where [t]
    is a non-empty run of word characters and plus signs that [rest]
    does not continue, [_image_extension] gives a dot and [t], with no
    table of known types in between. *)
Theorem inline_extension_is_subtype (t rest : string) :
  t <> EmptyString ->
  all_chars Transformer.is_word_or_plus t = true ->
  match rest with
  | EmptyString => true
  | String c _ => negb (Transformer.is_word_or_plus c)
  end = true ->
  PyStr.startswith "data:image" ("data:image/" ++ t ++ rest) = true
  /\ Transformer._image_extension ("data:image/" ++ t ++ rest)
     = String "."%char t.
Proof.
  intros Ht Hw Hr. split; [reflexivity|].
  unfold Transformer._image_extension.
  replace (Transformer.search_image_type ("data:image/" ++ t ++ rest)) with (Some t);
    [reflexivity|].
  symmetry.
  do 5 (cbn [append Transformer.search_image_type PyStr.startswith Ascii.eqb Bool.eqb andb]).
  cbn [PyStr.drop].
  rewrite (SubtypeFacts.take_while_run Transformer.is_word_or_plus t rest Hw Hr).
  destruct t as [|c t]; [congruence | reflexivity].
Qed.

(** An inline SVG is stored under [.svg+xml]. *)
Lemma inline_extension_is_subtype_witness :
  Transformer._image_extension "data:image/svg+xml;base64,PHN2Zy8+" = ".svg+xml"%string.
Proof.
  refine (proj2 (inline_extension_is_subtype "svg+xml" ";base64,PHN2Zy8+" _ _ _)).
  - discriminate.
  - reflexivity.
  - reflexivity.
Defined.

(* ================================================================= *)
(** ** The footprint of a run *)

Module FootprintFacts.

Lemma remove_loop_ops (paths : list Path) :
  forall st o, In o (r_ops (remove_loop paths st)) -> exists p, o = OpUnlink p /\ In p paths.
Proof.
  induction paths as [|p paths IH]; intros st o H; [contradiction|].
  cbn [remove_loop] in H.
  destruct (find_asset p st) as [a|].
  - destruct (a_unlink_error a).
    + cbn [r_ops] in H. destruct (IH _ _ H) as (q & E & Hq). exists q. split; [exact E | now right].
    + cbn [r_ops] in H. destruct H as [<- | H].
      * exists p. split; [reflexivity | now left].
      * destruct (IH _ _ H) as (q & E & Hq). exists q. split; [exact E | now right].
  - cbn [r_ops] in H. destruct (IH _ _ H) as (q & E & Hq). exists q. split; [exact E | now right].
Qed.

(** A file to remove is a hashed file whose digest is shared. *)
Lemma removed_is_shared (st : list asset) (rmap : dict string) (p : Path) :
  In p (files_to_remove (_find_duplicates (store_index st)) rmap) ->
  exists a, In a st /\ a_path a = p /\ hashable a = true
            /\ 2 <= List.length (paths_of (MD5.hexdigest (a_bytes a)) st).
Proof.
  intros H. apply RemoveFacts.files_to_remove_in in H. destruct H as [(g & Hg & Hp) _].
  apply IndexFacts.group_in_index in Hg. destruct Hg as [Hg Hl].
  destruct (IndexFacts.index_entry st g Hg) as (k & -> & _).
  apply IndexFacts.paths_of_in in Hp. destruct Hp as (a & Ha & Pa & Fa & Da).
  exists a. rewrite Da. repeat split; try assumption; lia.
Qed.

End FootprintFacts.

(** X18.  The footprint of [deduplicate_directory], however the run
    ends.  The store only loses entries: what is there afterwards was
    there before, unchanged.  The documents keep their paths.  The only
    operations on the file system are [write_text] on a document, with a
    text other than the one it had, and [unlink] on a recognised,
    readable image whose digest at least two indexed paths share. *)
Theorem run_footprint
  (re_sub : string -> string -> string -> py_result string) (w : World) :
  let w' := snd (deduplicate_directory re_sub w) in
  (forall a, In a (store w') -> In a (store w))
  /\ map n_path (corpus w') = map n_path (corpus w)
  /\ exists new,
      ops w' = ops w ++ new
      /\ forall o, In o new ->
           (exists n text,
               In n (corpus w) /\ o = OpWriteText (n_path n) text /\ text <> n_text n)
           \/ (exists a,
                  In a (store w) /\ hashable a = true /\ o = OpUnlink (a_path a)
                  /\ 2 <= List.length (paths_of (MD5.hexdigest (a_bytes a)) (store w))).
Proof.
  intros w'. unfold w'.
  assert (W : forall rmap o,
             In o (u_ops (_update_markdown_links re_sub w rmap)) ->
             exists n text,
               In n (corpus w) /\ o = OpWriteText (n_path n) text /\ text <> n_text n).
  { intros rmap o H. unfold _update_markdown_links in H.
    destruct (update_loop_ops re_sub rmap (corpus w) (corpus_walk w) o H)
      as (n & text & Hn & E & _ & Hne).
    now exists n, text. }
  assert (P : forall rmap,
             map n_path (u_corpus (_update_markdown_links re_sub w rmap))
             = map n_path (corpus w)).
  { intros rmap. unfold _update_markdown_links.
    apply (update_loop_shape re_sub rmap (corpus w) (corpus_walk w)). }
  destruct (run_cases re_sub w)
    as [(n & msg & lg' & _ & E)
       | [(_ & _ & E) | (_ & _ & rmap & Hb & [(e & _ & E) | (_ & E)])]];
    rewrite E; cbn [snd store corpus ops].
  - split; [auto|]. split; [reflexivity|]. exists []. split; [now rewrite app_nil_r|].
    intros o [].
  - split; [auto|]. split; [reflexivity|]. exists []. split; [now rewrite app_nil_r|].
    intros o [].
  - split; [auto|]. split; [apply P|].
    exists (u_ops (_update_markdown_links re_sub w rmap)). split; [reflexivity|].
    intros o H. left. now apply (W rmap).
  - split; [|split; [apply P|]].
    + intros a H. unfold _remove_duplicates in H.
      now apply RemoveFacts.remove_loop_incl in H.
    + exists (u_ops (_update_markdown_links re_sub w rmap)
              ++ r_ops (_remove_duplicates (_find_duplicates (store_index (store w)))
                          rmap (store w))).
      split; [reflexivity|]. intros o H. apply in_app_or in H. destruct H as [H | H].
      * left. now apply (W rmap).
      * right. unfold _remove_duplicates in H.
        apply FootprintFacts.remove_loop_ops in H. destruct H as (p & -> & Hp).
        destruct (FootprintFacts.removed_is_shared (store w) rmap p Hp)
          as (a & Ha & Pa & Fa & La).
        exists a. rewrite Pa. now repeat split.
Qed.
